(** * Notebook helpers of the d2l tutorial, embedded and verified

    The development follows the Python cells of three notebooks:
    - [model-construction.ipynb]: [MLP], [MySequential], [FixedHiddenMLP],
      [NestMLP];
    - [read-write.ipynb]: [TokenEmbedding], [knn], [get_similar_tokens],
      [get_analogy];
    - [kaggle-gluon-cifar10.ipynb]: [read_csv_labels], [copyfile],
      [reorg_train_valid], [reorg_test], [reorg_cifar10_data], [train],
      the submission loop.

    Python dictionaries are [gmap]s, ordered dictionaries are association
    lists, exceptions are the [Raise] branch of [result], and the tensors
    of the framework are lists of binary32 numbers ([spec_float] with
    precision 24 and maximal exponent 128, the framework's default
    [float32]). *)

From Stdlib Require Import ZArith List Ascii String Lia.
From Stdlib Require Import Floats.SpecFloat.
From stdpp Require Import base option list gmap strings pretty sorting.

#[local] Set Warnings "-clear-no-such-hyp".

#[local] Open Scope string_scope.
#[local] Open Scope Z_scope.
#[local] Open Scope list_scope.

(** ** Exceptions *)

(** The host exceptions the modelled cells can meet.  Nothing in the
    notebooks catches them: [bind] is the only way two steps are glued. *)
Inductive exn : Type :=
  | KeyError (key : string)
  | IndexError
  | ValueError
  | TypeError
  | OverflowError
  | OSError (payload : string)
  | MXNetError.

Inductive result (A : Type) : Type :=
  | Ok (a : A)
  | Raise (e : exn).
Arguments Ok {A} a.
Arguments Raise {A} e.

#[global] Instance result_ret : MRet result := fun A a => Ok a.
#[global] Instance result_bind : MBind result := fun A B k r =>
  match r with
  | Ok a => k a
  | Raise e => Raise e
  end.

(** ** [MySequential] (model-construction.ipynb) *)

Module Sequential.
Section Blocks.
(** [X] is the type of the values that flow between blocks. *)
Context {X : Type}.

(** A block has a [name] and can be called; a call may raise. *)
Record Block : Type := { name : string; call : X -> result X }.

(** [d[k] = v] on an [OrderedDict]: a known key keeps its position and
  gets the new value, a new key goes to the end. *)
Fixpoint od_setitem (d : list (string * Block)) (k : string) (v : Block)
: list (string * Block) :=
match d with
| [] => [(k, v)]
| (k', v') :: d' =>
    if String.eqb k' k then (k', v) :: d' else (k', v') :: od_setitem d' k v
end.

Definition od_values (d : list (string * Block)) : list Block := map snd d.

Record MySequential : Type := { _children : list (string * Block) }.

(** [MySequential()]: [Block.__init__] starts with no children. *)
Definition MySequential_init : MySequential := {| _children := [] |}.

(** [self._children[block.name] = block] *)
Definition add (self : MySequential) (block : Block) : MySequential :=
{| _children := od_setitem (_children self) (name block) block |}.

(** [for block in self._children.values(): x = block(x)] then [return x] *)
Fixpoint forward_loop (blocks : list Block) (x : X) : result X :=
match blocks with
| [] => Ok x
| block :: rest => x' ← call block x; forward_loop rest x'
end.

Definition forward (self : MySequential) (x : X) : result X :=
forward_loop (od_values (_children self)) x.

(** [net.add(b_1); ...; net.add(b_n)] *)
Definition add_all (self : MySequential) (bs : list Block) : MySequential :=
fold_left add bs self.

(** b_n(...b_2(b_1(x))...), each call made once, left to right. *)
Definition chain (bs : list Block) (x : X) : result X :=
fold_left (fun r b => r ≫= call b) bs (Ok x).
End Blocks.
Arguments Block : clear implicits.
Arguments MySequential : clear implicits.
End Sequential.

(** ** Floating-point numbers *)

(** The framework stores tensors as IEEE-754 binary32 by default; the
    operations are those of [SpecFloat] at precision 24, with rounding to
    nearest even, infinities, signed zeros and NaN. *)
Module F32.
Definition prec : Z := 24.
Definition emax : Z := 128.

Definition zero : spec_float := S754_zero false.
Definition of_Z (n : Z) : spec_float := binary_normalize prec emax n 0 false.
Definition one : spec_float := Eval vm_compute in of_Z 1.
Definition two : spec_float := Eval vm_compute in of_Z 2.

Definition add : spec_float -> spec_float -> spec_float := SFadd prec emax.
Definition sub : spec_float -> spec_float -> spec_float := SFsub prec emax.
Definition mul : spec_float -> spec_float -> spec_float := SFmul prec emax.
Definition div : spec_float -> spec_float -> spec_float := SFdiv prec emax.
Definition sqrt : spec_float -> spec_float := SFsqrt prec emax.
Definition abs : spec_float -> spec_float := SFabs.

(** [a > b] and [a >= b]; both are false as soon as one side is NaN. *)
Definition gtb (a b : spec_float) : bool := SFltb b a.
Definition geb (a b : spec_float) : bool := SFleb b a.

Definition is_nan (a : spec_float) : bool :=
  match a with S754_nan => true | _ => false end.
Definition is_finite (a : spec_float) : bool :=
  match a with S754_zero _ | S754_finite _ _ _ => true | _ => false end.

(** The numbers that are zero or above, infinity included. *)
Definition nonneg (a : spec_float) : bool :=
  match a with
  | S754_zero false | S754_finite false _ _ | S754_infinity false => true
  | _ => false
  end.

(** The finite numbers of the format: zero, or a mantissa and an
    exponent in canonical form. *)
Definition finite_number (a : spec_float) : bool :=
  is_finite a && valid_binary prec emax a.

(** The magnitude of a finite number in units of 2^-149, the smallest
    positive number of the format. *)
Definition rank (a : spec_float) : Z :=
  match a with
  | S754_finite _ m e => Zpos m * 2 ^ (e + 149)
  | _ => 0
  end.

(** The value of a finite number in units of 2^-149, with its sign;
    zero for the others. *)
Definition val (a : spec_float) : Z :=
  match a with
  | S754_finite s m e => cond_Zopp s (Zpos m * 2 ^ (e + 149))
  | _ => 0
  end.

(** The integers that are values of finite numbers of the format: a
    mantissa below 2^24 in magnitude and an exponent up to 253. *)
Definition representable (z : Z) : Prop :=
  ∃ m k, z = m * 2 ^ k ∧ Z.abs m < 2 ^ 24 ∧ 0 <= k <= 253.

(** Half of an integer, to the nearest integer, and to the even one of
    the two when it lies half-way. *)
Definition half_even (v : Z) : Z :=
  round_nearest_even (v / 2)
    (if Z.even v then loc_Exact else loc_Inexact Eq).

(** Conversion of a binary64 number (a Python [float]) to binary32. *)
Definition of_f64 (a : spec_float) : spec_float :=
  match a with
  | S754_finite s m e => binary_round prec emax s m e
  | _ => a
  end.
End F32.

(** Python's own [float] is binary64. *)
Module F64.
Definition prec : Z := 53.
Definition emax : Z := 1024.
Definition of_Z (n : Z) : spec_float := binary_normalize prec emax n 0 false.
Definition mul : spec_float -> spec_float -> spec_float := SFmul prec emax.
Definition div : spec_float -> spec_float -> spec_float := SFdiv prec emax.
Definition is_finite (a : spec_float) : bool :=
  match a with S754_zero _ | S754_finite _ _ _ => true | _ => false end.
End F64.

(** A vector is a list of numbers, a matrix a list of rows. *)
Abbreviation vector := (list spec_float).
Abbreviation matrix := (list (list spec_float)).

(** ** The reductions of the framework *)

Module Reduce.
(** One step of the framework's [sum]: the reduction is compensated.
    Next to the running sum [dst] it keeps the rounding error
    [residual] of the last addition and takes it off the next entry
    [src]:
    [y = src - residual; t = dst + y; residual = (t - dst) - y; dst = t]. *)
Definition step (acc : spec_float * spec_float) (src : spec_float)
  : spec_float * spec_float :=
  let y := F32.sub src acc.2 in
  let t := F32.add acc.1 y in
  (t, F32.sub (F32.sub t acc.1) y).

(** [v.sum()] and [np.sum(v)]: the entries go through [step] from the
    first to the last, sum and error starting at zero. *)
Definition sum (v : vector) : spec_float :=
  (fold_left step v (F32.zero, F32.zero)).1.

(** The inner product inside [np.dot] and inside a dense layer: a matrix
    product of the framework, not a reduction; the products are added
    from the left, starting at zero, without compensation. *)
Definition inner (u v : vector) : spec_float :=
  fold_left F32.add (zip_with F32.mul u v) F32.zero.
End Reduce.

(** ** Python strings and lists *)

Module Py.
(** [str.isspace] on the code points below 256. *)
Definition isspace (c : ascii) : bool :=
  match N_of_ascii c with
  | 9 | 10 | 11 | 12 | 13 | 28 | 29 | 30 | 31 | 32 | 133 | 160 => true
  | _ => false
  end%N.

(** [s.rstrip()] *)
Fixpoint rstrip (s : string) : string :=
  match s with
  | EmptyString => EmptyString
  | String c s' =>
      match rstrip s' with
      | EmptyString => if isspace c then EmptyString else String c EmptyString
      | r => String c r
      end
  end.

(** [s.split(sep)] for a separator of one character: never the empty
    list, and two neighbouring separators give an empty field. *)
Fixpoint split (sep : ascii) (s : string) : list string :=
  match s with
  | EmptyString => [EmptyString]
  | String c s' =>
      if Ascii.eqb c sep then EmptyString :: split sep s'
      else match split sep s' with
           | w :: ws => String c w :: ws
           | [] => [String c EmptyString]
           end
  end.

(** [[f(a) for a in l]] where [f] may raise: the first exception wins. *)
Fixpoint comprehension {A B : Type} (f : A -> result B) (l : list A)
  : result (list B) :=
  match l with
  | [] => Ok []
  | a :: l' => b ← f a; bs ← comprehension f l'; Ok (b :: bs)
  end.

(** [l[i]] for [i >= 0] *)
Definition getitem {A : Type} (l : list A) (i : nat) : result A :=
  match l !! i with
  | Some a => Ok a
  | None => Raise IndexError
  end.

(** [d[k]] on a [dict] with string keys *)
Definition dict_getitem {A : Type} (d : gmap string A) (k : string) : result A :=
  match d !! k with
  | Some a => Ok a
  | None => Raise (KeyError k)
  end.

(** Sorting by insertion, the order given by a test [le]: an element
    goes before the first one it is [le] to, so that equal elements keep
    their order ([list.sort] is stable). *)
Fixpoint insert {A : Type} (le : A -> A -> bool) (x : A) (l : list A) : list A :=
  match l with
  | [] => [x]
  | y :: l' => if le x y then x :: y :: l' else y :: insert le x l'
  end.

Definition sort {A : Type} (le : A -> A -> bool) (l : list A) : list A :=
  foldr (insert le) [] l.

(** [{x: i for i, x in enumerate(l)}]: later entries overwrite. *)
Definition dict_of_enumerate (l : list string) : gmap string nat :=
  fold_left (fun d ix => <[ix.2 := ix.1]> d) (zip (seq 0 (length l)) l) ∅.
End Py.

(** ** [FixedHiddenMLP] (model-construction.ipynb) *)

Module MLP.
(** The parameters of an initialised instance: the constant
    [rand_weight] and the weight and bias of the one [Dense] layer. *)
Record FixedHiddenMLP : Type := {
  rand_weight : matrix;
  dense_weight : matrix;
  dense_bias : vector
}.

(** [v.sum()], the compensated reduction of the framework. *)
Definition sum (v : vector) : spec_float := Reduce.sum v.

(** [npx.relu]: a NaN stays, a number that is not above zero gives zero. *)
Definition relu (a : spec_float) : spec_float :=
  if F32.is_nan a then a else if F32.gtb a F32.zero then a else F32.zero.

Definition same_length {A B : Type} (l : list A) (k : list B) : bool :=
  Nat.eqb (length l) (length k).

(** [nn.Dense(units, activation='relu')] on a batch: a row [r] of the
    batch gives relu(r . w + b) for every row [w] of the weight with its
    bias [b]. *)
Definition dense (self : FixedHiddenMLP) (x : matrix) : result matrix :=
  if same_length (dense_weight self) (dense_bias self)
     && forallb (fun r => forallb (same_length r) (dense_weight self)) x
  then Ok (map (fun r =>
                  zip_with (fun w b =>
                              relu (F32.add (Reduce.inner r w) b))
                    (dense_weight self) (dense_bias self)) x)
  else Raise MXNetError.

(** One row of [np.dot(x, R)]: the rows of [R], scaled by the entries of
    the row of [x], are added up from the first to the last. *)
Definition dot_row (r : vector) (R : matrix) : vector :=
  fold_left (fun acc '(a, row) => zip_with F32.add acc (map (F32.mul a) row))
    (zip r R) (replicate (length (default [] (head R))) F32.zero).

Definition np_dot (x R : matrix) : result matrix :=
  if forallb (fun r => same_length r R) x
     && forallb (same_length (default [] (head R))) R
  then Ok (map (fun r => dot_row r R) x)
  else Raise MXNetError.

(** [np.abs(x).sum()] and [x.sum()] of a batch, row after row. *)
Definition abs_sum (x : matrix) : spec_float := sum (concat (map (map F32.abs) x)).
Definition total (x : matrix) : spec_float := sum (concat x).

(** [x /= 2] *)
Definition halve (x : matrix) : matrix := map (map (fun a => F32.div a F32.two)) x.

(** [while np.abs(x).sum() > 1: x /= 2], run for at most [fuel] tests of
    the condition; [None] when the loop is still running then. *)
Fixpoint while (fuel : nat) (x : matrix) : option matrix :=
  match fuel with
  | O => None
  | S fuel' => if F32.gtb (abs_sum x) F32.one then while fuel' (halve x) else Some x
  end.

(** The statements of [forward] before the loop. *)
Definition before_loop (self : FixedHiddenMLP) (x : matrix) : result matrix :=
  x ← dense self x;
  x ← np_dot x (rand_weight self);
  let x := map (map (fun a => relu (F32.add a F32.one))) x in
  dense self x.

Definition forward (fuel : nat) (self : FixedHiddenMLP) (x : matrix)
  : option (result spec_float) :=
  match before_loop self x with
  | Raise e => Some (Raise e)
  | Ok x =>
      match while fuel x with
      | Some x => Some (Ok (total x))
      | None => None
      end
  end.
End MLP.

(** ** [TokenEmbedding] (read-write.ipynb) *)

Module Embedding.
Record TokenEmbedding : Type := {
  idx_to_token : list string;
  idx_to_vec : matrix;
  unknown_idx : nat;
  token_to_idx : gmap string nat
}.

(** [np.array(rows)]: the rows must have one length; the entries become
    binary32.  On rows of several lengths the framework passes on the
    error of the array library as a [TypeError]. *)
Definition np_array (rows : matrix) : result matrix :=
  match rows with
  | [] => Ok []
  | r :: _ =>
      if forallb (fun r' => Nat.eqb (length r') (length r)) rows
      then Ok (map (map F32.of_f64) rows)
      else Raise TypeError
  end.

Section Load.
(** Python's [float(s)], which raises [ValueError] on a malformed
    literal. *)
Variable float : string -> result spec_float.

(** The body of [for line in f], with the two lists it appends to. *)
Fixpoint load_lines (lines : list string)
    (idx_to_token : list string) (idx_to_vec : matrix)
  : result (list string * matrix) :=
  match lines with
  | [] => Ok (idx_to_token, idx_to_vec)
  | line :: rest =>
      let elems := Py.split " " (Py.rstrip line) in
      let token := hd EmptyString elems in
      elems ← Py.comprehension float (tl elems);
      if (1 <? length elems)%nat
      then load_lines rest (idx_to_token ++ [token]) (idx_to_vec ++ [elems])
      else load_lines rest idx_to_token idx_to_vec
  end.

(** [_load_embedding], given the lines of the extracted [vec.txt]. *)
Definition _load_embedding (lines : list string)
  : result (list string * matrix) :=
  '(idx_to_token, idx_to_vec) ← load_lines lines ["<unk>"] [];
  first ← Py.getitem idx_to_vec 0;
  let idx_to_vec :=
    replicate (length first) (F64.of_Z 0) :: idx_to_vec in
  arr ← np_array idx_to_vec;
  Ok (idx_to_token, arr).

(** [TokenEmbedding.__init__] *)
Definition __init__ (lines : list string) : result TokenEmbedding :=
  '(idx_to_token, idx_to_vec) ← _load_embedding lines;
  Ok {| idx_to_token := idx_to_token;
        idx_to_vec := idx_to_vec;
        unknown_idx := 0;
        token_to_idx := Py.dict_of_enumerate idx_to_token |}.
End Load.

(** [self.token_to_idx.get(token, self.unknown_idx)] for every token *)
Definition indices_of (self : TokenEmbedding) (tokens : list string) : list nat :=
  map (fun token => default (unknown_idx self) (token_to_idx self !! token)) tokens.

(** [self.idx_to_vec[np.array(indices)]]: one row per index. *)
Definition __getitem__ (self : TokenEmbedding) (tokens : list string)
  : result matrix :=
  Py.comprehension (Py.getitem (idx_to_vec self)) (indices_of self tokens).

Definition __len__ (self : TokenEmbedding) : nat := length (idx_to_token self).

(** The two read-only methods as calls on an instance: a call returns its
    value and the instance as the call leaves it. *)
Inductive method : Type :=
  | Getitem (tokens : list string)
  | Len.

Inductive value : Type :=
  | Rows (r : result matrix)
  | Int (n : nat).

Definition call (self : TokenEmbedding) (m : method) : value * TokenEmbedding :=
  match m with
  | Getitem tokens => (Rows (__getitem__ self tokens), self)
  | Len => (Int (__len__ self), self)
  end.

Definition calls (self : TokenEmbedding) (ms : list method) : TokenEmbedding :=
  fold_left (fun s m => (call s m).2) ms self.
End Embedding.

(** ** [knn] and [get_analogy] (read-write.ipynb) *)

Module Similarity.
Import Embedding.

(** [v.sum()] and [np.sum(v)], the compensated reduction of the
    framework. *)
Definition sum (v : vector) : spec_float := Reduce.sum v.

(** [u * v], entry by entry *)
Definition mul (u v : vector) : vector := zip_with F32.mul u v.

(** [np.dot(W, x)] for a matrix and a vector: every row must be as long
    as [x]. *)
Definition np_dot (W : matrix) (x : vector) : result vector :=
  if forallb (fun row => Nat.eqb (length row) (length x)) W
  then Ok (map (fun row => Reduce.inner row x) W)
  else Raise MXNetError.

(** The Python constant [1e-9], a binary64 number, as the binary32 number
    the framework adds to a binary32 tensor. *)
Definition eps : spec_float :=
  Eval vm_compute in F32.of_f64 (F64.div (F64.of_Z 1) (F64.of_Z 1000000000)).

(** [np.sqrt(np.sum(W * W, axis=1) + 1e-9) * np.sqrt((x * x).sum())],
    the entry of one row *)
Definition norms (row x : vector) : spec_float :=
  F32.mul (F32.sqrt (F32.add (sum (mul row row)) eps)) (F32.sqrt (sum (mul x x))).

(** The vector [cos] of [knn]. *)
Definition cosines (W : matrix) (x : vector) : result vector :=
  num ← np_dot W x;
  Ok (zip_with F32.div num (map (fun row => norms row x) W)).

(** The test of the descending sort inside [npx.topk]: an index [i]
    stays before a later index [j] unless [cos[j] > cos[i]].  A
    comparison with NaN is false, so that NaN entries stay where they
    are: a vector of NaN comes back in the order of its indices. *)
Definition before (cos : vector) (i j : nat) : bool :=
  negb (F32.gtb (default S754_nan (cos !! j)) (default S754_nan (cos !! i))).

(** [npx.topk(cos, k=k, ret_typ='indices')] on a vector: the indices of
    the [k] greatest entries, the greatest first.  The operator refuses a
    [k] above the number of entries and sorts the whole vector when
    [k < 1].  Its indices come back as numbers that [int(i)] turns into
    positions; they are positions here. *)
Definition topk (cos : vector) (k : nat) : result (list nat) :=
  if decide (length cos < k)%nat then Raise MXNetError
  else
    let order := Py.sort (before cos) (seq 0 (length cos)) in
    Ok (match k with O => order | _ => take k order end).

Definition knn (W : matrix) (x : vector) (k : nat)
  : result (list nat * vector) :=
  cos ← cosines W x;
  topk ← topk cos k;
  vals ← Py.comprehension (Py.getitem cos) topk;
  Ok (topk, vals).

(** The cosine similarity of one row to [x], as a formula:
    dot(row, x) / (sqrt(||row||^2 + 1e-9) * ||x||). *)
Definition cosine (row x : vector) : spec_float :=
  F32.div (Reduce.inner row x) (norms row x).

(** The similarity of row [i] of [W] to [x]. *)
Definition similarity (W : matrix) (x : vector) (i : nat) : spec_float :=
  cosine (default [] (W !! i)) x.

(** [idx] lists [k] rows of [W], from the most to the least similar to
    [x], and no row outside [idx] is more similar to [x] than a row in
    it. *)
Definition top_k_rows (W : matrix) (x : vector) (k : nat) (idx : list nat) : Prop :=
  length idx = k ∧ NoDup idx ∧ Forall (fun i => (i < length W)%nat) idx ∧
  StronglySorted
    (fun i j => F32.geb (similarity W x i) (similarity W x j) = true) idx ∧
  ∀ i j, i ∈ idx -> (j < length W)%nat -> j ∉ idx ->
         F32.geb (similarity W x i) (similarity W x j) = true.

(** [vecs[1] - vecs[0] + vecs[2]] *)
Definition analogy_query (vecs : matrix) : result vector :=
  b ← Py.getitem vecs 1;
  a ← Py.getitem vecs 0;
  c ← Py.getitem vecs 2;
  Ok (zip_with F32.add (zip_with F32.sub b a) c).

Definition get_analogy (token_a token_b token_c : string)
    (embed : TokenEmbedding) : result string :=
  vecs ← __getitem__ embed [token_a; token_b; token_c];
  x ← analogy_query vecs;
  '(topk, cos) ← knn (idx_to_vec embed) x 1;
  i ← Py.getitem topk 0;
  Py.getitem (idx_to_token embed) i.
End Similarity.
(** ** The file system *)

(** A path is the list of the names that lead from the root to a file or
    a directory.  The file system holds the contents of its regular files
    and the set of its directories; [copied] records, in order, every copy
    made, as (source, destination).  Symbolic links, access rights and the
    limits of the host (lengths of names, room on the disk) are left out:
    the host carries out what it is asked for. *)
Module FS.
Record world : Type := {
  files : gmap (list string) string;
  dirs : gset (list string);
  copied : list (list string * list string)
}.

(** Commands run on a world and may raise; the world they leave is kept
    in both cases, since nothing is undone when an exception leaves. *)
Definition io (A : Type) : Type := world -> world * result A.

#[global] Instance io_ret : MRet io := fun A a w => (w, Ok a).
#[global] Instance io_bind : MBind io := fun A B k m w =>
  match m w with
  | (w', Ok a) => k a w'
  | (w', Raise e) => (w', Raise e)
  end.

(** A pure step that may raise, as a command. *)
Definition lift {A : Type} (r : result A) : io A := fun w => (w, r).

Fixpoint strip_prefix (dir p : list string) : option (list string) :=
  match dir, p with
  | [], _ => Some p
  | d :: dir', c :: p' => if String.eqb d c then strip_prefix dir' p' else None
  | _ :: _, [] => None
  end.

(** [p] lies in [dir] or deeper. *)
Definition below (dir p : list string) : Prop := is_Some (strip_prefix dir p).

(** The name under which [p] shows in a listing of [dir]. *)
Definition child_of (dir p : list string) : option string :=
  match strip_prefix dir p with
  | Some (c :: _) => Some c
  | _ => None
  end.

(** What a listing of [dir] shows: the names through which a file or a
    directory is reached from [dir]. *)
Definition entries (w : world) (dir : list string) : list string :=
  remove_dups (omap (child_of dir)
                 (elements (dom (files w)) ++ elements (dirs w))).

(** [os.path.basename] *)
Definition basename (p : list string) : string := default EmptyString (last p).

(** The path [p] and the paths above it, the root first. *)
Fixpoint ancestors (p : list string) : list (list string) :=
  match p with
  | [] => [[]]
  | c :: p' => [] :: map (cons c) (ancestors p')
  end.

(** A regular file sits at [p] or above it. *)
Definition blocked (w : world) (p : list string) : bool :=
  existsb (fun q => bool_decide (is_Some (files w !! q))) (ancestors p).

(** The error of the host for a path at which there is no regular file. *)
Definition no_file (w : world) (p : list string) : exn :=
  if decide (p ∈ dirs w) then OSError "IsADirectoryError"
  else if blocked w p then OSError "NotADirectoryError"
  else OSError "FileNotFoundError".

(** The name [name], a text that may hold separators, looked up from the
    directory [base]: what [os.path.join(base, name)] names.  A leading
    ['/'] starts again at the root, an empty name and ['.'] stay where
    they are, ['..'] goes one directory up. *)
Definition walk (p : list string) (c : string) : list string :=
  if decide (c = "" ∨ c = ".") then p
  else if decide (c = "..") then removelast p
  else p ++ [c].

Definition locate (base : list string) (name : string) : list string :=
  fold_left walk (Py.split "/" name)
    (match name with
     | String c _ => if Ascii.eqb c "/" then [] else base
     | EmptyString => base
     end).

(** A name that is one step down: not empty, not ['.'] or ['..'],
    without a separator and without the character 0, which the host
    refuses. *)
Definition plain (name : string) : bool :=
  bool_decide (Py.split "/" name = [name]) &&
  bool_decide (Py.split (ascii_of_nat 0) name = [name]) &&
  negb (String.eqb name "") && negb (String.eqb name ".") &&
  negb (String.eqb name "..").

(** [open(fname, 'r')] followed by reading the whole text.  The text
    comes with universal newlines: a carriage return, alone or before a
    line feed, is read as a line feed. *)
Fixpoint newlines (text : string) : string :=
  match text with
  | EmptyString => EmptyString
  | String c text' =>
      if Ascii.eqb c (ascii_of_nat 13) then
        match text' with
        | String c' text'' =>
            if Ascii.eqb c' (ascii_of_nat 10)
            then String c' (newlines text'')
            else String (ascii_of_nat 10) (newlines text')
        | EmptyString => String (ascii_of_nat 10) EmptyString
        end
      else String c (newlines text')
  end.

Definition open (fname : list string) : io string := fun w =>
  match files w !! fname with
  | Some text => (w, Ok (newlines text))
  | None => (w, Raise (no_file w fname))
  end.

(** [os.makedirs(target_dir)] for a path at which nothing is: the
    directory and the missing ones above it are made, unless a regular
    file is in the way. *)
Definition makedirs (target_dir : list string) : io unit := fun w =>
  if blocked w target_dir then (w, Raise (OSError "NotADirectoryError"))
  else ({| files := files w;
           dirs := dirs w ∪ list_to_set (ancestors target_dir);
           copied := copied w |}, Ok ()).

(** Modelled from the spec: [d2l.mkdir_if_not_exist] is not among the
    cells of the notebook; it calls [os.makedirs] when nothing is at
    the path, neither a directory nor a file. *)
Definition mkdir_if_not_exist (target_dir : list string) : io unit := fun w =>
  if decide (is_Some (files w !! target_dir) ∨ target_dir ∈ dirs w)
  then (w, Ok ())
  else makedirs target_dir w.

(** [shutil.copy(filename, target)]: into a directory, the contents go
    to the file of the same name in it; otherwise [target] is the file
    written.  The source must be a regular file, the file written must
    be another file than the source, no directory, and in a
    directory. *)
Definition shutil_copy (filename target : list string) : io unit := fun w =>
  let dst := if decide (target ∈ dirs w) then target ++ [basename filename]
             else target in
  match files w !! filename with
  | None => (w, Raise (no_file w filename))
  | Some contents =>
      if decide (dst = filename) then (w, Raise (OSError "SameFileError"))
      else if decide (dst ∈ dirs w) then (w, Raise (OSError "IsADirectoryError"))
      else if decide (removelast dst ∈ dirs w) then
        ({| files := <[dst := contents]> (files w);
            dirs := dirs w;
            copied := copied w ++ [(filename, dst)] |}, Ok ())
      else (w, Raise (no_file w dst))
  end.

Section Listing.
(** The order in which the host lists a directory is not fixed: it is
    any rearrangement [readdir] of the entries. *)
Variable readdir : list string -> list string.

(** [os.listdir(dir)] *)
Definition listdir (dir : list string) : io (list string) := fun w =>
  if decide (dir ∈ dirs w) then (w, Ok (readdir (entries w dir)))
  else (w, Raise (match files w !! dir with
                  | Some _ => OSError "NotADirectoryError"
                  | None => no_file w dir
                  end)).
End Listing.
End FS.

(** ** Reorganising the dataset (kaggle-gluon-cifar10.ipynb) *)

Module Kaggle.
Import FS.

(** [f.readlines()]: the text cut after every line feed. *)
Fixpoint readlines (text : string) : list string :=
  match text with
  | EmptyString => []
  | String c text' =>
      if Ascii.eqb c (ascii_of_nat 10) then String c EmptyString :: readlines text'
      else match readlines text' with
           | l :: ls => String c l :: ls
           | [] => [String c EmptyString]
           end
  end.

(** [dict(((name, label) for name, label in tokens))]: a row must have
    exactly two fields; a later row overwrites an earlier one. *)
Fixpoint dict_of_rows (tokens : list (list string)) (d : gmap string string)
  : result (gmap string string) :=
  match tokens with
  | [] => Ok d
  | [name; label] :: rest => dict_of_rows rest (<[name := label]> d)
  | _ :: _ => Raise ValueError
  end.

Definition read_csv_labels (fname : list string) : io (gmap string string) :=
  text ← open fname;
  let lines := tl (readlines text) in
  let tokens := map (fun l => Py.split "," (Py.rstrip l)) lines in
  lift (dict_of_rows tokens ∅).

Definition copyfile (filename target_dir : list string) : io unit :=
  _ ← mkdir_if_not_exist target_dir;
  shutil_copy filename target_dir.

(** [collections.Counter(values)] *)
Definition Counter (values : list string) : gmap string nat :=
  fold_left (fun c v => <[v := S (default 0%nat (c !! v))]> c) values ∅.

(** [c.most_common()]: the items, the most frequent first. *)
Definition most_common (c : gmap string nat) : list (string * nat) :=
  Py.sort (fun a b => (b.2 <=? a.2)%nat) (map_to_list c).

(** [collections.Counter(labels.values()).most_common()[-1][1]] *)
Definition least_count (labels : gmap string string) : result nat :=
  match last (most_common (Counter (map_to_list labels).*2)) with
  | Some (_, n) => Ok n
  | None => Raise IndexError
  end.

(** The number of file names that [labels] sends to the class [c]. *)
Definition class_size (labels : gmap string string) (c : string) : nat :=
  length (filter (fun kv => kv.2 = c) (map_to_list labels)).

(** [math.floor(a)] of a Python [float]: NaN and the infinities have no
    floor. *)
Definition floor (a : spec_float) : result Z :=
  match a with
  | S754_nan => Raise ValueError
  | S754_infinity _ => Raise OverflowError
  | S754_zero _ => Ok 0
  | S754_finite s m e =>
      Ok (match e with
          | Zneg k => (cond_Zopp s (Zpos m)) / 2 ^ Zpos k
          | _ => cond_Zopp s (Zpos m) * 2 ^ e
          end)
  end.

(** [max(1, math.floor(n * valid_ratio))]: the product is the binary64
    product of [n], turned into a [float], and [valid_ratio]. *)
Definition valid_per_label (n : nat) (valid_ratio : spec_float) : result Z :=
  k ← floor (F64.mul (F64.of_Z (Z.of_nat n)) valid_ratio);
  Ok (Z.max 1 k).

(** ['.'.join(parts)] *)
Fixpoint join_dots (parts : list string) : string :=
  match parts with
  | [] => EmptyString
  | [part] => part
  | part :: rest => part +:+ "." +:+ join_dots rest
  end.

(** A file name stripped of its extension: the last dot and what
    follows go, when a dot is there. *)
Definition strip_extension (name : string) : string :=
  match reverse (Py.split "." name) with
  | _ :: (_ :: _) as rest => join_dots (reverse rest)
  | _ => name
  end.

(** [train_file.split('.')[0]] *)
Definition stem (train_file : string) : string :=
  hd EmptyString (Py.split "." train_file).

Section Reorg.
Variable readdir : list string -> list string.
Variable data_dir : list string.

(** [os.path.join(data_dir, 'train_valid_test', part, label)] *)
Definition target (part label : string) : list string :=
  locate (data_dir ++ ["train_valid_test"; part]) label.

(** The directory of a class in one of the parts, for a label that
    is a plain name. *)
Definition tree (part label : string) : list string :=
  data_dir ++ ["train_valid_test"; part; label].

(** The body of the loop of [reorg_train_valid], with [label_count]
    passed along. *)
Fixpoint train_valid_loop (labels : gmap string string)
    (n_valid_per_label : Z) (train_files : list string)
    (label_count : gmap string Z) : io unit :=
  match train_files with
  | [] => mret ()
  | train_file :: rest =>
      label ← lift (Py.dict_getitem labels (stem train_file));
      let fname := data_dir ++ ["train"; train_file] in
      _ ← copyfile fname (target "train_valid" label);
      match label_count !! label with
      | Some count =>
          if (count <? n_valid_per_label)%Z then
            _ ← copyfile fname (target "valid" label);
            train_valid_loop labels n_valid_per_label rest
              (<[label := (count + 1)%Z]> label_count)
          else
            _ ← copyfile fname (target "train" label);
            train_valid_loop labels n_valid_per_label rest label_count
      | None =>
          _ ← copyfile fname (target "valid" label);
          train_valid_loop labels n_valid_per_label rest
            (<[label := (0 + 1)%Z]> label_count)
      end
  end.

(** The copies the loop makes when nothing is in their way, as a
    list: two per file, until a file without a label stops the
    loop. *)
Fixpoint planned_copies (labels : gmap string string)
    (n_valid_per_label : Z) (train_files : list string)
    (label_count : gmap string Z) : list (list string * list string) :=
  match train_files with
  | [] => []
  | train_file :: rest =>
      match labels !! stem train_file with
      | None => []
      | Some label =>
          let fname := data_dir ++ ["train"; train_file] in
          let count := default 0%Z (label_count !! label) in
          (fname, tree "train_valid" label ++ [train_file]) ::
          if (count <? n_valid_per_label)%Z then
            (fname, tree "valid" label ++ [train_file]) ::
            planned_copies labels n_valid_per_label rest
              (<[label := (count + 1)%Z]> label_count)
          else
            (fname, tree "train" label ++ [train_file]) ::
            planned_copies labels n_valid_per_label rest label_count
      end
  end.

(** How the loop ends when nothing is in the way of its copies: with
    the [KeyError] of the first file whose stem has no label, or
    normally. *)
Definition loop_outcome (labels : gmap string string)
    (train_files : list string) : result unit :=
  match list_find (fun f => labels !! stem f = None) train_files with
  | Some (_, f) => Raise (KeyError (stem f))
  | None => Ok ()
  end.

Definition reorg_train_valid (labels : gmap string string)
    (valid_ratio : spec_float) : io Z :=
  n ← lift (least_count labels);
  n_valid_per_label ← lift (valid_per_label n valid_ratio);
  train_files ← listdir readdir (data_dir ++ ["train"]);
  _ ← train_valid_loop labels n_valid_per_label train_files ∅;
  mret n_valid_per_label.

Fixpoint test_loop (test_files : list string) : io unit :=
  match test_files with
  | [] => mret ()
  | test_file :: rest =>
      _ ← copyfile (data_dir ++ ["test"; test_file]) (target "test" "unknown");
      test_loop rest
  end.

Definition reorg_test : io unit :=
  test_files ← listdir readdir (data_dir ++ ["test"]);
  test_loop test_files.

(** Nothing is in the way of the copies: no regular file is at
    [data_dir] or above it, and below [train_valid_test] the regular
    files sit three directories down (part, class, file) and nowhere
    else, with no directory that deep.  A directory that was never
    reorganised is so, and a reorganised one is so again. *)
Definition tidy (w : world) : Prop :=
  (∀ q, below q data_dir -> files w !! q = None) ∧
  ∀ p, below (data_dir ++ ["train_valid_test"]) p ->
       (is_Some (files w !! p) -> length p = (length data_dir + 4)%nat) ∧
       (p ∈ dirs w -> (length p <= length data_dir + 3)%nat).


(** No directory is lost, and a new directory is
    [train_valid_test], below it, or above it. *)
Definition directories_kept (w w' : world) : Prop :=
  dirs w ⊆ dirs w' ∧
  ∀ p, p ∈ dirs w' -> p ∉ dirs w ->
       below (data_dir ++ ["train_valid_test"]) p
       ∨ below p (data_dir ++ ["train_valid_test"]).

Definition reorg_cifar10_data (valid_ratio : spec_float) : io unit :=
  labels ← read_csv_labels (data_dir ++ ["trainLabels.csv"]);
  _ ← reorg_train_valid labels valid_ratio;
  reorg_test.
End Reorg.
End Kaggle.

(** ** The submission file (kaggle-gluon-cifar10.ipynb) *)

Module Submission.
(** [gluon.data.DataLoader(dataset, batch_size, shuffle=False,
    last_batch='keep')]: the examples in their order, cut into batches;
    the last batch may be short and is kept. *)
Fixpoint batches {A : Type} (batch_size : nat) (batch : list A) (l : list A)
  : list (list A) :=
  match l with
  | [] => match batch with [] => [] | _ => [batch] end
  | x :: l' =>
      let batch' := batch ++ [x] in
      if (length batch' =? batch_size)%nat
      then batch' :: batches batch_size [] l'
      else batches batch_size batch' l'
  end.

Definition DataLoader {A : Type} (dataset : list A) (batch_size : nat)
  : list (list A) :=
  batches batch_size [] dataset.

(** [str(x)] for an integer *)
Definition str (x : Z) : string := pretty x.

(** [sorted_ids = list(range(1, n + 1)); sorted_ids.sort(key=str)] *)
Definition sorted_ids (n : nat) : list Z :=
  Py.sort (fun a b => String.leb (str a) (str b)) (map Z.of_nat (seq 1 n)).

(** [pd.DataFrame({'id': ids, 'label': labels})], a row per position:
    the two columns must have one length. *)
Definition DataFrame {A B : Type} (ids : list A) (labels : list B)
  : result (list (A * B)) :=
  if decide (length ids = length labels) then Ok (zip ids labels)
  else Raise ValueError.

Section Net.
(** [predict img] is the class index [net] gives the image [img], the
    arg-max of its row of scores; [synsets] are the class names of
    [train_valid_ds]. *)
Context {Img : Type}.
Variable predict : Img -> nat.
Variable synsets : list string.

(** [for X, _ in test_iter: preds.extend(net(X).argmax(axis=1))] *)
Definition predictions (test_iter : list (list Img)) : list nat :=
  fold_left (fun preds X => preds ++ map predict X) test_iter [].

(** [df['label'] = df['label'].apply(lambda x: synsets[x])] *)
Definition apply_synsets (df : list (Z * nat)) : result (list (Z * string)) :=
  Py.comprehension
    (fun row => label ← Py.getitem synsets row.2; Ok (row.1, label)) df.

(** The rows written to [submission.csv]. *)
Definition submission (test_ds : list Img) (batch_size : nat)
  : result (list (Z * string)) :=
  let test_iter := DataLoader test_ds batch_size in
  let preds := predictions test_iter in
  let sorted_ids := sorted_ids (length test_ds) in
  df ← DataFrame sorted_ids preds;
  apply_synsets df.
End Net.
End Submission.

(** ** [MLP], [NestMLP] and nested containers (model-construction.ipynb) *)

Module Layers.
(** An initialised [nn.Dense(units, ...)]: a weight with one row per
    unit, a bias with one entry per unit, and whether
    [activation='relu'] was asked for. *)
Record Dense : Type := {
  weight : matrix;
  bias : vector;
  relu_activation : bool
}.

Definition activate (self : Dense) (a : spec_float) : spec_float :=
  if relu_activation self then MLP.relu a else a.

(** A call of the layer on a batch: a row [r] gives
    activation(r . w + b) for every row [w] of the weight with its
    bias [b]; a row of another length than the rows of the weight is a
    shape error. *)
Definition Dense_call (self : Dense) (x : matrix) : result matrix :=
  if MLP.same_length (weight self) (bias self)
     && forallb (fun r => forallb (MLP.same_length r) (weight self)) x
  then Ok (map (fun r =>
                  zip_with (fun w b =>
                              activate self
                                (F32.add (Reduce.inner r w) b))
                    (weight self) (bias self)) x)
  else Raise MXNetError.

(** [class MLP]: [self.hidden] and [self.output]. *)
Record MLP : Type := { hidden : Dense; output : Dense }.

(** [return self.output(self.hidden(x))] *)
Definition MLP_forward (self : MLP) (x : matrix) : result matrix :=
  h ← Dense_call (hidden self) x;
  Dense_call (output self) h.

(** [nn.Sequential] holding [Dense] layers, the container that
    [MySequential] re-implements: the layers are called in turn. *)
Fixpoint Sequential_call (layers : list Dense) (x : matrix) : result matrix :=
  match layers with
  | [] => Ok x
  | layer :: rest => y ← Dense_call layer x; Sequential_call rest y
  end.

(** [class NestMLP]: [self.net], a [Sequential] of [Dense] layers, and
    [self.dense]. *)
Record NestMLP : Type := { net : list Dense; dense : Dense }.

(** [return self.dense(self.net(x))] *)
Definition NestMLP_forward (self : NestMLP) (x : matrix) : result matrix :=
  y ← Sequential_call (net self) x;
  Dense_call (dense self) y.

(** A layer with [units] units for inputs of [in_units] features. *)
Definition shaped (self : Dense) (units in_units : nat) : Prop :=
  length (weight self) = units ∧ length (bias self) = units ∧
  Forall (fun w => length w = in_units) (weight self).

(** Layers that fit one into the next, from [d] features to [o]
    units. *)
Fixpoint chained (layers : list Dense) (d o : nat) : Prop :=
  match layers with
  | [] => d = o
  | layer :: rest => ∃ units, shaped layer units d ∧ chained rest units o
  end.

Section Nested.
Context {X : Type}.

(** [MySequential] is a subclass of [nn.Block]: an instance is a
    block itself, and calling it runs its [forward]. *)
Definition as_block (name : string) (self : Sequential.MySequential X)
  : Sequential.Block X :=
  {| Sequential.name := name; Sequential.call := Sequential.forward self |}.
End Nested.
End Layers.

(** ** [get_similar_tokens] (read-write.ipynb) *)

Module Synonyms.
Import Embedding Similarity.

(** [line.rstrip().split(' ')], the fields of a line of [vec.txt] *)
Definition fields (line : string) : list string :=
  Py.split " " (Py.rstrip line).


End Synonyms.

(** ** The label file (kaggle-gluon-cifar10.ipynb) *)

Module Csv.
Definition LF : string := String (ascii_of_nat 10) EmptyString.

(** The text of a label file as Kaggle ships it: a header line, then a
    line [name,label] per training image. *)
Definition csv_text (header : string) (rows : list (string * string)) : string :=
  header +:+ LF +:+
  foldr (fun row text => row.1 +:+ "," +:+ row.2 +:+ LF +:+ text)
    EmptyString rows.

(** No character of [s] is [c]. *)
Fixpoint free_of (c : ascii) (s : string) : bool :=
  match s with
  | EmptyString => true
  | String c' s' => negb (Ascii.eqb c' c) && free_of c s'
  end.

(** A row that survives the trip through a line of text: no comma, no
    line feed and no carriage return in its two fields, and no white
    space at the end of the label. *)
Definition clean (row : string * string) : bool :=
  free_of "," row.1 && free_of "," row.2 &&
  free_of (ascii_of_nat 10) row.1 && free_of (ascii_of_nat 10) row.2 &&
  free_of (ascii_of_nat 13) row.1 && free_of (ascii_of_nat 13) row.2 &&
  String.eqb (Py.rstrip row.2) row.2.
End Csv.

(** ** The training loop (kaggle-gluon-cifar10.ipynb) *)

Module Training.
(** The one error of Python's own arithmetic that [train] can meet. *)
Inductive error : Type := ZeroDivisionError.

(** [trainer.learning_rate] and the running sums are Python [float]s. *)
Definition fadd : spec_float -> spec_float -> spec_float :=
  SFadd F64.prec F64.emax.
Definition fmul : spec_float -> spec_float -> spec_float :=
  SFmul F64.prec F64.emax.

(** A line printed at the end of an epoch, kept as the values that its
    format is given; the wall-clock time of the epoch is left out. *)
Record report : Type := {
  epoch : Z;
  loss : spec_float;
  train_acc : spec_float;
  valid_acc : option spec_float;
  learning_rate : spec_float
}.

(** [a / n] for a [float] and an [int] *)
Definition truediv (a : spec_float) (n : Z) : error + spec_float :=
  if n =? 0 then inl ZeroDivisionError else inr (F64.div a (F64.of_Z n)).

(** [epoch > 0 and epoch % lr_period == 0], where [and] tests its
    second operand only when the first one holds. *)
Definition decays (epoch lr_period : Z) : error + bool :=
  if 0 <? epoch then
    if lr_period =? 0 then inl ZeroDivisionError
    else inr (epoch mod lr_period =? 0)
  else inr false.

Section Train.
(** The network together with the state of its trainer, and a batch
    of the data loader.  [step lr net batch] is the framework's part
    of one pass of the inner loop at the learning rate [lr]: forward,
    loss, backward and [trainer.step(batch_size)]; it gives the
    network after the step, [float(l)], the number of correct
    predictions as a [float], and [y.size].  The framework's calls
    are taken to return. *)
Context {Model Batch : Type}.
Variable step :
  spec_float -> Model -> Batch -> Model * (spec_float * spec_float * Z).
Variable evaluate_accuracy_gpu : Model -> list Batch -> spec_float.

(** [for X, y in train_iter: ...], with the sums it adds to *)
Fixpoint batch_loop (lr : spec_float) (net : Model) (train_iter : list Batch)
    (train_l_sum train_acc_sum : spec_float) (n : Z)
  : Model * (spec_float * spec_float * Z) :=
  match train_iter with
  | [] => (net, (train_l_sum, train_acc_sum, n))
  | batch :: rest =>
      let '(net', (l, correct, size)) := step lr net batch in
      batch_loop lr net' rest
        (fadd train_l_sum l) (fadd train_acc_sum correct) (n + size)
  end.

(** What a run of [train] leaves: the network, the learning rate of
    the trainer, the lines printed, and the exception that ended the
    run, if one did. *)
Record outcome : Type := {
  final_net : Model;
  final_lr : spec_float;
  printed : list report;
  raised : option error
}.

(** The epochs [epoch], [epoch + 1], ... of
    [for epoch in range(num_epochs)], [todo] of them. *)
Fixpoint epochs (train_iter : list Batch) (valid_iter : option (list Batch))
    (lr_period : Z) (lr_decay : spec_float)
    (todo : nat) (epoch : Z) (net : Model) (lr : spec_float)
  : outcome :=
  match todo with
  | O => {| final_net := net; final_lr := lr; printed := []; raised := None |}
  | S todo' =>
      match decays epoch lr_period with
      | inl e =>
          {| final_net := net; final_lr := lr; printed := [];
             raised := Some e |}
      | inr decay =>
          let lr' := if decay then fmul lr lr_decay else lr in
          let '(net', (train_l_sum, train_acc_sum, n)) :=
            batch_loop lr' net train_iter (F64.of_Z 0) (F64.of_Z 0) 0 in
          let valid_acc :=
            match valid_iter with
            | Some valid_iter => Some (evaluate_accuracy_gpu net' valid_iter)
            | None => None
            end in
          match truediv train_l_sum n, truediv train_acc_sum n with
          | inr loss, inr acc =>
              let line :=
                {| epoch := epoch + 1; loss := loss; train_acc := acc;
                   valid_acc := valid_acc; learning_rate := lr' |} in
              let rest :=
                epochs train_iter valid_iter lr_period lr_decay
                  todo' (epoch + 1) net' lr' in
              {| final_net := final_net rest; final_lr := final_lr rest;
                 printed := line :: printed rest; raised := raised rest |}
          | inl e, _ | _, inl e =>
              {| final_net := net'; final_lr := lr'; printed := [];
                 raised := Some e |}
          end
      end
  end.

(** [train(net, train_iter, valid_iter, num_epochs, lr, wd, ctx,
    lr_period, lr_decay)]; the weight decay and the device are the
    framework's concern and sit in [step]. *)
Definition train (net : Model) (train_iter : list Batch)
    (valid_iter : option (list Batch)) (num_epochs : nat)
    (lr : spec_float) (lr_period : Z) (lr_decay : spec_float) : outcome :=
  epochs train_iter valid_iter lr_period lr_decay num_epochs 0 net lr.

(** The learning rate after [k] decays. *)
Definition decayed (lr lr_decay : spec_float) (k : nat) : spec_float :=
  Nat.iter k (fun r => fmul r lr_decay) lr.
End Train.
End Training.

(** ** Sample data *)

(** Concrete inputs on which the definitions above are run. *)
Module Examples.
Import Embedding Similarity.

Fixpoint digits (s : string) (acc : Z) : option Z :=
  match s with
  | EmptyString => Some acc
  | String c s' =>
      let n := Z.of_N (N_of_ascii c) in
      if (48 <=? n) && (n <=? 57) then digits s' (10 * acc + (n - 48)) else None
  end.

(** Python's [float] on the literals made of an optional minus sign and
    decimal digits; every other literal is refused here. *)
Definition float (s : string) : result spec_float :=
  match s with
  | EmptyString => Raise ValueError
  | String "-" (String _ _ as s') =>
      match digits s' 0 with
      | Some n => Ok (SFopp (F64.of_Z n))
      | None => Raise ValueError
      end
  | _ =>
      match digits s 0 with
      | Some n => Ok (F64.of_Z n)
      | None => Raise ValueError
      end
  end.

Definition LF : string := String (ascii_of_nat 10) EmptyString.

(** A [vec.txt] with a header row, as fastText has it, and three words. *)
Definition vec_txt : list string :=
  [ "3 2" +:+ LF; "a 3 3" +:+ LF; "b 1 1" +:+ LF; "c 1 1" +:+ LF ].

Definition embed : TokenEmbedding :=
  {| idx_to_token := ["<unk>"; "a"; "b"; "c"];
     idx_to_vec := map (map F32.of_Z) [[0; 0]; [3; 3]; [1; 1]; [1; 1]];
     unknown_idx := 0;
     token_to_idx := Py.dict_of_enumerate ["<unk>"; "a"; "b"; "c"] |}.



(** A [FixedHiddenMLP] with weights as an initialisation may draw them:
    every dense weight is 1/16, the bias is zero, every entry of
    [rand_weight] is 1/2. *)
Definition sixteenth : spec_float := S754_finite false 8388608 (-27).
Definition half : spec_float := S754_finite false 8388608 (-24).

Definition net : MLP.FixedHiddenMLP :=
  {| MLP.rand_weight := replicate 20 (replicate 20 half);
     MLP.dense_weight := replicate 20 (replicate 20 sixteenth);
     MLP.dense_bias := replicate 20 F32.zero |}.

(** The greatest binary32 number, about 3.4e38. *)
Definition huge : spec_float := SFmax_float F32.prec F32.emax.

(** A batch of one example with twenty huge features, and a batch of two
    examples with features 1 and 2. *)
Definition batch_huge : matrix := [replicate 20 huge].
Definition batch_small : matrix := [replicate 20 F32.one; replicate 20 F32.two].

(** What the statements before the loop make of [batch_small]. *)
Definition hidden_small : matrix :=
  Eval vm_compute in
    match MLP.before_loop net batch_small with Ok y => y | Raise _ => [] end.

(** Two more instances and a batch of one example of zeros.  With a
    [rand_weight] of zero the second dense call sees ones only.  In
    [net_large] every dense weight is 2^123, so that every number
    that enters the loop is 20 * 2^123, a finite number; in
    [net_last] the weights of the last unit are the greatest binary32
    number and all others zero, so that the last number that enters
    the loop is infinite and the others are zero. *)
Definition net_large : MLP.FixedHiddenMLP :=
  {| MLP.rand_weight := replicate 20 (replicate 20 F32.zero);
     MLP.dense_weight :=
       replicate 20 (replicate 20 (S754_finite false 8388608 100));
     MLP.dense_bias := replicate 20 F32.zero |}.

Definition net_last : MLP.FixedHiddenMLP :=
  {| MLP.rand_weight := replicate 20 (replicate 20 F32.zero);
     MLP.dense_weight :=
       replicate 19 (replicate 20 F32.zero) ++ [replicate 20 huge];
     MLP.dense_bias := replicate 20 F32.zero |}.

Definition batch_zero : matrix := [replicate 20 F32.zero].

(** Two blocks on integers: doubling, then adding one. *)
Definition double : Sequential.Block Z :=
  {| Sequential.name := "dense0"; Sequential.call := fun x => Ok (2 * x) |}.
Definition increment : Sequential.Block Z :=
  {| Sequential.name := "dense1"; Sequential.call := fun x => Ok (x + 1) |}.

(** Three rows for [knn] and a query along the first axis. *)
Definition rows : matrix := map (map F32.of_Z) [[1; 0]; [0; 1]; [1; 1]].
Definition query : vector := map F32.of_Z [1; 0].

(** A small dataset directory [d]. *)
Definition dataset : FS.world :=
  {| FS.files := list_to_map
       [ (["d"; "train"; "1.png"], "A");
         (["d"; "train"; "2.png"], "B");
         (["d"; "train"; "3.png"], "C");
         (["d"; "test"; "1.png"], "T");
         (["d"; "trainLabels.csv"],
          "id,label" +:+ LF +:+ "1,cat" +:+ LF +:+ "2,dog" +:+ LF
          +:+ "3,cat" +:+ LF) ];
     FS.dirs := list_to_set [ []; ["d"]; ["d"; "train"]; ["d"; "test"] ];
     FS.copied := [] |}.

Definition labels : gmap string string :=
  list_to_map [("1", "cat"); ("2", "dog"); ("3", "cat")].

(** The same directory with the label of [3.png] left out. *)
Definition labels_short : gmap string string :=
  list_to_map [("1", "cat"); ("2", "dog")].

(** A training file with two dots in its name. *)
Definition dotted : FS.world :=
  {| FS.files := {[ ["d"; "train"; "a.b.png"] := "A" ]};
     FS.dirs := list_to_set [ []; ["d"]; ["d"; "train"] ];
     FS.copied := [] |}.

Definition dotted_labels : gmap string string :=
  list_to_map [("a", "cat"); ("a.b", "dog")].


End Examples.

(** ** More sample data *)

Module Samples.
Import Embedding Similarity.

(** A block that triples, under the name of [Examples.double]. *)
Definition triple : Sequential.Block Z :=
  {| Sequential.name := "dense0"; Sequential.call := fun x => Ok (3 * x) |}.

(** Two containers to nest. *)
Definition groups : list (string * list (Sequential.Block Z)) :=
  [ ("net0", [Examples.double; Examples.increment]); ("net1", [triple]) ].

(** An [MLP] with two hidden units for three features and one output
    unit, and a batch of two examples. *)
Definition tiny : Layers.MLP :=
  {| Layers.hidden :=
       {| Layers.weight := map (map F32.of_Z) [[1; 0; 1]; [0; 1; 0]];
          Layers.bias := map F32.of_Z [0; 1];
          Layers.relu_activation := true |};
     Layers.output :=
       {| Layers.weight := map (map F32.of_Z) [[1; 1]];
          Layers.bias := map F32.of_Z [0];
          Layers.relu_activation := false |} |}.

(** A [NestMLP] of the same sizes, with a second layer of two units
    in its [net]. *)
Definition nested : Layers.NestMLP :=
  {| Layers.net :=
       [ Layers.hidden tiny;
         {| Layers.weight := map (map F32.of_Z) [[1; 1]; [1; 0]];
            Layers.bias := map F32.of_Z [0; 0];
            Layers.relu_activation := true |} ];
     Layers.dense := Layers.output tiny |}.

Definition tiny_batch : matrix := map (map F32.of_Z) [[1; 2; 3]; [4; 5; 6]].

(** A batch whose features are NaN, and what the statements before the
    loop of [FixedHiddenMLP] make of it. *)
Definition batch_nan : matrix := [replicate 20 S754_nan].

Definition hidden_nan : matrix :=
  Eval vm_compute in
    match MLP.before_loop Examples.net batch_nan with Ok y => y | Raise _ => [] end.

Definition hidden_huge : matrix :=
  Eval vm_compute in
    match MLP.before_loop Examples.net Examples.batch_huge with
    | Ok y => y
    | Raise _ => []
    end.

(** A [vec.txt] that holds a header and nothing else, and one whose
    two words have vectors of different lengths. *)
Definition header_only : list string := [ "3 2" +:+ Examples.LF ].

Definition ragged : list string :=
  [ "a 1 2" +:+ Examples.LF; "b 1 2 3" +:+ Examples.LF ].


(** The rows of the label file of [Examples.dataset]. *)
Definition label_rows : list (string * string) :=
  [ ("1", "cat"); ("2", "dog"); ("3", "cat") ].

(** A directory whose label file holds its header only. *)
Definition header_world : FS.world :=
  {| FS.files := {[ ["d"; "trainLabels.csv"] := "id,label" +:+ Examples.LF ]};
     FS.dirs := list_to_set [ []; ["d"] ];
     FS.copied := [] |}.

(** A training step that sees one example per batch and leaves the
    network, here without content, as it is; an evaluation that finds
    no correct prediction. *)
Definition idle_step (lr : spec_float) (net : unit) (batch : unit)
  : unit * (spec_float * spec_float * Z) :=
  (net, (F64.of_Z 0, F64.of_Z 0, 1)).

Definition idle_accuracy (net : unit) (valid_iter : list unit) : spec_float :=
  F64.of_Z 0.

Definition tenth : spec_float :=
  Eval vm_compute in F64.div (F64.of_Z 1) (F64.of_Z 10).
End Samples.

(** * Theorems *)

(** ** [MySequential] *)

Section SequentialFacts.
Import Sequential.
Context {X : Type}.
Implicit Types (d : list (string * Block X)) (bs : list (Block X)).

Lemma od_setitem_fresh d k v :
  k ∉ d.*1 -> od_setitem d k v = d ++ [(k, v)].
Proof.
  induction d as [|[k' v'] d IH]; simpl; intros Hk; [done|].
  apply not_elem_of_cons in Hk as [Hne Hk].
  destruct (String.eqb_spec k' k) as [->|_]; [done|].
  by rewrite IH.
Qed.

Lemma add_all_children d bs :
  NoDup (d.*1 ++ (name <$> bs)) ->
  _children (add_all {| _children := d |} bs)
  = d ++ ((fun b => (name b, b)) <$> bs).
Proof.
  revert d. induction bs as [|b bs IH]; simpl; intros d Hnd.
  - by rewrite app_nil_r.
  - unfold add_all in *. simpl. unfold add at 2. simpl.
    rewrite od_setitem_fresh.
    + rewrite IH.
      * by rewrite <- app_assoc.
      * rewrite fmap_app. simpl. by rewrite <- app_assoc.
    + apply NoDup_app in Hnd as (_ & Hdis & _).
      intros Hin. apply (Hdis _ Hin). left.
Qed.

Lemma forward_loop_chain bs (r : result X) :
  fold_left (fun r b => r ≫= call b) bs r = r ≫= forward_loop bs.
Proof.
  revert r. induction bs as [|b bs IH]; intros r; simpl.
  - by destruct r.
  - rewrite IH. by destruct r.
Qed.

(** C4. Blocks b_1 ... b_n with pairwise distinct names, added in this
    order to a fresh [MySequential], are applied by [forward] once each
    and in the order of their addition: the call returns
    b_n(...b_2(b_1(x))...), and an exception of a block ends the chain. *)
Theorem MySequential_forward_applies_in_order bs (x : X) :
  NoDup (name <$> bs) ->
  forward (add_all MySequential_init bs) x = chain bs x.
Proof.
  intros Hnd. unfold forward, chain, MySequential_init.
  rewrite add_all_children by done. simpl.
  rewrite forward_loop_chain. simpl.
  unfold od_values. rewrite <- list_fmap_compose.
  f_equal. induction bs; simpl; [done|]. f_equal.
  apply IHbs. by apply NoDup_cons in Hnd as [_ ?].
Qed.
End SequentialFacts.

(** ** Python helpers *)

Section PyFacts.
Context {A B : Type}.

Lemma comprehension_Ok (f : A -> result B) l bs :
  Py.comprehension f l = Ok bs <-> Forall2 (fun a b => f a = Ok b) l bs.
Proof.
  revert bs. induction l as [|a l IH]; intros bs; simpl.
  - split; [intros [= <-]; constructor | by inversion 1].
  - destruct (f a) as [b|e] eqn:Hfa; simpl.
    + destruct (Py.comprehension f l) as [bs'|e] eqn:Hl; simpl.
      * split.
        -- intros [= <-]. constructor; [done|]. by apply IH.
        -- inversion 1 as [|? b' ? bs'' Hb Hbs]; subst.
           apply IH in Hbs. congruence.
      * split; [done|]. inversion 1 as [|? b' ? bs'' Hb Hbs]; subst.
        by apply IH in Hbs.
    + split; [done|]. inversion 1; congruence.
Qed.

Lemma getitem_Ok (l : list A) i a : Py.getitem l i = Ok a <-> l !! i = Some a.
Proof. unfold Py.getitem. destruct (l !! i); naive_solver. Qed.
End PyFacts.

Lemma dict_of_enumerate_snoc l x :
  Py.dict_of_enumerate (l ++ [x]) = <[x := length l]> (Py.dict_of_enumerate l).
Proof.
  unfold Py.dict_of_enumerate.
  rewrite length_app, Nat.add_1_r, seq_S. simpl.
  rewrite zip_with_app by (by rewrite length_seq).
  by rewrite fold_left_app.
Qed.

(** The dictionary built from an enumeration sends a token to the index of
    its last occurrence, and knows exactly the tokens of the list. *)
Lemma dict_of_enumerate_lookup l t i :
  Py.dict_of_enumerate l !! t = Some i <->
  l !! i = Some t ∧ ∀ j, (i < j)%nat -> l !! j ≠ Some t.
Proof.
  revert i. induction l as [|x l IH] using rev_ind; intros i.
  - unfold Py.dict_of_enumerate. simpl. rewrite lookup_empty. naive_solver.
  - rewrite dict_of_enumerate_snoc. destruct (decide (x = t)) as [->|Hne].
    + rewrite lookup_insert_eq. split.
      * intros [= <-]. split; [by rewrite list_lookup_middle|].
        intros j Hj. rewrite lookup_ge_None_2; [done|].
        rewrite length_app. simpl. lia.
      * intros [Hi Hlast]. f_equal.
        destruct (decide (i < length l)%nat) as [Hlt|Hge].
        -- exfalso. apply (Hlast (length l) Hlt). by rewrite list_lookup_middle.
        -- apply lookup_lt_Some in Hi. rewrite length_app in Hi. simpl in Hi. lia.
    + rewrite lookup_insert_ne by done. rewrite IH. split.
      * intros [Hi Hlast]. split; [by apply lookup_app_l_Some|].
        intros j Hj Hjt. apply lookup_snoc_Some in Hjt as [[_ ?]|[_ ?]]; naive_solver.
      * intros [Hi Hlast]. apply lookup_snoc_Some in Hi as [[? Hi]|[_ ?]]; [|done].
        split; [done|]. intros j Hj Hjt. apply (Hlast j Hj).
        by apply lookup_app_l_Some.
  Qed.

Lemma dict_of_enumerate_is_Some l t :
  is_Some (Py.dict_of_enumerate l !! t) <-> t ∈ l.
Proof.
  induction l as [|x l IH] using rev_ind.
  - unfold Py.dict_of_enumerate. simpl. rewrite lookup_empty.
    split; [by intros [? ?]|by intros ?%elem_of_nil].
  - rewrite dict_of_enumerate_snoc, elem_of_app, list_elem_of_singleton.
    destruct (decide (x = t)) as [->|Hne].
    + rewrite lookup_insert_eq. naive_solver.
    + rewrite lookup_insert_ne by done. naive_solver.
Qed.

(** ** [TokenEmbedding] *)

Section EmbeddingFacts.
Import Embedding.
Variable float : string -> result spec_float.

Lemma load_lines_grows lines toks vecs toks' vecs' :
  load_lines float lines toks vecs = Ok (toks', vecs') ->
  ∃ ts vs, toks' = toks ++ ts ∧ vecs' = vecs ++ vs ∧ length ts = length vs.
Proof.
  revert toks vecs. induction lines as [|line rest IH]; simpl; intros toks vecs.
  - intros [= <- <-]. exists [], []. by rewrite !app_nil_r.
  - destruct (Py.comprehension float _) as [elems|e]; simpl; [|done].
    destruct (1 <? length elems)%nat; intros Hload.
    + apply IH in Hload as (ts & vs & -> & -> & Hlen).
      eexists (_ :: ts), (_ :: vs). rewrite <- !app_assoc. simpl.
      by rewrite Hlen.
    + by apply IH in Hload.
Qed.

Lemma np_array_Ok rows arr :
  Embedding.np_array rows = Ok arr ->
  arr = map (map F32.of_f64) rows ∧
  ∀ r, r ∈ rows -> length r = length (default [] (head rows)).
Proof.
  unfold np_array. destruct rows as [|r0 rows]; [by intros [= <-]; split; [|intros ? ?%elem_of_nil]|].
  destruct (forallb _ _) eqn:Hall; [|done]. intros [= <-]. split; [done|].
  intros r Hr. rewrite forallb_forall in Hall.
  apply list_elem_of_In, Hall, Nat.eqb_eq in Hr. done.
Qed.

(** What a successful construction leaves in the instance. *)
Lemma init_shape lines te :
  __init__ float lines = Ok te ->
  ∃ dim,
    length (idx_to_token te) = length (idx_to_vec te) ∧
    idx_to_token te !! 0%nat = Some "<unk>" ∧
    unknown_idx te = 0%nat ∧
    token_to_idx te = Py.dict_of_enumerate (idx_to_token te) ∧
    idx_to_vec te !! 0%nat = Some (replicate dim F32.zero) ∧
    Forall (fun row => length row = dim) (idx_to_vec te).
Proof.
  unfold __init__, _load_embedding.
  destruct (load_lines _ _ _ _) as [[toks vecs]|e] eqn:Hload;
    cbn -[np_array]; [|done].
  apply load_lines_grows in Hload as (ts & vs & -> & -> & Hlen).
  cbn -[np_array].
  destruct (Py.getitem vs 0) as [first|e] eqn:Hfirst; cbn -[np_array]; [|done].
  destruct (np_array _) as [arr|e] eqn:Harr; cbn -[np_array]; [|done].
  intros [= <-]. simpl.
  apply np_array_Ok in Harr as [-> Hrows]. simpl in *.
  exists (length first). repeat split.
  - by rewrite length_map, Hlen.
  - f_equal. unfold F32.zero. clear.
    induction (length first) as [|n IH]; simpl; by rewrite ?IH.
  - constructor.
    + by rewrite length_map, length_replicate.
    + apply Forall_forall. intros r' Hr'.
      apply list_elem_of_fmap in Hr' as (r & -> & Hr).
      rewrite length_map, Hrows, length_replicate; [done|by right].
Qed.

Lemma calls_id te ms : calls te ms = te.
Proof. induction ms as [|[tokens|] ms IH]; simpl; by rewrite ?IH. Qed.

(** C9. An instance, right after its construction and after any sequence
    of [__getitem__] and [__len__] calls, has as many tokens as rows in
    [idx_to_vec], has '<unk>' at index 0 with [unknown_idx = 0], and its
    [token_to_idx] sends every token [t] of [idx_to_token] to an index
    that holds [t], namely the index of the last occurrence of [t]. *)
Theorem TokenEmbedding_invariant lines te ms :
  __init__ float lines = Ok te ->
  let te' := calls te ms in
  length (idx_to_token te') = length (idx_to_vec te') ∧
  idx_to_token te' !! 0%nat = Some "<unk>" ∧
  unknown_idx te' = 0%nat ∧
  ∀ t, t ∈ idx_to_token te' ->
    ∃ i, token_to_idx te' !! t = Some i ∧
         idx_to_token te' !! i = Some t ∧
         ∀ j, idx_to_token te' !! j = Some t -> (j <= i)%nat.
Proof.
  intros Hinit. simpl. rewrite calls_id.
  destruct (init_shape _ _ Hinit) as (dim & Hlen & Hunk & Hidx & Hdict & _).
  repeat split; try done.
  intros t Ht. rewrite Hdict.
  apply dict_of_enumerate_is_Some in Ht as [i Hi]. exists i.
  split; [done|]. apply dict_of_enumerate_lookup in Hi as [Hi Hlast].
  split; [done|]. intros j Hj.
  destruct (decide (j <= i)%nat); [done|]. destruct (Hlast j); [lia|done].
Qed.

(** C1. On a constructed instance, [__getitem__] returns for every list
    of tokens one row per token, in the order of the tokens, all of one
    length [dim]: the row at a token's index in [token_to_idx] when the
    token is a key, and otherwise the row at index 0, which is the vector
    of [dim] zeros. *)
Theorem TokenEmbedding_getitem lines te tokens :
  __init__ float lines = Ok te ->
  ∃ vecs dim,
    __getitem__ te tokens = Ok vecs ∧
    length vecs = length tokens ∧
    Forall (fun row => length row = dim) vecs ∧
    idx_to_vec te !! 0%nat = Some (replicate dim F32.zero) ∧
    ∀ i t, tokens !! i = Some t ->
      match token_to_idx te !! t with
      | Some j => is_Some (vecs !! i) ∧ vecs !! i = idx_to_vec te !! j
      | None => vecs !! i = idx_to_vec te !! 0%nat
      end.
Proof.
  intros Hinit.
  destruct (init_shape _ _ Hinit) as (dim & Hlen & Hunk & Hidx & Hdict & Hzero & Hdim).
  assert (Hrange : ∀ t, ∃ row,
    idx_to_vec te !! default (unknown_idx te) (token_to_idx te !! t) = Some row).
  { intros t. apply lookup_lt_is_Some. rewrite <- Hlen.
    destruct (token_to_idx te !! t) as [j|] eqn:Hj; simpl.
    - rewrite Hdict in Hj. apply dict_of_enumerate_lookup in Hj as [Hj _].
      by apply lookup_lt_Some in Hj.
    - rewrite Hidx. by apply lookup_lt_Some in Hunk. }
  assert (Hall : Forall2 (fun j row => Py.getitem (idx_to_vec te) j = Ok row)
            (indices_of te tokens)
            (map (fun t => default [] (idx_to_vec te !!
               default (unknown_idx te) (token_to_idx te !! t))) tokens)).
  { unfold indices_of. apply Forall2_fmap, Forall_Forall2_diag, Forall_forall.
    intros t _. apply getitem_Ok. by destruct (Hrange t) as [row ->]. }
  eexists _, dim. split; [by apply comprehension_Ok|].
  split; [by rewrite length_map|]. split; [|split; [done|]].
  - apply Forall_forall. intros row Hrow.
    apply list_elem_of_fmap in Hrow as (t & -> & _).
    destruct (Hrange t) as [row Hrow]. rewrite Hrow. simpl.
    rewrite Forall_forall in Hdim. apply Hdim. by eapply list_elem_of_lookup_2.
  - intros i t Hi. rewrite list_lookup_fmap, Hi. simpl.
    destruct (Hrange t) as [row Hrow]. rewrite Hrow. simpl.
    destruct (token_to_idx te !! t) as [j|]; simpl in Hrow.
    + by rewrite Hrow.
    + by rewrite <- Hidx, Hrow.
Qed.
End EmbeddingFacts.

(** ** Binary32 arithmetic *)

(** Division by two and the order, worked out on the definitions of
    [SpecFloat]. *)
Lemma digits2_pos_bounds p :
  2 ^ (Zpos (digits2_pos p) - 1) <= Zpos p < 2 ^ Zpos (digits2_pos p).
Proof.
  induction p as [p IH|p IH|]; cbn [digits2_pos].
  - rewrite Pos2Z.inj_succ, Z.pow_succ_r by lia.
    replace (Z.succ (Zpos (digits2_pos p)) - 1) with (Z.succ (Zpos (digits2_pos p) - 1)) by lia.
    rewrite Z.pow_succ_r by lia. lia.
  - rewrite Pos2Z.inj_succ, Z.pow_succ_r by lia.
    replace (Z.succ (Zpos (digits2_pos p)) - 1) with (Z.succ (Zpos (digits2_pos p) - 1)) by lia.
    rewrite Z.pow_succ_r by lia. lia.
  - simpl. lia.
Qed.

Lemma div_eucl_unique a b q r :
  0 < b -> a = b * q + r -> 0 <= r < b -> IntDef.Z.div_eucl a b = (q, r).
Proof.
  intros Hb Ha Hr. pose proof (Z_div_mod a b ltac:(lia)) as H.
  change Z.div_eucl with IntDef.Z.div_eucl in H.
  destruct (IntDef.Z.div_eucl a b) as [q' r']. destruct H as [H1 H2].
  assert (q' = q) by nia. subst. f_equal. lia.
Qed.

Lemma div_core_normal m e :
  Zpos (digits2_pos m) = 24 -> -147 <= e ->
  SFdiv_core_binary F32.prec F32.emax (Zpos m) e 8388608 (-22)
  = (Zpos m~0, e - 2, loc_Exact).
Proof.
  intros Hd He. unfold SFdiv_core_binary, fexp, emin, F32.prec, F32.emax.
  cbn [Zdigits2]. rewrite Hd. change (Zpos (digits2_pos 8388608)) with 24.
  replace (Z.min _ _) with (e - 2) by lia.
  replace (e - -22 - (e - 2)) with 24 by lia.
  rewrite Z.shiftl_mul_pow2 by lia.
  rewrite (div_eucl_unique _ _ (Zpos m~0) 0) by lia.
  reflexivity.
Qed.

Lemma Zdigits2_le q k :
  0 <= k -> 0 <= q < 2 ^ k -> 0 <= Zdigits2 q <= k.
Proof.
  intros Hk [Hq0 Hq]. destruct q as [|p|p]; cbn [Zdigits2]; [lia| |lia].
  pose proof (digits2_pos_bounds p) as [Hlo _].
  split; [lia|].
  destruct (Z.le_gt_cases (Zpos (digits2_pos p)) k) as [|Hgt]; [done|].
  assert (2 ^ k <= 2 ^ (Zpos (digits2_pos p) - 1))
    by (apply Z.pow_le_mono_r; lia).
  lia.
Qed.

Lemma loc_of_record_of_loc q loc :
  loc_of_shr_record (shr_record_of_loc q loc) = loc
  ∧ shr_m (shr_record_of_loc q loc) = q.
Proof. by destruct loc as [|[]]. Qed.

(** Rounding where the exponent is already the one of the format. *)
Lemma round_aux_noshift s q e loc :
  fexp F32.prec F32.emax (Zdigits2 q + e) = e ->
  fexp F32.prec F32.emax (Zdigits2 (round_nearest_even q loc) + e) = e ->
  binary_round_aux F32.prec F32.emax s q e loc
  = match round_nearest_even q loc with
    | Z0 => S754_zero s
    | Zpos p => if e <=? F32.emax - F32.prec then S754_finite s p e
                else S754_infinity s
    | Zneg _ => S754_nan
    end.
Proof.
  intros H1 H2. unfold binary_round_aux, shr_fexp.
  rewrite H1, Z.sub_diag. cbn [shr].
  destruct (loc_of_record_of_loc q loc) as [-> ->].
  rewrite H2, Z.sub_diag. cbn [shr]. by cbn [shr_record_of_loc shr_m].
Qed.

Lemma div_core_low m e :
  Zpos (digits2_pos m) <= 24 -> -149 <= e <= -148 ->
  SFdiv_core_binary F32.prec F32.emax (Zpos m) e 8388608 (-22)
  = (Zpos m * 2 ^ (e + 171) / 8388608, -149,
     new_location 8388608 ((Zpos m * 2 ^ (e + 171)) mod 8388608)).
Proof.
  intros Hd He. unfold SFdiv_core_binary, fexp, emin, F32.prec, F32.emax.
  cbn [Zdigits2]. change (Zpos (digits2_pos 8388608)) with 24.
  replace (Z.min _ _) with (-149) by lia.
  replace (e - -22 - -149) with (e + 171) by lia.
  destruct (e + 171) as [|p|p] eqn:Hs; [lia| |lia].
  rewrite Z.shiftl_mul_pow2 by lia.
  rewrite (div_eucl_unique _ _ (Zpos m * 2 ^ Zpos p / 8388608)
             ((Zpos m * 2 ^ Zpos p) mod 8388608)); [done|lia| |].
  - apply Z.div_mod. lia.
  - apply Z.mod_pos_bound. lia.
Qed.

Lemma halve_normal s m e :
  bounded F32.prec F32.emax m e = true -> -149 < e ->
  F32.div (S754_finite s m e) F32.two = S754_finite s m (e - 1).
Proof.
  unfold bounded, canonical_mantissa.
  intros [Hcan He]%andb_true_iff Hlo.
  apply Z.eqb_eq in Hcan. apply Z.leb_le in He.
  unfold fexp, emin, F32.prec, F32.emax in Hcan, He.
  assert (Hd : Zpos (digits2_pos m) = 24) by lia.
  unfold F32.div, SFdiv, F32.two. rewrite xorb_false_r.
  destruct (Z.le_gt_cases (-147) e) as [Hn|Hn].
  - rewrite div_core_normal by done.
    unfold binary_round_aux, shr_fexp, fexp, emin, F32.prec, F32.emax.
    cbn [Zdigits2 digits2_pos]. rewrite Pos2Z.inj_succ, Hd.
    replace (Z.max _ _ - (e - 2)) with 1 by lia.
    cbn [shr SpecFloat.iter_pos shr_record_of_loc shr_1 orb shr_m loc_of_shr_record
         round_nearest_even Zdigits2].
    rewrite Hd. replace (Z.max _ _ - (e - 2 + 1)) with 0 by lia.
    cbn [shr shr_m shr_record_of_loc].
    replace (e - 2 + 1) with (e - 1) by lia.
    by replace (e - 1 <=? 128 - 24) with true by (symmetry; apply Z.leb_le; lia).
  - assert (e = -148) as -> by lia.
    rewrite div_core_low by lia.
    replace (Zpos m * 2 ^ (-148 + 171)) with (Zpos m * 8388608) by lia.
    rewrite Z.div_mul, Z.mod_mul by lia.
    change (new_location 8388608 0) with loc_Exact.
    rewrite round_aux_noshift;
      cbn [round_nearest_even Zdigits2]; rewrite ?Hd; done.
Qed.


Lemma half_even_bounds v : 0 < v -> 0 <= F32.half_even v < v.
Proof.
  intros Hv. unfold F32.half_even.
  pose proof (Z.div_mod v 2 ltac:(lia)) as Hdm.
  pose proof (Z.mod_pos_bound v 2 ltac:(lia)) as Hm.
  destruct (Z.even v) eqn:Hev; cbn [round_nearest_even].
  - rewrite Zeven_mod in Hev. apply Z.eqb_eq in Hev. lia.
  - assert (v mod 2 = 1).
    { rewrite Zeven_mod in Hev. apply Z.eqb_neq in Hev. lia. }
    destruct (Z.even (v / 2)) eqn:Hq; [lia|].
    assert (v / 2 ≠ 0) by (intros Hz; by rewrite Hz in Hq). lia.
Qed.

Lemma halve_low s m :
  bounded F32.prec F32.emax m (-149) = true ->
  F32.div (S754_finite s m (-149)) F32.two
  = match F32.half_even (Zpos m) with
    | Zpos p => S754_finite s p (-149)
    | _ => S754_zero s
    end.
Proof.
  unfold bounded, canonical_mantissa.
  intros [Hcan _]%andb_true_iff. apply Z.eqb_eq in Hcan.
  unfold fexp, emin, F32.prec, F32.emax in Hcan.
  assert (Hd : Zpos (digits2_pos m) <= 24) by lia.
  assert (Hm : Zpos m < 2 ^ 24).
  { pose proof (digits2_pos_bounds m) as [_ Hhi].
    assert (2 ^ Zpos (digits2_pos m) <= 2 ^ 24) by (apply Z.pow_le_mono_r; lia).
    lia. }
  unfold F32.div, SFdiv, F32.two. rewrite xorb_false_r.
  rewrite div_core_low by lia.
  replace (Zpos m * 2 ^ (-149 + 171)) with (Zpos m * 4194304) by lia.
  change 8388608 with (2 * 4194304).
  rewrite Z.div_mul_cancel_r, Z.mul_mod_distr_r by lia.
  pose proof (half_even_bounds (Zpos m) ltac:(lia)) as Hhe.
  assert (Hloc : new_location (2 * 4194304) (Zpos m mod 2 * 4194304)
                 = if Z.even (Zpos m) then loc_Exact else loc_Inexact Eq).
  { rewrite Zeven_mod.
    pose proof (Z.mod_pos_bound (Zpos m) 2 ltac:(lia)) as Hr.
    assert (Zpos m mod 2 = 0 ∨ Zpos m mod 2 = 1) as [->| ->] by lia; done. }
  rewrite Hloc. fold (F32.half_even (Zpos m)) in *.
  pose proof (Z.div_pos (Zpos m) 2 ltac:(lia) ltac:(lia)).
  assert (Zpos m / 2 < 2 ^ 24)
    by (apply Z.div_lt_upper_bound; lia).
  rewrite round_aux_noshift; fold (F32.half_even (Zpos m)).
  - destruct (F32.half_even (Zpos m)) as [|p|p]; [done|done|lia].
  - pose proof (Zdigits2_le (Zpos m / 2) 24 ltac:(lia) ltac:(lia)).
    unfold fexp, emin, F32.prec, F32.emax. lia.
  - pose proof (Zdigits2_le (F32.half_even (Zpos m)) 24 ltac:(lia) ltac:(lia)).
    unfold fexp, emin, F32.prec, F32.emax. lia.
Qed.




Lemma iter_pos_invariant {A : Type} (P : A -> Prop) (f : A -> A) n x :
  (∀ y, P y -> P (f y)) -> P x -> P (SpecFloat.iter_pos f n x).
Proof.
  intros Hf. revert x. induction n as [n IH|n IH|]; intros x Hx; cbn; auto.
Qed.

Lemma shr_1_nonneg mrs : 0 <= shr_m mrs -> 0 <= shr_m (shr_1 mrs).
Proof. destruct mrs as [[|[p|p|]|p] r s]; cbn; lia. Qed.

Lemma shr_nonneg mrs e n : 0 <= shr_m mrs -> 0 <= shr_m (shr mrs e n).1.
Proof.
  intros Hm. destruct n as [|p|p]; cbn [shr fst]; [done| |done].
  by apply iter_pos_invariant; [apply shr_1_nonneg|].
Qed.

Lemma round_nearest_even_nonneg q loc : 0 <= q -> 0 <= round_nearest_even q loc.
Proof.
  intros Hq. destruct loc as [|[]]; cbn [round_nearest_even]; try lia.
  destruct (Z.even q); lia.
Qed.

(** Rounding a magnitude gives a number of the wanted sign, never NaN. *)
Lemma round_aux_sign s q e loc :
  0 <= q ->
  match binary_round_aux F32.prec F32.emax s q e loc with
  | S754_zero s' | S754_infinity s' | S754_finite s' _ _ => s' = s
  | S754_nan => False
  end.
Proof.
  intros Hq. unfold binary_round_aux, shr_fexp.
  destruct (shr (shr_record_of_loc q loc) e _) as [mrs' e'] eqn:H1.
  assert (Hm' : 0 <= shr_m mrs').
  { change mrs' with (mrs', e').1. rewrite <- H1. apply shr_nonneg.
    by destruct (loc_of_record_of_loc q loc) as [_ ->]. }
  destruct (shr (shr_record_of_loc _ loc_Exact) e' _) as [mrs'' e''] eqn:H2.
  assert (Hm'' : 0 <= shr_m mrs'').
  { change mrs'' with (mrs'', e'').1. rewrite <- H2. apply shr_nonneg.
    cbn [shr_record_of_loc shr_m]. by apply round_nearest_even_nonneg. }
  destruct (shr_m mrs'') as [|p|p]; [done| |lia].
  by destruct (_ <=? _).
Qed.

(** Halving a finite number that is not negative gives such a number
    again, of a smaller magnitude unless the number is zero. *)
Lemma halve_finite_number a :
  F32.finite_number a = true -> F32.nonneg a = true ->
  F32.finite_number (F32.div a F32.two) = true ∧
  F32.nonneg (F32.div a F32.two) = true ∧
  0 <= F32.rank (F32.div a F32.two) <= F32.rank a ∧
  (0 < F32.rank a -> F32.rank (F32.div a F32.two) < F32.rank a).
Proof.
  destruct a as [[]|[]| |[] m e]; try done.
  unfold F32.finite_number. cbn [F32.is_finite valid_binary andb].
  intros Hb _.
  assert (Hb' := Hb). unfold bounded, canonical_mantissa in Hb'.
  apply andb_true_iff in Hb' as [Hcan He].
  apply Z.eqb_eq in Hcan. apply Z.leb_le in He.
  unfold fexp, emin, F32.prec, F32.emax in Hcan, He.
  destruct (Z.eq_dec e (-149)) as [->|Hne].
  - rewrite halve_low by done.
    pose proof (half_even_bounds (Zpos m) ltac:(lia)) as Hhe.
    destruct (F32.half_even (Zpos m)) as [|p|p] eqn:Hp;
      cbn [F32.is_finite valid_binary andb F32.nonneg F32.rank].
    + repeat split; try done; lia.
    + split; [|split; [done|lia]].
      unfold bounded, canonical_mantissa, fexp, emin, F32.prec, F32.emax.
      apply andb_true_iff. split; [|by apply Z.leb_le].
      apply Z.eqb_eq.
      assert (Zpos m < 2 ^ 24).
      { pose proof (digits2_pos_bounds m) as [_ Hhi].
        assert (2 ^ Zpos (digits2_pos m) <= 2 ^ 24)
          by (apply Z.pow_le_mono_r; lia). lia. }
      pose proof (Zdigits2_le (Zpos p) 24 ltac:(lia) ltac:(lia)) as Hdp.
      cbn [Zdigits2] in Hdp. lia.
    + lia.
  - rewrite halve_normal by (done || lia).
    cbn [F32.is_finite valid_binary andb F32.nonneg F32.rank].
    assert (Hpow : 2 ^ (e + 149) = 2 * 2 ^ (e - 1 + 149)).
    { replace (e + 149) with (Z.succ (e - 1 + 149)) by lia.
      rewrite Z.pow_succ_r by lia. done. }
    assert (0 < 2 ^ (e - 1 + 149)) by (apply Z.pow_pos_nonneg; lia).
    split; [|split; [done|rewrite Hpow; nia]].
    unfold bounded, canonical_mantissa, fexp, emin, F32.prec, F32.emax.
    apply andb_true_iff. split; [apply Z.eqb_eq|apply Z.leb_le]; lia.
Qed.

(** A number that is not above another is below it or equal to it,
    when neither is NaN. *)
Lemma leb_of_not_gtb a b :
  F32.is_nan a = false -> F32.is_nan b = false ->
  F32.gtb a b = false -> SFleb a b = true.
Proof.
  unfold F32.gtb, SFltb, SFleb.
  destruct a as [[]|[]| |[] ma ea], b as [[]|[]| |[] mb eb]; simpl;
    intros Ha Hb; try discriminate; auto;
    rewrite ?Pos.compare_cont_spec; simpl;
    destruct (Z.compare_spec eb ea), (Z.compare_spec ea eb); simpl;
      auto; try lia;
    destruct (Pos.compare_spec mb ma), (Pos.compare_spec ma mb); simpl;
      auto; lia.
Qed.

(** ** Rounding of sums in binary32 *)

(** [SFadd] and [SFsub] round the exact result to a neighbour in the
    format.  Values are counted in units of 2^-149, so that they are
    integers: the result of an addition lies between any two numbers of
    the format that enclose the exact sum, and it is the exact sum when
    that is a number of the format.  This is what the compensated sum of
    the framework needs to stay out of the negative numbers. *)
Section Rounding.
Abbreviation fin a := (F32.finite_number a = true).

(** The state of a mantissa [z] after [k] shifts to the right: what is
    left of it, the bit shifted out last and whether a bit shifted out
    before was set. *)
Let shifted (z k : Z) (mrs : shr_record) : Prop :=
  0 <= shr_m mrs ∧
  ∃ rem, z = shr_m mrs * 2 ^ k + rem ∧ 0 <= rem < 2 ^ k ∧
         (shr_r mrs = true <-> 2 ^ k <= 2 * rem) ∧
         (shr_s mrs = true <-> rem ≠ 0 ∧ 2 * rem ≠ 2 ^ k).

Lemma shr_1_shifted z k mrs :
  0 <= k -> shifted z k mrs -> shifted z (k + 1) (shr_1 mrs).
Proof.
  intros Hk (Hm & rem & Hz & Hrem & Hr & Hs).
  unfold shifted. rewrite Z.pow_add_r, Z.pow_1_r by lia.
  set (P := 2 ^ k) in *.
  destruct mrs as [m r s]. cbn [shr_m shr_r shr_s] in *.
  destruct m as [|[p|p|]|p]; cbn [shr_1 shr_m shr_r shr_s]; try lia.
  - split; [lia|]. exists rem.
    destruct r, s; cbn [orb]; intuition lia.
  - split; [lia|]. exists (P + rem).
    destruct r, s; cbn [orb]; intuition lia.
  - split; [lia|]. exists rem.
    destruct r, s; cbn [orb]; intuition lia.
  - split; [lia|]. exists (P + rem).
    destruct r, s; cbn [orb]; intuition lia.
Qed.

Lemma iter_shifted z n k mrs :
  0 <= k -> shifted z k mrs ->
  shifted z (k + Zpos n) (SpecFloat.iter_pos shr_1 n mrs).
Proof.
  revert k mrs.
  induction n as [n IH|n IH|]; intros k mrs Hk H; cbn [SpecFloat.iter_pos].
  - replace (k + Zpos n~1) with ((k + 1 + Zpos n) + Zpos n) by lia.
    apply IH; [lia|]. apply IH; [lia|]. by apply shr_1_shifted.
  - replace (k + Zpos n~0) with ((k + Zpos n) + Zpos n) by lia.
    apply IH; [lia|]. by apply IH.
  - by apply shr_1_shifted.
Qed.

Lemma round_shifted z k mrs :
  shifted z k mrs ->
  shr_m mrs <= round_nearest_even (shr_m mrs) (loc_of_shr_record mrs)
            <= shr_m mrs + 1
  ∧ (z = shr_m mrs * 2 ^ k ->
     round_nearest_even (shr_m mrs) (loc_of_shr_record mrs) = shr_m mrs).
Proof.
  intros (Hm & rem & Hz & Hrem & Hr & Hs).
  destruct mrs as [m r s]. cbn [shr_m shr_r shr_s] in *.
  destruct r, s; cbn [loc_of_shr_record round_nearest_even];
    try destruct (Z.even m); intuition lia.
Qed.

(** A positive [z] between two neighbours [Q * 2^K] and [(Q + 1) * 2^K]
    of the format, and the mantissa [q'] it is rounded to. *)
Let grid (z K Q q' : Z) : Prop :=
  0 <= K ∧ Q * 2 ^ K <= z < (Q + 1) * 2 ^ K ∧ Q <= q' <= Q + 1 ∧
  (z = Q * 2 ^ K -> q' = Q) ∧
  ((K = 0 ∧ 0 < z < 2 ^ 24) ∨ (0 < K ∧ 2 ^ 23 <= Q < 2 ^ 24)).

(** The result of rounding to the value [v]: a number of the format, or
    infinity when [v] is too large. *)
Let outcome (f : spec_float) (s : bool) (v : Z) : Prop :=
  (∃ m' e', f = S754_finite s m' e' ∧ bounded F32.prec F32.emax m' e' = true
            ∧ Zpos m' * 2 ^ (e' + 149) = v)
  ∨ (f = S754_infinity s ∧ 2 ^ 277 <= v).

Lemma Zdigits2_eq q k :
  0 < q -> 2 ^ (k - 1) <= q < 2 ^ k -> Zdigits2 q = k.
Proof.
  intros Hq [Hlo Hhi]. destruct q as [|p|p]; [lia| |lia]. cbn [Zdigits2].
  pose proof (digits2_pos_bounds p) as [Hlo' Hhi'].
  set (d := Zpos (digits2_pos p)) in *.
  assert (Hk : 0 < k).
  { destruct (Z.lt_ge_cases 0 k); [done|].
    destruct (Z.eq_dec k 0) as [->|]; [simpl in Hhi; lia|].
    rewrite (Z.pow_neg_r 2 k) in Hhi by lia. lia. }
  destruct (Z.lt_trichotomy d k) as [Hlt|[Heq|Hgt]]; [|done|].
  - assert (2 ^ d <= 2 ^ (k - 1)) by (apply Z.pow_le_mono_r; lia). lia.
  - assert (2 ^ k <= 2 ^ (d - 1)) by (apply Z.pow_le_mono_r; lia). lia.
Qed.

Lemma first_shift m e n :
  0 <= n ->
  ∃ mrs, shr (shr_record_of_loc (Zpos m) loc_Exact) e n = (mrs, e + n)
         ∧ shifted (Zpos m) n mrs.
Proof.
  intros Hn. destruct n as [|p|p]; [| |lia]; cbn [shr shr_record_of_loc].
  - eexists. split; [by rewrite Z.add_0_r|].
    split; [cbn; lia|]. exists 0. cbn. intuition lia.
  - eexists. split; [done|].
    change (Zpos p) with (0 + Zpos p). apply iter_shifted; [lia|].
    split; [cbn; lia|]. exists 0. cbn. intuition lia.
Qed.

Lemma round_aux_grid s m e :
  -149 <= e ->
  e <= fexp F32.prec F32.emax (Zpos (digits2_pos m) + e) ->
  ∃ K Q q',
    grid (Zpos m * 2 ^ (e + 149)) K Q q' ∧
    outcome (binary_round_aux F32.prec F32.emax s (Zpos m) e loc_Exact) s
      (q' * 2 ^ K).
Proof.
  intros He Hfexp.
  pose proof (digits2_pos_bounds m) as [Hlo Hhi].
  unfold binary_round_aux, shr_fexp. cbn [Zdigits2].
  set (d := Zpos (digits2_pos m)) in *.
  set (e1 := fexp F32.prec F32.emax (d + e)) in *.
  assert (He1 : e1 = Z.max (d + e - 24) (-149)) by done.
  destruct (first_shift m e (e1 - e) ltac:(lia)) as (mrs & -> & Hsh).
  replace (e + (e1 - e)) with e1 by lia.
  destruct (round_shifted _ _ _ Hsh) as [Hq' Hexact].
  destruct Hsh as (HQ & rem & Hm & Hrem & _).
  set (Q := shr_m mrs) in *.
  set (q' := round_nearest_even Q (loc_of_shr_record mrs)) in *.
  set (n := e1 - e) in *.
  assert (Hpn : 0 < 2 ^ n) by (apply Z.pow_pos_nonneg; lia).
  assert (Hpe : 0 < 2 ^ (e + 149)) by (apply Z.pow_pos_nonneg; lia).
  assert (HK : 2 ^ (e1 + 149) = 2 ^ n * 2 ^ (e + 149)).
  { rewrite <- Z.pow_add_r by lia. f_equal. lia. }
  assert (Hcase : (e1 + 149 = 0 ∧ 0 < Zpos m * 2 ^ (e + 149) < 2 ^ 24 ∧ n = 0)
                  ∨ (0 < e1 + 149 ∧ 2 ^ 23 <= Q < 2 ^ 24)).
  { destruct (Z.eq_dec e1 (-149)) as [Heq|Hne].
    - left. assert (e = -149) by lia. subst e.
      assert (n = 0) by lia. split; [lia|]. split; [|done].
      change (2 ^ (-149 + 149)) with 1. rewrite Z.mul_1_r.
      assert (d <= 24) by lia.
      assert (2 ^ d <= 2 ^ 24) by (apply Z.pow_le_mono_r; lia). lia.
    - right. split; [lia|].
      assert (Hd : d = 24 + n) by lia.
      assert (Hp1 : 2 ^ d = 2 ^ 24 * 2 ^ n)
        by (rewrite Hd, Z.pow_add_r by lia; done).
      assert (Hp2 : 2 ^ (d - 1) = 2 ^ 23 * 2 ^ n).
      { replace (d - 1) with (23 + n) by lia. by rewrite Z.pow_add_r by lia. }
      nia. }
  exists (e1 + 149), Q, q'. split.
  - split; [lia|]. rewrite HK. split; [nia|]. split; [done|]. split.
    + intros Hz. apply Hexact. nia.
    + destruct Hcase as [(? & ? & ?)|?]; [left|right]; done.
  - destruct Hcase as [(HK0 & Hz & Hn0)|[HKpos HQb]].
    + assert (e = -149) by lia. subst e.
      assert (HqQ : q' = Q).
      { apply Hexact. rewrite Hn0 in *. simpl in *. lia. }
      assert (HQm : Q = Zpos m) by (rewrite Hn0 in *; simpl in *; lia).
      rewrite HqQ, HQm. cbn [Zdigits2]. fold d.
      replace (fexp F32.prec F32.emax (d + e1) - e1) with 0
        by (unfold fexp, emin, F32.prec, F32.emax; lia).
      cbn [shr shr_record_of_loc shr_m].
      replace (e1 <=? F32.emax - F32.prec) with true
        by (symmetry; apply Z.leb_le; unfold F32.emax, F32.prec; lia).
      left. exists m, e1. split; [done|]. split; [|done].
      unfold bounded, canonical_mantissa. fold d.
      apply andb_true_iff. split; [apply Z.eqb_eq|apply Z.leb_le];
        unfold fexp, emin, F32.prec, F32.emax; lia.
    + destruct (Z.eq_dec q' (2 ^ 24)) as [Hcarry|Hnocarry].
      * rewrite Hcarry. change (Zdigits2 (2 ^ 24)) with 25.
        replace (fexp F32.prec F32.emax (25 + e1) - e1) with 1
          by (unfold fexp, emin, F32.prec, F32.emax; lia).
        cbn [shr shr_record_of_loc shr_m SpecFloat.iter_pos].
        change (shr_1 _) with (Build_shr_record 8388608 false false).
        cbn [shr_m].
        destruct (Z.leb_spec (e1 + 1) (F32.emax - F32.prec)) as [Hfit|Hover].
        -- left. exists 8388608%positive, (e1 + 1). split; [done|]. split.
           ++ unfold bounded, canonical_mantissa.
              apply andb_true_iff. split; [apply Z.eqb_eq|apply Z.leb_le];
                [|done].
              change (Zpos (digits2_pos 8388608)) with 24.
              unfold fexp, emin, F32.prec, F32.emax. lia.
           ++ replace (e1 + 1 + 149) with (1 + (e1 + 149)) by lia.
              rewrite Z.pow_add_r by lia. simpl (2 ^ 1). lia.
        -- right. split; [done|].
           unfold F32.emax, F32.prec in Hover.
           assert (2 ^ 253 <= 2 ^ (e1 + 149)) by (apply Z.pow_le_mono_r; lia).
           change (2 ^ 277) with (2 ^ 24 * 2 ^ 253). nia.
      * assert (Hq'b : 2 ^ 23 <= q' < 2 ^ 24) by lia.
        rewrite (Zdigits2_eq q' 24) by (simpl; lia).
        replace (fexp F32.prec F32.emax (24 + e1) - e1) with 0
          by (unfold fexp, emin, F32.prec, F32.emax; lia).
        cbn [shr shr_record_of_loc shr_m].
        destruct q' as [|p|p] eqn:Hp; [lia| |lia].
        destruct (Z.leb_spec e1 (F32.emax - F32.prec)) as [Hfit|Hover].
        -- left. exists p, e1. split; [done|]. split; [|done].
           unfold bounded, canonical_mantissa.
           apply andb_true_iff. split; [apply Z.eqb_eq|by apply Z.leb_le].
           change (Zpos (digits2_pos p)) with (Zdigits2 (Zpos p)).
           rewrite (Zdigits2_eq (Zpos p) 24) by (simpl; lia).
           unfold fexp, emin, F32.prec, F32.emax. lia.
        -- right. split; [done|].
           unfold F32.emax, F32.prec in Hover.
           assert (2 ^ 254 <= 2 ^ (e1 + 149)) by (apply Z.pow_le_mono_r; lia).
           change (2 ^ 277) with (2 ^ 23 * 2 ^ 254). nia.
Qed.

Lemma iter_xO_val m d : Zpos (Pos.iter xO m d) = Zpos m * 2 ^ Zpos d.
Proof.
  induction d as [|d IH] using Pos.peano_ind.
  - cbn [Pos.iter]. lia.
  - rewrite Pos.iter_succ, Pos2Z.inj_succ, Z.pow_succ_r by lia.
    rewrite Pos2Z.inj_xO, IH. lia.
Qed.

Lemma iter_xO_digits m d :
  Zpos (digits2_pos (Pos.iter xO m d)) = Zpos (digits2_pos m) + Zpos d.
Proof.
  induction d as [|d IH] using Pos.peano_ind.
  - cbn [Pos.iter digits2_pos]. lia.
  - rewrite Pos.iter_succ. cbn [digits2_pos]. lia.
Qed.

Lemma binary_round_grid s m e :
  -149 <= e ->
  ∃ K Q q',
    grid (Zpos m * 2 ^ (e + 149)) K Q q' ∧
    outcome (binary_round F32.prec F32.emax s m e) s (q' * 2 ^ K).
Proof.
  intros He. unfold binary_round, shl_align.
  set (d := Zpos (digits2_pos m)).
  set (e1 := fexp F32.prec F32.emax (d + e)).
  assert (He1 : e1 = Z.max (d + e - 24) (-149)) by done.
  destruct (e1 - e) as [|p|p] eqn:Hsub.
  - apply round_aux_grid; [done|]. fold d e1. lia.
  - apply round_aux_grid; [done|]. fold d e1. lia.
  - assert (Hval : Zpos (Pos.iter xO m p) * 2 ^ (e1 + 149)
                   = Zpos m * 2 ^ (e + 149)).
    { rewrite iter_xO_val, <- Z.mul_assoc, <- Z.pow_add_r by lia.
      do 2 f_equal. lia. }
    rewrite <- Hval. apply round_aux_grid; [lia|].
    rewrite iter_xO_digits. fold d.
    replace (d + Zpos p + e1) with (d + e) by lia. fold e1. lia.
Qed.

Lemma grid_upper z K Q q' g :
  grid z K Q q' -> F32.representable g -> z <= g -> q' * 2 ^ K <= g.
Proof.
  intros (HK & Hz & Hq' & Hexact & Hcase) (mg & kg & -> & Hmg & Hkg) Hle.
  destruct Hcase as [[-> Hz0]|[HKpos HQ]].
  - simpl in *. rewrite Hexact by lia. lia.
  - set (P := 2 ^ K) in *.
    assert (HP : 0 < P) by (apply Z.pow_pos_nonneg; lia).
    assert (Hpg : 0 < 2 ^ kg) by (apply Z.pow_pos_nonneg; lia).
    destruct (Z.lt_ge_cases kg K) as [Hlt|Hge].
    + assert (2 * 2 ^ kg <= P).
      { unfold P. replace K with (1 + (K - 1)) by lia.
        rewrite Z.pow_add_r by lia. simpl (2 ^ 1).
        assert (2 ^ kg <= 2 ^ (K - 1)) by (apply Z.pow_le_mono_r; lia). lia. }
      nia.
    + assert (Hsplit : 2 ^ kg = 2 ^ (kg - K) * P).
      { unfold P. rewrite <- Z.pow_add_r by lia. f_equal. lia. }
      rewrite Hsplit in *. set (G := mg * 2 ^ (kg - K)).
      assert (HG : mg * (2 ^ (kg - K) * P) = G * P) by (unfold G; lia).
      rewrite HG in *.
      destruct (Z.eq_dec z (Q * P)) as [Heq|Hne].
      * rewrite Hexact by done. lia.
      * assert (Q < G) by nia. nia.
Qed.

Lemma grid_lower z K Q q' g :
  grid z K Q q' -> F32.representable g -> 0 <= g <= z -> g <= q' * 2 ^ K.
Proof.
  intros (HK & Hz & Hq' & Hexact & Hcase) (mg & kg & -> & Hmg & Hkg) Hle.
  destruct Hcase as [[-> Hz0]|[HKpos HQ]].
  - simpl in *. lia.
  - set (P := 2 ^ K) in *.
    assert (HP : 0 < P) by (apply Z.pow_pos_nonneg; lia).
    assert (Hpg : 0 < 2 ^ kg) by (apply Z.pow_pos_nonneg; lia).
    destruct (Z.lt_ge_cases kg K) as [Hlt|Hge].
    + assert (2 * 2 ^ kg <= P).
      { unfold P. replace K with (1 + (K - 1)) by lia.
        rewrite Z.pow_add_r by lia. simpl (2 ^ 1).
        assert (2 ^ kg <= 2 ^ (K - 1)) by (apply Z.pow_le_mono_r; lia). lia. }
      assert (mg * 2 ^ kg < 2 ^ 24 * 2 ^ kg) by nia.
      nia.
    + assert (Hsplit : 2 ^ kg = 2 ^ (kg - K) * P).
      { unfold P. rewrite <- Z.pow_add_r by lia. f_equal. lia. }
      rewrite Hsplit in *. set (G := mg * 2 ^ (kg - K)).
      assert (HG : mg * (2 ^ (kg - K) * P) = G * P) by (unfold G; lia).
      rewrite HG in *.
      assert (G <= Q) by nia. nia.
Qed.

Lemma representable_0 : F32.representable 0.
Proof. exists 0, 0. simpl. lia. Qed.

Lemma representable_opp g : F32.representable g -> F32.representable (- g).
Proof.
  intros (m & k & -> & Hm & Hk). exists (- m), k.
  split; [lia|]. split; [lia|done].
Qed.

Lemma representable_bound g : F32.representable g -> - 2 ^ 277 < g < 2 ^ 277.
Proof.
  intros (m & k & -> & Hm & Hk).
  assert (0 < 2 ^ k) by (apply Z.pow_pos_nonneg; lia).
  assert (2 ^ k <= 2 ^ 253) by (apply Z.pow_le_mono_r; lia).
  change (2 ^ 277) with (2 ^ 24 * 2 ^ 253). nia.
Qed.

Lemma binary_round_spec s m e :
  -149 <= e ->
  ∃ v, outcome (binary_round F32.prec F32.emax s m e) s v ∧ 0 <= v ∧
       (∀ g, F32.representable g -> Zpos m * 2 ^ (e + 149) <= g -> v <= g) ∧
       (∀ g, F32.representable g -> 0 <= g <= Zpos m * 2 ^ (e + 149) -> g <= v).
Proof.
  intros He. destruct (binary_round_grid s m e He) as (K & Q & q' & Hgrid & Hout).
  exists (q' * 2 ^ K). split; [done|].
  assert (Hz : 0 <= Zpos m * 2 ^ (e + 149)).
  { assert (0 < 2 ^ (e + 149)) by (apply Z.pow_pos_nonneg; lia). lia. }
  split; [|split].
  - apply (grid_lower _ _ _ _ 0 Hgrid representable_0). lia.
  - intros g Hg Hle. by apply (grid_upper _ _ _ _ g Hgrid).
  - intros g Hg Hle. by apply (grid_lower _ _ _ _ g Hgrid).
Qed.

Lemma fin_finite s m e :
  fin (S754_finite s m e) -> -149 <= e <= 104 ∧ Zpos m < 2 ^ 24.
Proof.
  unfold F32.finite_number, valid_binary, bounded, canonical_mantissa.
  cbn [F32.is_finite andb].
  intros [Hcan He]%andb_true_iff. apply Z.eqb_eq in Hcan. apply Z.leb_le in He.
  unfold fexp, emin, F32.prec, F32.emax in *.
  pose proof (digits2_pos_bounds m) as [_ Hhi].
  set (d := Zpos (digits2_pos m)) in *.
  assert (2 ^ d <= 2 ^ 24) by (apply Z.pow_le_mono_r; lia). lia.
Qed.

Lemma fin_representable a : fin a -> F32.representable (F32.val a).
Proof.
  destruct a as [s|s| |s m e]; try (intros _; apply representable_0).
  intros [He Hm]%fin_finite. cbn [F32.val].
  exists (cond_Zopp s (Zpos m)), (e + 149).
  split; [by destruct s; cbn [cond_Zopp]; lia|].
  split; [destruct s; cbn [cond_Zopp]; lia|lia].
Qed.

Lemma shl_align_val m e ez :
  ez <= e ->
  Zpos (shl_align m e ez).1 * 2 ^ (ez + 149) = Zpos m * 2 ^ (e + 149)
  ∨ ez + 149 < 0.
Proof.
  intros Hle. destruct (Z.lt_ge_cases (ez + 149) 0); [by right|left].
  unfold shl_align. destruct (ez - e) as [|p|p] eqn:Hsub; cbn [fst].
  - do 2 f_equal. lia.
  - lia.
  - rewrite iter_xO_val, <- Z.mul_assoc, <- Z.pow_add_r by lia.
    do 2 f_equal. lia.
Qed.

Lemma add_spec a b :
  fin a -> fin b ->
  ∃ v, ((fin (F32.add a b) ∧ F32.val (F32.add a b) = v)
        ∨ (F32.add a b = S754_infinity false ∧ 2 ^ 277 <= v)
        ∨ (F32.add a b = S754_infinity true ∧ v <= - 2 ^ 277))
       ∧ (∀ g, F32.representable g -> F32.val a + F32.val b <= g -> v <= g)
       ∧ (∀ g, F32.representable g -> g <= F32.val a + F32.val b -> g <= v).
Proof.
  intros Ha Hb.
  destruct a as [sa|sa| |sa ma ea]; try done;
    destruct b as [sb|sb| |sb mb eb]; try done.
  - exists 0. split; [left; by destruct sa, sb|]. cbn [F32.val]. split; intros; lia.
  - exists (F32.val (S754_finite sb mb eb)). split; [by left|].
    cbn [F32.val]. split; intros; lia.
  - exists (F32.val (S754_finite sa ma ea)). split; [by left|].
    cbn [F32.val]. split; intros; lia.
  - destruct (fin_finite _ _ _ Ha) as [Hea Hma].
    destruct (fin_finite _ _ _ Hb) as [Heb Hmb].
    unfold F32.add, SFadd. set (ez := Z.min ea eb).
    destruct (shl_align_val ma ea ez ltac:(lia)) as [HX|]; [|lia].
    destruct (shl_align_val mb eb ez ltac:(lia)) as [HY|]; [|lia].
    set (X := Zpos (shl_align ma ea ez).1) in *.
    set (Y := Zpos (shl_align mb eb ez).1) in *.
    assert (Hsum : (cond_Zopp sa X + cond_Zopp sb Y) * 2 ^ (ez + 149)
                   = F32.val (S754_finite sa ma ea) + F32.val (S754_finite sb mb eb)).
    { cbn [F32.val]. rewrite <- HX, <- HY. destruct sa, sb; cbn [cond_Zopp]; lia. }
    rewrite <- Hsum. clear Hsum.
    assert (Hp : 0 < 2 ^ (ez + 149)) by (apply Z.pow_pos_nonneg; lia).
    destruct (cond_Zopp sa X + cond_Zopp sb Y) as [|p|p]; cbn [binary_normalize].
    + exists 0. split; [by left|]. split; intros; lia.
    + destruct (binary_round_spec false p ez ltac:(lia))
        as (v & Hout & Hv & Hup & Hlow).
      exists v. split; [|split].
      * destruct Hout as [(m' & e' & -> & Hbd & Hval)|[-> Hbig]].
        -- left. split; [by unfold F32.finite_number; cbn|done].
        -- right. by left.
      * done.
      * intros g Hg Hle. destruct (Z.lt_ge_cases g 0); [lia|].
        apply Hlow; [done|lia].
    + destruct (binary_round_spec true p ez ltac:(lia))
        as (v & Hout & Hv & Hup & Hlow).
      exists (- v). split; [|split].
      * destruct Hout as [(m' & e' & -> & Hbd & Hval)|[-> Hbig]].
        -- left. split; [by unfold F32.finite_number; cbn|].
           cbn [F32.val cond_Zopp]. lia.
        -- right. right. split; [done|lia].
      * intros g Hg Hle. destruct (Z.lt_ge_cases 0 g); [lia|].
        assert (- g <= v); [|lia].
        apply Hlow; [by apply representable_opp|].
        change (Zneg p) with (- Zpos p) in Hle. lia.
      * intros g Hg Hle.
        assert (v <= - g); [|lia].
        apply Hup; [by apply representable_opp|].
        change (Zneg p) with (- Zpos p) in Hle. lia.
Qed.

Lemma add_between a b L H :
  fin a -> fin b -> F32.representable L -> F32.representable H ->
  L <= F32.val a + F32.val b <= H ->
  fin (F32.add a b) ∧ L <= F32.val (F32.add a b) <= H.
Proof.
  intros Ha Hb HL HH [Hlo Hhi].
  destruct (add_spec a b Ha Hb) as (v & Hout & Hup & Hlow).
  specialize (Hup H HH Hhi). specialize (Hlow L HL Hlo).
  pose proof (representable_bound L HL). pose proof (representable_bound H HH).
  destruct Hout as [[Hfin <-]|[[_ ?]|[_ ?]]]; [done|lia|lia].
Qed.

Lemma add_above a b L :
  fin a -> fin b -> F32.representable L -> L <= F32.val a + F32.val b ->
  (fin (F32.add a b) ∧ L <= F32.val (F32.add a b))
  ∨ F32.add a b = S754_infinity false.
Proof.
  intros Ha Hb HL Hlo.
  destruct (add_spec a b Ha Hb) as (v & Hout & Hup & Hlow).
  specialize (Hlow L HL Hlo). pose proof (representable_bound L HL).
  destruct Hout as [[Hfin <-]|[[? _]|[_ ?]]]; [by left|by right|lia].
Qed.

Lemma sub_add_opp a b : F32.sub a b = F32.add a (SFopp b).
Proof.
  unfold F32.sub, F32.add.
  destruct a as [[]|[]| |sa ma ea], b as [[]|[]| |sb mb eb]; try reflexivity.
  unfold SFsub, SFadd, SFopp. by destruct sb.
Qed.

Lemma fin_opp a : fin a -> fin (SFopp a) ∧ F32.val (SFopp a) = - F32.val a.
Proof.
  destruct a as [s|s| |s m e]; try done. intros Ha. split; [done|].
  cbn [SFopp F32.val]. destruct s; cbn [cond_Zopp negb]; lia.
Qed.

Lemma representable_diff a b :
  F32.representable a -> F32.representable b -> 0 <= b <= a -> a <= 2 * b ->
  F32.representable (a - b).
Proof.
  intros (ma & ka & -> & Hma & Hka) (mb & kb & -> & Hmb & Hkb) Hle Hdouble.
  assert (Hpa : 0 < 2 ^ ka) by (apply Z.pow_pos_nonneg; lia).
  assert (Hpb : 0 < 2 ^ kb) by (apply Z.pow_pos_nonneg; lia).
  destruct (Z.le_gt_cases kb ka) as [Hk|Hk].
  - assert (Hsplit : 2 ^ ka = 2 ^ (ka - kb) * 2 ^ kb).
    { rewrite <- Z.pow_add_r by lia. f_equal. lia. }
    exists (ma * 2 ^ (ka - kb) - mb), kb.
    split; [rewrite Hsplit; lia|]. split; [|done].
    rewrite Hsplit in *. nia.
  - assert (Hsplit : 2 ^ kb = 2 ^ (kb - ka) * 2 ^ ka).
    { rewrite <- Z.pow_add_r by lia. f_equal. lia. }
    exists (ma - mb * 2 ^ (kb - ka)), ka.
    split; [rewrite Hsplit; lia|]. split; [|done].
    rewrite Hsplit in *. nia.
Qed.


Lemma representable_half s z :
  F32.representable s -> 0 <= z -> s < 2 * z -> z <= s ->
  ∃ g, F32.representable g ∧ g <= z ∧ s <= 2 * g.
Proof.
  intros (ms & ks & -> & Hms & Hks) Hz Hhalf Hle.
  destruct (Z.eq_dec ks 0) as [->|Hne].
  - exists z. split; [|lia]. exists z, 0. simpl in *. lia.
  - exists (ms * 2 ^ (ks - 1)).
    assert (Hsplit : 2 ^ ks = 2 * 2 ^ (ks - 1)).
    { replace ks with (1 + (ks - 1)) at 1 by lia.
      by rewrite Z.pow_add_r by lia. }
    split; [exists ms, (ks - 1); lia|]. lia.
Qed.

(** The states of the compensated sum of numbers that are not
    negative: either sum and error are finite, the sum is not negative
    and the error not above it, or the sum has overflowed. *)
Let good (acc : spec_float * spec_float) : Prop :=
  fin acc.1 ∧ fin acc.2 ∧ 0 <= F32.val acc.1 ∧ F32.val acc.2 <= F32.val acc.1.

Let bad (acc : spec_float * spec_float) : Prop :=
  acc.1 = S754_nan
  ∨ (acc.1 = S754_infinity false
     ∧ (acc.2 = S754_infinity false ∨ acc.2 = S754_nan)).

Lemma step_bad acc x : bad acc -> fin x -> bad (Reduce.step acc x).
Proof.
  destruct acc as [s c]. unfold bad, Reduce.step. cbn [fst snd].
  intros [->|[-> [->| ->]]] Hx; left.
  - by destruct (F32.sub x c) as [[]|[]| |[] ? ?].
  - by destruct x as [[]|[]| |[] ? ?].
  - by destruct x as [[]|[]| |[] ? ?].
Qed.

Lemma step_good acc x :
  good acc -> fin x -> 0 <= F32.val x ->
  good (Reduce.step acc x) ∨ bad (Reduce.step acc x).
Proof.
  destruct acc as [s c]. unfold good, bad, Reduce.step. cbn [fst snd].
  intros (Hs & Hc & Hs0 & Hcs) Hx Hx0.
  rewrite !sub_add_opp.
  destruct (fin_opp c Hc) as [Hoc Hvc].
  destruct (fin_opp s Hs) as [Hos Hvs].
  pose proof (fin_representable s Hs) as Hrs.
  pose proof (fin_representable _ Hoc) as Hroc.
  pose proof (fin_representable _ Hos) as Hros.
  set (y := F32.add x (SFopp c)).
  destruct (add_above x (SFopp c) (F32.val (SFopp c)) Hx Hoc Hroc ltac:(lia))
    as [[Hy Hylo]|Hy]; fold y in Hy; cycle 1.
  { right. right. rewrite Hy.
    assert (Ht : F32.add s (S754_infinity false) = S754_infinity false)
      by (destruct s as [[]|[]| |[] ? ?]; done || discriminate Hs).
    rewrite Ht. split; [done|]. right.
    destruct s as [[]|[]| |[] ? ?]; done || discriminate Hs. }
  fold y in Hylo.
  destruct (fin_opp y Hy) as [Hoy Hvy].
  pose proof (fin_representable y Hy) as Hry.
  pose proof (fin_representable _ Hoy) as Hroy.
  set (t := F32.add s y).
  destruct (add_above s y 0 Hs Hy representable_0 ltac:(lia))
    as [[Ht Ht0]|Ht]; fold t in Ht; cycle 1.
  { right. right. rewrite Ht. split; [done|]. left.
    destruct s as [[]|[]| |[] ? ?]; try discriminate Hs;
      destruct y as [[]|[]| |[] ? ?]; done || discriminate Hy. }
  fold t in Ht0.
  pose proof (fin_representable t Ht) as Hrt.
  left. split; [done|]. cut (fin (F32.add (F32.add t (SFopp s)) (SFopp y))
    ∧ F32.val (F32.add (F32.add t (SFopp s)) (SFopp y)) <= F32.val t); [tauto|].
  assert (Hfinite : ∀ L, F32.representable L -> L <= F32.val s + F32.val y -> L <= F32.val t).
  { intros L HL Hle.
    destruct (add_above s y L Hs Hy HL Hle) as [[_ ?]|Hinf]; [done|].
    fold t in Hinf. rewrite Hinf in Ht. discriminate Ht. }
  rewrite Hvc in Hylo.
  destruct (Z.le_gt_cases 0 (F32.val y)) as [Hypos|Hyneg].
  - (* the entry, less the error, is not negative: the sum grows *)
    pose proof (Hfinite (F32.val s) Hrs ltac:(lia)) as Hst.
    destruct (add_between t (SFopp s) 0 (F32.val t) Ht Hos representable_0 Hrt
                ltac:(lia)) as [Hu Hubounds].
    destruct (add_between (F32.add t (SFopp s)) (SFopp y) (F32.val (SFopp y)) (F32.val t)
                Hu Hoy Hroy Hrt ltac:(lia)) as [Hc' Hcbounds].
    split; [done|lia].
  - destruct (Z.le_gt_cases (F32.val s) (2 * - F32.val y)) as [Hnear|Hfar].
    + (* the sum loses at least half of itself: the addition is exact *)
      assert (Hrz : F32.representable (F32.val s + F32.val y)).
      { replace (F32.val s + F32.val y) with (F32.val s - F32.val (SFopp y)) by lia.
        apply representable_diff; [done|done|lia|lia]. }
      destruct (add_between s y _ _ Hs Hy Hrz Hrz ltac:(lia)) as [_ Htval].
      fold t in Htval.
      destruct (add_between t (SFopp s) (F32.val y) (F32.val y) Ht Hos Hry Hry
                  ltac:(lia)) as [Hu Huval].
      destruct (add_between (F32.add t (SFopp s)) (SFopp y) 0 0
                  Hu Hoy representable_0 representable_0 ltac:(lia))
        as [Hc' Hcval].
      split; [done|lia].
    + (* the sum keeps more than half of itself: the error is exact *)
      destruct (add_between s y 0 (F32.val s) Hs Hy representable_0 Hrs ltac:(lia))
        as [_ Htbounds]. fold t in Htbounds.
      destruct (representable_half (F32.val s) (F32.val s + F32.val y) Hrs
                  ltac:(lia) ltac:(lia) ltac:(lia)) as (g & Hg & Hgz & Hgs).
      pose proof (Hfinite g Hg Hgz) as Hgt.
      assert (Hrd : F32.representable (F32.val t - F32.val s)).
      { replace (F32.val t - F32.val s) with (- (F32.val s - F32.val t)) by lia.
        apply representable_opp, representable_diff; [done|done|lia|lia]. }
      destruct (add_between t (SFopp s) _ _ Ht Hos Hrd Hrd ltac:(lia))
        as [Hu Huval].
      destruct (add_between (F32.add t (SFopp s)) (SFopp y) (F32.val (SFopp s)) (F32.val t)
                  Hu Hoy Hros Hrt ltac:(lia)) as [Hc' Hcbounds].
      split; [done|lia].
Qed.

Lemma fold_step v acc :
  Forall (fun a => fin a ∧ 0 <= F32.val a) v ->
  good acc ∨ bad acc ->
  good (fold_left Reduce.step v acc) ∨ bad (fold_left Reduce.step v acc).
Proof.
  intros Hv. revert acc.
  induction Hv as [|a v [Ha Ha0] Hv IH]; intros acc Hacc; [done|].
  cbn [fold_left]. apply IH. destruct Hacc as [Hgood|Hbad].
  - by apply step_good.
  - right. by apply step_bad.
Qed.

Lemma sum_not_negative v :
  Forall (fun a => fin a ∧ 0 <= F32.val a) v ->
  F32.is_nan (Reduce.sum v) = true ∨ SFleb F32.zero (Reduce.sum v) = true.
Proof.
  intros Hv. unfold Reduce.sum.
  destruct (fold_step v (F32.zero, F32.zero) Hv) as [Hgood|Hbad].
  - left. split; [done|]. split; [done|]. cbn. lia.
  - destruct Hgood as (Hs & _ & Hs0 & _).
    destruct (fold_left _ _ _) as [s c]. cbn [fst] in *. right.
    destruct s as [[]|[]| |[] m e]; try done.
    cbn [F32.val cond_Zopp] in Hs0.
    assert (0 < 2 ^ (e + 149)); [|lia].
    destruct (fin_finite _ _ _ Hs). apply Z.pow_pos_nonneg; lia.
  - unfold bad in Hbad. destruct (fold_left _ _ _) as [s c]. cbn [fst snd] in *.
    destruct Hbad as [->|[-> _]]; [by left|by right].
Qed.
End Rounding.

(** ** Sorting by insertion *)

Section SortFacts.
Context {A : Type} (le : A -> A -> bool).

Lemma insert_Permutation x l : Py.insert le x l ≡ₚ x :: l.
Proof.
  induction l as [|y l IH]; simpl; [done|].
  destruct (le x y); [done|]. rewrite IH. apply Permutation_swap.
Qed.

Lemma sort_Permutation l : Py.sort le l ≡ₚ l.
Proof.
  induction l as [|x l IH]; simpl; [done|].
  by rewrite insert_Permutation, IH.
Qed.

(** The order need only be total and transitive on a set [P] that holds
    the elements of the list: a vector of cosines without NaN is sorted
    even though [>=] is not total on all numbers. *)
Context (P : A -> Prop).
Hypothesis le_total : ∀ x y, P x -> P y -> le x y = true ∨ le y x = true.
Hypothesis le_trans :
  ∀ x y z, P x -> P y -> P z -> le x y = true -> le y z = true -> le x z = true.

Lemma insert_sorted x l :
  P x -> Forall P l ->
  StronglySorted (fun a b => le a b = true) l ->
  StronglySorted (fun a b => le a b = true) (Py.insert le x l).
Proof.
  intros Hx. induction l as [|y l IH]; simpl; intros HP Hs.
  - repeat constructor.
  - apply Forall_cons in HP as [Hy HP].
    apply StronglySorted_cons in Hs as [Hyl Hs].
    destruct (le x y) eqn:Hxy.
    + constructor; [by constructor|]. constructor; [done|].
      rewrite Forall_forall in *. intros z Hz. eauto.
    + constructor; [by apply IH|].
      rewrite insert_Permutation. constructor; [|done].
      destruct (le_total x y Hx Hy); congruence.
Qed.

Lemma sort_sorted l :
  Forall P l -> StronglySorted (fun a b => le a b = true) (Py.sort le l).
Proof.
  induction l as [|x l IH]; simpl; intros HP; [constructor|].
  apply Forall_cons in HP as [Hx HP].
  apply insert_sorted; [done| |by apply IH].
  by rewrite sort_Permutation.
Qed.
End SortFacts.

(** ** The order of binary32 numbers *)

Lemma geb_total a b :
  F32.is_nan a = false -> F32.is_nan b = false ->
  F32.geb a b = true ∨ F32.geb b a = true.
Proof.
  unfold F32.geb, SFleb.
  destruct a as [[]|[]| |[] ma ea], b as [[]|[]| |[] mb eb]; simpl;
    intros Ha Hb; try discriminate; auto;
    rewrite ?Pos.compare_cont_spec; simpl;
    destruct (Z.compare_spec eb ea), (Z.compare_spec ea eb); simpl;
      auto; try lia;
    destruct (Pos.compare_spec mb ma), (Pos.compare_spec ma mb); simpl;
      auto; lia.
Qed.

Lemma geb_trans a b c :
  F32.geb a b = true -> F32.geb b c = true -> F32.geb a c = true.
Proof.
  unfold F32.geb, SFleb.
  destruct a as [[]|[]| |[] ma ea], b as [[]|[]| |[] mb eb],
           c as [[]|[]| |[] mc ec]; simpl; try done;
    rewrite ?Pos.compare_cont_spec; simpl;
    destruct (Z.compare_spec eb ea), (Z.compare_spec ec eb),
             (Z.compare_spec ec ea); simpl; try done; try lia; subst;
    destruct (Pos.compare_spec mb ma), (Pos.compare_spec mc mb),
             (Pos.compare_spec mc ma); simpl; try done; try lia.
Qed.

(** Not being below is being above or equal, when neither side is NaN. *)
Lemma not_gtb_geb a b :
  F32.is_nan a = false -> F32.is_nan b = false ->
  negb (F32.gtb b a) = F32.geb a b.
Proof.
  unfold F32.gtb, F32.geb, SFltb, SFleb.
  destruct a as [[]|[]| |[] ma ea], b as [[]|[]| |[] mb eb]; simpl;
    intros Ha Hb; try discriminate; auto;
    rewrite ?Pos.compare_cont_spec; simpl;
    destruct (Z.compare_spec eb ea), (Z.compare_spec ea eb); simpl;
      auto; try lia;
    destruct (Pos.compare_spec mb ma), (Pos.compare_spec ma mb); simpl;
      auto; lia.
Qed.

(** ** [knn] *)

Section KnnFacts.
Import Similarity.

Lemma cosines_Ok W x :
  Forall (fun row => length row = length x) W ->
  cosines W x = Ok (map (fun row => cosine row x) W).
Proof.
  intros Hshape. unfold cosines, np_dot.
  replace (forallb _ W) with true; simpl.
  - f_equal. clear Hshape. induction W as [|row W IH]; simpl; [done|].
    by rewrite IH.
  - symmetry. apply forallb_forall. intros row Hrow.
    rewrite Forall_forall in Hshape.
    apply Nat.eqb_eq, Hshape. by apply list_elem_of_In.
Qed.

Lemma cosines_lookup W x i :
  (i < length W)%nat ->
  map (fun row => cosine row x) W !! i = Some (similarity W x i).
Proof.
  intros Hi. unfold similarity.
  destruct (lookup_lt_is_Some_2 W i Hi) as [row Hrow].
  change (map ?f W) with (f <$> W). by rewrite list_lookup_fmap, Hrow.
Qed.

Lemma before_lookup W x i j :
  (i < length W)%nat -> (j < length W)%nat ->
  before (map (fun row => cosine row x) W) i j
  = negb (F32.gtb (similarity W x j) (similarity W x i)).
Proof. intros Hi Hj. unfold before. by rewrite !cosines_lookup. Qed.

Section Ranking.
Variables (W : matrix) (x : vector).
Hypothesis no_nan : Forall (fun row => F32.is_nan (cosine row x) = false) W.

Let cos := map (fun row => cosine row x) W.
Let order := Py.sort (before cos) (seq 0 (length cos)).

Lemma similarity_no_nan i :
  (i < length W)%nat -> F32.is_nan (similarity W x i) = false.
Proof.
  intros Hi. destruct (lookup_lt_is_Some_2 W i Hi) as [row Hrow].
  unfold similarity. rewrite Hrow. simpl.
  rewrite Forall_forall in no_nan. apply no_nan.
  by eapply list_elem_of_lookup_2.
Qed.

(** Without NaN, staying before a later index means being at least
    as similar. *)
Lemma before_similarity i j :
  (i < length W)%nat -> (j < length W)%nat ->
  before cos i j = F32.geb (similarity W x i) (similarity W x j).
Proof.
  intros Hi Hj. unfold cos. rewrite before_lookup by done.
  by apply not_gtb_geb; apply similarity_no_nan.
Qed.

Lemma order_Permutation : order ≡ₚ seq 0 (length W).
Proof. unfold order, cos. by rewrite sort_Permutation, length_map. Qed.

Lemma order_in_range i : i ∈ order <-> (i < length W)%nat.
Proof. rewrite order_Permutation, elem_of_seq. lia. Qed.

Lemma order_sorted :
  StronglySorted
    (fun i j => F32.geb (similarity W x i) (similarity W x j) = true) order.
Proof.
  assert (Hs : StronglySorted (fun i j => before cos i j = true) order).
  { apply (sort_sorted _ (fun i => i < length W)%nat).
    - intros i j Hi Hj. rewrite !before_similarity by done.
      apply geb_total; by apply similarity_no_nan.
    - intros i j l Hi Hj Hl. rewrite !before_similarity by done.
      apply geb_trans.
    - apply Forall_forall. intros i Hi. apply elem_of_seq in Hi.
      unfold cos in Hi. rewrite length_map in Hi. lia. }
  assert (Hin : Forall (fun i => i < length W)%nat order).
  { apply Forall_forall. intros i. apply order_in_range. }
  induction Hs as [|i l Hs IH Hil]; [constructor|].
  apply Forall_cons in Hin as [Hi Hin]. constructor; [by apply IH|].
  rewrite Forall_forall in *. intros j Hj.
  rewrite <- before_similarity; auto.
Qed.

Lemma take_order_top k :
  (k <= length W)%nat -> top_k_rows W x k (take k order).
Proof.
  intros Hk.
  assert (Hnodup : NoDup order).
  { rewrite order_Permutation. apply NoDup_seq. }
  assert (Hsorted := order_sorted).
  rewrite <- (take_drop k order) in Hnodup, Hsorted.
  apply NoDup_app in Hnodup as (Hnd & Hdisj & _).
  apply StronglySorted_app in Hsorted as (Hcross & Hs & _).
  repeat split; try done.
  - rewrite length_take, order_Permutation, length_seq. lia.
  - apply Forall_forall. intros i Hi. apply order_in_range.
    rewrite <- (take_drop k order). apply elem_of_app. by left.
  - intros i j Hi Hj Hnot. apply Hcross; [done|].
    apply order_in_range in Hj.
    rewrite <- (take_drop k order) in Hj.
    apply elem_of_app in Hj as [?|?]; done.
Qed.
End Ranking.

Lemma cosines_shape W x cos :
  cosines W x = Ok cos ->
  Forall (fun row => length row = length x) W
  ∧ cos = map (fun row => cosine row x) W.
Proof.
  intros Hcos.
  assert (Hshape : Forall (fun row => length row = length x) W).
  { unfold cosines, np_dot in Hcos.
    destruct (forallb _ W) eqn:Hall; [|done].
    apply Forall_forall. intros row Hrow.
    rewrite forallb_forall in Hall.
    apply Nat.eqb_eq, Hall. by apply list_elem_of_In. }
  split; [done|]. rewrite cosines_Ok in Hcos by done. congruence.
Qed.

Lemma lookup_values W x idx :
  Forall (fun i => i < length W)%nat idx ->
  Py.comprehension (Py.getitem (map (fun row => cosine row x) W)) idx
  = Ok (map (similarity W x) idx).
Proof.
  intros Hidx. apply comprehension_Ok.
  apply Forall2_fmap_r, Forall_Forall2_diag.
  eapply Forall_impl; [done|]. intros i Hi. simpl.
  apply getitem_Ok. by apply cosines_lookup.
Qed.

(** C2, as the code has it.  When the rows of [W] are as long as [x], no
    cosine similarity is NaN and [1 <= k <= rows], [knn W x k] returns
    the indices of [k] distinct rows of [W], from the most to the least
    similar to [x], such that no other row is more similar than a
    returned one, together with the similarities of these rows in the
    same order; the similarity of a row is dot(row, x) divided by
    sqrt(||row||^2 + 1e-9) * ||x||, in binary32. *)
Theorem knn_top_k W x k :
  Forall (fun row => length row = length x) W ->
  Forall (fun row => F32.is_nan (cosine row x) = false) W ->
  (1 <= k <= length W)%nat ->
  ∃ idx, knn W x k = Ok (idx, map (similarity W x) idx)
         ∧ top_k_rows W x k idx.
Proof.
  intros Hshape Hnan [Hk1 Hk].
  exists (take k (Py.sort (before (map (fun row => cosine row x) W))
                    (seq 0 (length (map (fun row => cosine row x) W))))).
  pose proof (take_order_top W x Hnan k Hk) as Htop.
  split; [|done].
  unfold knn. rewrite cosines_Ok by done. cbn -[Py.sort].
  unfold topk. rewrite decide_False by (rewrite length_map; lia).
  destruct k as [|k]; [lia|]. cbn -[Py.sort take].
  rewrite lookup_values; [done|]. by destruct Htop as (_ & _ & ? & _).
Qed.

(** C2, as it is stated, fails on a query vector of zeros (the vector of
    an unknown token): every similarity is 0/0 = NaN, [knn] returns the
    rows in the order of their indices with NaN beside each, and the
    returned rows are in no order of similarity. *)
Lemma knn_zero_query_not_ranked :
  let W := map (map F32.of_Z) [[1; 0]; [0; 1]] in
  let x := map F32.of_Z [0; 0] in
  (2 <= length W)%nat ∧
  Forall (fun row => length row = length x) W ∧
  knn W x 2 = Ok ([0; 1]%nat, [S754_nan; S754_nan]) ∧
  ¬ ∃ idx, knn W x 2 = Ok (idx, map (similarity W x) idx)
           ∧ top_k_rows W x 2 idx.
Proof.
  intros W x.
  assert (Hrun : knn W x 2 = Ok ([0; 1]%nat, [S754_nan; S754_nan]))
    by (vm_compute; reflexivity).
  assert (Hsim : F32.geb (similarity W x 0) (similarity W x 1) = false)
    by (vm_compute; reflexivity).
  split; [simpl; lia|]. split; [by repeat constructor|]. split; [done|].
  intros (idx & Hknn & _ & _ & _ & Hsorted & _).
  rewrite Hrun in Hknn. injection Hknn as <- _.
  apply StronglySorted_cons in Hsorted as [Hhd _].
  apply Forall_cons in Hhd as [Hhd _]. congruence.
Qed.

End KnnFacts.

(** ** [FixedHiddenMLP] *)

Section MLPFacts.
Import MLP.

(** The numbers the loop works on: finite and not negative. *)
Let tame (a : spec_float) : Prop :=
  F32.finite_number a = true ∧ F32.nonneg a = true.

(** The sum of the magnitudes of a tensor, the measure that halving
    decreases. *)
Let weight (x : matrix) : Z :=
  foldr (fun a acc => F32.rank a + acc) 0 (concat x).

(** The compensated sum of zeros is zero. *)
Lemma sum_zeros v : Forall (fun a => a = F32.zero) v -> sum v = F32.zero.
Proof.
  unfold sum, Reduce.sum. intros Hv.
  assert (H : fold_left Reduce.step v (F32.zero, F32.zero)
              = (F32.zero, F32.zero)); [|by rewrite H].
  induction Hv as [|a v -> Hv IH]; [done|]. cbn [fold_left].
  by change (Reduce.step (F32.zero, F32.zero) F32.zero)
    with (F32.zero, F32.zero).
Qed.

Lemma abs_nonneg a : F32.nonneg a = true -> F32.abs a = a.
Proof. by destruct a as [[]|[]| |[] m e]. Qed.

Lemma abs_sum_total x :
  Forall (Forall tame) x -> abs_sum x = total x.
Proof.
  intros Hx. unfold abs_sum, total. f_equal. f_equal.
  induction Hx as [|row x Hrow Hx IH]; [done|]. cbn [map]. f_equal; [|done].
  induction Hrow as [|a row [_ Ha] Hrow IHrow]; [done|].
  cbn [map]. by rewrite abs_nonneg, IHrow.
Qed.

Lemma rank_nonneg a : F32.finite_number a = true -> 0 <= F32.rank a.
Proof.
  destruct a as [s|s| |s m e]; cbn; lia.
Qed.

Lemma rank_zero a : tame a -> F32.rank a = 0 -> a = F32.zero.
Proof.
  destruct a as [[]|[]| |[] m e]; intros [Hfin Hpos]; try done.
  cbn in Hfin. apply andb_true_iff in Hfin as [Hcan He].
  unfold canonical_mantissa, fexp, emin, F32.prec, F32.emax in Hcan.
  apply Z.eqb_eq in Hcan. cbn [F32.rank].
  assert (0 < 2 ^ (e + 149)) by (apply Z.pow_pos_nonneg; lia). lia.
Qed.

Lemma weight_nonneg x : Forall (Forall tame) x -> 0 <= weight x.
Proof.
  intros Hx%Forall_concat. unfold weight.
  induction Hx as [|a v [Ha _] Hv IH]; cbn [foldr]; [lia|].
  pose proof (rank_nonneg a Ha). lia.
Qed.

(** A tensor of weight zero sums to zero, and the loop stops on it. *)
Lemma weight_zero_sum x :
  Forall (Forall tame) x -> weight x = 0 -> total x = F32.zero.
Proof.
  intros Hx%Forall_concat Hw. unfold total. apply sum_zeros.
  unfold weight in Hw.
  induction Hx as [|a v Ha Hv IH]; cbn [foldr] in Hw; [done|].
  assert (Hv' : Forall tame v) by done.
  apply Forall_impl with (Q := fun a => F32.finite_number a = true) in Hv';
    [|by intros ? [? _]].
  assert (0 <= foldr (fun a acc => F32.rank a + acc) 0 v).
  { clear -Hv'. induction Hv' as [|b v Hb Hv IH]; cbn [foldr]; [lia|].
    pose proof (rank_nonneg b Hb). lia. }
  pose proof (rank_nonneg a (proj1 Ha)).
  constructor; [apply rank_zero; [done|lia]|apply IH; lia].
Qed.

Lemma halve_tame x :
  Forall (Forall tame) x ->
  Forall (Forall tame) (halve x) ∧
  weight (halve x) <= weight x ∧
  (0 < weight x -> weight (halve x) < weight x).
Proof.
  intros Hx. unfold weight, halve.
  induction Hx as [|row x Hrow Hx IH]; [cbn; repeat split; (done || lia)|].
  cbn [map concat]. rewrite !foldr_app.
  destruct IH as (IH1 & IH2 & IH3).
  assert (Hfold : ∀ v k, foldr (fun a acc => F32.rank a + acc) k v
                         = foldr (fun a acc => F32.rank a + acc) 0 v + k).
  { clear. induction v as [|a v IH]; intros k; cbn [foldr]; [lia|].
    rewrite IH. lia. }
  rewrite (Hfold (map _ row)), (Hfold row).
  assert (Hr : Forall tame (map (fun a => F32.div a F32.two) row) ∧
               foldr (fun a acc => F32.rank a + acc) 0
                 (map (fun a => F32.div a F32.two) row)
               <= foldr (fun a acc => F32.rank a + acc) 0 row ∧
               (0 < foldr (fun a acc => F32.rank a + acc) 0 row ->
                foldr (fun a acc => F32.rank a + acc) 0
                  (map (fun a => F32.div a F32.two) row)
                < foldr (fun a acc => F32.rank a + acc) 0 row) ∧
               0 <= foldr (fun a acc => F32.rank a + acc) 0
                      (map (fun a => F32.div a F32.two) row)).
  { clear -Hrow. induction Hrow as [|a row [Ha1 Ha2] Hrow IH];
      [cbn; repeat split; (done || lia)|].
    destruct IH as (IH1 & IH2 & IH3 & IH4).
    destruct (halve_finite_number a Ha1 Ha2) as (H1 & H2 & H3 & H4).
    cbn [map foldr]. repeat split; try lia.
    by constructor. }
  destruct Hr as (Hr1 & Hr2 & Hr3 & Hr4).
  pose proof (weight_nonneg _ IH1) as Hw. unfold weight, halve in Hw.
  pose proof (weight_nonneg _ Hx) as Hw'. unfold weight in Hw'.
  repeat split; try lia. by constructor.
Qed.

(** The loop ends: a tensor of tame numbers needs only finitely many
    halvings, and leaves the loop tame, with a sum that is not above 1. *)
Lemma while_terminates x :
  Forall (Forall tame) x ->
  ∃ fuel x', while fuel x = Some x' ∧ Forall (Forall tame) x' ∧
             F32.gtb (abs_sum x') F32.one = false.
Proof.
  intros Hx.
  assert (Hn : ∃ n, weight x <= Z.of_nat n)
    by (exists (Z.to_nat (weight x)); lia).
  destruct Hn as [n Hn]. revert x Hx Hn.
  induction n as [|n IH]; intros x Hx Hn.
  - exists 1%nat, x. pose proof (weight_nonneg x Hx).
    assert (Hz : abs_sum x = F32.zero).
    { rewrite abs_sum_total by done. apply weight_zero_sum; [done|lia]. }
    cbn [while]. by rewrite Hz.
  - destruct (F32.gtb (abs_sum x) F32.one) eqn:Hgt.
    2:{ exists 1%nat, x. cbn [while]. by rewrite Hgt. }
    destruct (halve_tame x Hx) as (Hh & Hle & Hlt).
    pose proof (weight_nonneg x Hx) as Hw.
    assert (0 < weight x).
    { destruct (Z.eq_dec (weight x) 0) as [Hz|]; [|lia].
      rewrite abs_sum_total, weight_zero_sum in Hgt by done. done. }
    destruct (IH (halve x) Hh) as (fuel & x' & Hrun & Hx' & Hexit); [lia|].
    exists (S fuel), x'. cbn [while]. by rewrite Hgt.
Qed.

Lemma while_more_fuel fuel fuel' x x' :
  while fuel x = Some x' -> (fuel <= fuel')%nat -> while fuel' x = Some x'.
Proof.
  revert fuel' x. induction fuel as [|fuel IH]; intros fuel' x; [done|].
  destruct fuel' as [|fuel']; [lia|]. cbn [while].
  destruct (F32.gtb _ _); [|done]. intros Hrun Hle. apply IH; [done|lia].
Qed.

(** What [relu] returns is not negative as soon as it is finite. *)
Lemma relu_nonneg a :
  F32.is_finite (relu a) = true -> F32.nonneg (relu a) = true.
Proof.
  unfold relu. destruct (F32.is_nan a) eqn:Hnan; [by destruct a|].
  destruct (F32.gtb a F32.zero) eqn:Hgt; [|done].
  by destruct a as [[]|[]| |[] m e].
Qed.

Lemma dense_relu self x y :
  dense self x = Ok y ->
  Forall (Forall (fun a => ∃ b, a = relu b)) y.
Proof.
  unfold dense. destruct (_ && _); [|done]. intros [= <-].
  apply Forall_forall. intros row (r & -> & _)%list_elem_of_fmap.
  generalize (dense_bias self).
  induction (dense_weight self) as [|w ws IH]; intros [|b bs];
    cbn [zip_with]; try done.
  constructor; [by eexists|apply IH].
Qed.

Lemma before_loop_tame self x y :
  before_loop self x = Ok y ->
  Forall (Forall (fun a => F32.finite_number a = true)) y ->
  Forall (Forall tame) y.
Proof.
  unfold before_loop.
  destruct (dense self x) as [x1|e]; [|done]. cbn [mbind result_bind].
  destruct (np_dot x1 _) as [x2|e]; [|done]. cbn [mbind result_bind].
  intros Hy%dense_relu Hfin. rewrite Forall_forall in Hy, Hfin.
  apply Forall_forall. intros row Hrow.
  specialize (Hy row Hrow). specialize (Hfin row Hrow).
  rewrite Forall_forall in Hy, Hfin.
  apply Forall_forall. intros a Ha.
  destruct (Hy a Ha) as [b ->]. specialize (Hfin _ Ha).
  split; [done|]. apply relu_nonneg. unfold F32.finite_number in Hfin.
  by apply andb_true_iff in Hfin as [? _].
Qed.

Lemma while_halvings fuel x x' :
  while fuel x = Some x' ->
  ∃ n, x' = Nat.iter n halve x ∧ while (S n) x = Some x'.
Proof.
  revert x. induction fuel as [|fuel IH]; intros x; [done|]. cbn [while].
  destruct (F32.gtb (abs_sum x) F32.one) eqn:Hgt.
  - intros (n & -> & Hrun)%IH. exists (S n). split.
    + by rewrite Nat.iter_succ_r.
    + exact Hrun.
  - intros [= <-]. by exists 0%nat.
Qed.

(** The sum of a tensor of such numbers is not negative: it is zero
    or above, infinity included, or it is NaN. *)
Lemma total_not_negative x :
  Forall (Forall tame) x ->
  F32.is_nan (total x) = true ∨ SFleb F32.zero (total x) = true.
Proof.
  intros Hx%Forall_concat. apply sum_not_negative.
  eapply Forall_impl; [done|]. intros a [Hfin Hpos]. split; [done|].
  destruct a as [[]|[]| |[] m e]; try done. cbn [F32.val cond_Zopp].
  assert (0 <= 2 ^ (e + 149)) by (apply Z.pow_nonneg; lia). lia.
Qed.

(** C8, as the code has it.  When the statements before the loop run
    without a shape error and the tensor they hand to the loop holds
    finite binary32 numbers only, [forward] terminates: after some
    number [n] of halvings the test of the loop fails and, from [n + 1]
    tests on, [forward] returns.  The scalar it returns is [x.sum()] of
    the tensor halved [n] times, the same number as the
    [np.abs(x).sum()] that the last test looked at.  It is a number
    from 0 to 1, of absolute value at most 1, or it is NaN: the
    compensated sum of a tensor whose entries are finite overflows
    into NaN when they are large. *)
Theorem forward_terminates self x y :
  before_loop self x = Ok y ->
  Forall (Forall (fun a => F32.finite_number a = true)) y ->
  ∃ n r,
    (∀ fuel, (n < fuel)%nat -> forward fuel self x = Some (Ok r)) ∧
    r = total (Nat.iter n halve y) ∧
    r = abs_sum (Nat.iter n halve y) ∧
    (F32.is_nan r = true
     ∨ (SFleb F32.zero r = true ∧ SFleb (F32.abs r) F32.one = true)).
Proof.
  intros Hy Hfin. pose proof (before_loop_tame self x y Hy Hfin) as Htame.
  destruct (while_terminates y Htame) as (fuel & y' & Hrun & Hy' & Hexit).
  destruct (while_halvings fuel y y' Hrun) as (n & Hy'n & Hstop).
  rewrite abs_sum_total in Hexit by done.
  exists n, (total y'). split; [|split; [by rewrite Hy'n|split]].
  - intros fuel' Hle. unfold forward. rewrite Hy.
    by rewrite (while_more_fuel (S n) fuel' y y') by (done || lia).
  - rewrite <- Hy'n. by rewrite abs_sum_total.
  - destruct (total_not_negative y' Hy') as [Hnan|Hzero]; [by left|right].
    split; [done|].
    destruct (F32.is_nan (total y')) eqn:Hnan;
      [by destruct (total y') as [[]|[]| |[] ? ?]|].
    pose proof (leb_of_not_gtb (total y') F32.one Hnan eq_refl Hexit) as Hone.
    by destruct (total y') as [[]|[]| |[] ? ?].
Qed.
End MLPFacts.

(** C8, as it is stated, fails on finite inputs whose numbers overflow,
    in three ways.  With dense weights of 1/16, a bias of zero and a
    [rand_weight] of 1/2, twenty features equal to the greatest binary32
    number give twenty times infinity before the loop: their compensated
    sum is NaN, the test [NaN > 1] of the loop fails at once, and
    [forward] returns NaN, which is not a number of absolute value at
    most 1.  With [net_large] and features of zero, twenty times the
    finite number 20 * 2^123 enter the loop: their sum overflows and
    [forward] returns NaN again.  With [net_last] and features of zero,
    nineteen zeros and then infinity enter the loop: their sum is
    infinity, halving changes nothing, and [forward] never returns. *)
Lemma forward_overflow_nan_or_loop :
  Forall (Forall (fun a => F32.finite_number a = true)) Examples.batch_huge ∧
  MLP.before_loop Examples.net Examples.batch_huge
  = Ok [replicate 20 (S754_infinity false)] ∧
  (∀ fuel, MLP.forward (S fuel) Examples.net Examples.batch_huge
           = Some (Ok S754_nan)) ∧
  Forall (Forall (fun a => F32.finite_number a = true)) Examples.batch_zero ∧
  MLP.before_loop Examples.net_large Examples.batch_zero
  = Ok [replicate 20 (S754_finite false 10485760 104)] ∧
  (∀ fuel, MLP.forward (S fuel) Examples.net_large Examples.batch_zero
           = Some (Ok S754_nan)) ∧
  MLP.before_loop Examples.net_last Examples.batch_zero
  = Ok [replicate 19 F32.zero ++ [S754_infinity false]] ∧
  (∀ fuel, MLP.forward fuel Examples.net_last Examples.batch_zero = None) ∧
  SFleb (F32.abs S754_nan) F32.one = false.
Proof.
  assert (Hhuge : MLP.before_loop Examples.net Examples.batch_huge
                  = Ok [replicate 20 (S754_infinity false)])
    by (vm_compute; reflexivity).
  assert (Hlarge : MLP.before_loop Examples.net_large Examples.batch_zero
                   = Ok [replicate 20 (S754_finite false 10485760 104)])
    by (vm_compute; reflexivity).
  assert (Hlast : MLP.before_loop Examples.net_last Examples.batch_zero
                  = Ok [replicate 19 F32.zero ++ [S754_infinity false]])
    by (vm_compute; reflexivity).
  split; [repeat constructor|]. split; [done|]. split.
  { intros fuel. unfold MLP.forward. rewrite Hhuge. cbn [MLP.while].
    by replace (F32.gtb (MLP.abs_sum [replicate 20 (S754_infinity false)]) F32.one)
      with false by (vm_compute; reflexivity). }
  split; [repeat constructor|]. split; [done|]. split.
  { intros fuel. unfold MLP.forward. rewrite Hlarge. cbn [MLP.while].
    by replace (F32.gtb (MLP.abs_sum
                           [replicate 20 (S754_finite false 10485760 104)])
                  F32.one)
      with false by (vm_compute; reflexivity). }
  split; [done|]. split; [|done].
  intros fuel. unfold MLP.forward. rewrite Hlast.
  set (y := [replicate 19 F32.zero ++ [S754_infinity false]]).
  assert (Hgt : F32.gtb (MLP.abs_sum y) F32.one = true)
    by (vm_compute; reflexivity).
  assert (Hhalve : MLP.halve y = y) by (vm_compute; reflexivity).
  assert (Hloop : MLP.while fuel y = None).
  { induction fuel as [|fuel IH]; [done|]. cbn [MLP.while].
    by rewrite Hgt, Hhalve. }
  by rewrite Hloop.
Qed.

(** ** Counting the classes *)

Section CounterFacts.
Import Kaggle.

Lemma Counter_snoc vs v :
  Counter (vs ++ [v])
  = <[v := S (default 0%nat (Counter vs !! v))]> (Counter vs).
Proof. unfold Counter. by rewrite fold_left_app. Qed.

Lemma Counter_lookup vs c :
  Counter vs !! c
  = match length (filter (fun v => v = c) vs) with
    | O => None
    | n => Some n
    end.
Proof.
  induction vs as [|v vs IH] using rev_ind; [done|].
  rewrite Counter_snoc, filter_app, length_app.
  destruct (decide (v = c)) as [->|Hne].
  - rewrite lookup_insert_eq, IH, filter_cons_True by done. simpl.
    destruct (length _); simpl; f_equal; lia.
  - rewrite lookup_insert_ne, IH, filter_cons_False by done. simpl.
    by rewrite Nat.add_0_r.
Qed.

Lemma class_size_values labels c :
  class_size labels c = length (filter (fun v => v = c) (map_to_list labels).*2).
Proof.
  unfold class_size. induction (map_to_list labels) as [|[k v] l IH]; [done|].
  simpl. destruct (decide (v = c)) as [->|Hne].
  - rewrite !filter_cons_True by done. simpl. by rewrite IH.
  - by rewrite !filter_cons_False.
Qed.

Lemma Counter_labels labels c n :
  Counter (map_to_list labels).*2 !! c = Some n
  <-> class_size labels c = n ∧ (0 < n)%nat.
Proof.
  rewrite Counter_lookup, class_size_values.
  destruct (length _); split; intros H; try naive_solver lia.
Qed.

(** The last item of a list sorted downwards is a least one. *)
Lemma last_of_sorted {A : Type} (R : relation A) (l : list A) x :
  StronglySorted R l -> last l = Some x -> ∀ y, y ∈ l -> y = x ∨ R y x.
Proof.
  intros Hs Hlast y Hy.
  apply last_Some in Hlast as [l' ->].
  apply elem_of_app in Hy as [Hy|Hy%list_elem_of_singleton]; [|by left].
  right. eapply StronglySorted_app_1_elem_of; [done..|]. by left.
Qed.

(** [least_count] finds the size of a smallest class. *)
Lemma least_count_spec labels :
  labels ≠ ∅ ->
  ∃ n, least_count labels = Ok n ∧ (0 < n)%nat ∧
       (∃ c, class_size labels c = n) ∧
       (∀ c, (0 < class_size labels c)%nat -> (n <= class_size labels c)%nat).
Proof.
  intros Hne. unfold least_count.
  set (counter := Counter (map_to_list labels).*2).
  assert (Hperm : most_common counter ≡ₚ map_to_list counter)
    by apply sort_Permutation.
  assert (Hsorted : StronglySorted (fun a b => (b.2 <=? a.2)%nat = true)
                      (most_common counter)).
  { apply (sort_sorted _ (fun _ => True)).
    - intros a b _ _. rewrite !Nat.leb_le. lia.
    - intros a b c _ _ _. rewrite !Nat.leb_le. lia.
    - by apply Forall_forall. }
  destruct (last (most_common counter)) as [[c n]|] eqn:Hlast.
  - exists n. split; [done|].
    assert (Hc : counter !! c = Some n).
    { apply elem_of_map_to_list. rewrite <- Hperm.
      apply last_Some in Hlast as [l' ->]. apply elem_of_app. right. by left. }
    apply Counter_labels in Hc as [Hc Hpos].
    split; [done|]. split; [by exists c|].
    intros c' Hc'.
    assert (Hin : (c', class_size labels c') ∈ most_common counter).
    { rewrite Hperm. apply elem_of_map_to_list. by apply Counter_labels. }
    destruct (last_of_sorted _ _ _ Hsorted Hlast _ Hin) as [[= _ ->]|Hle];
      [done|]. by apply Nat.leb_le in Hle.
  - exfalso. apply last_None in Hlast.
    assert (Hnil : map_to_list counter = []).
    { apply Permutation_nil_r. by rewrite <- Hperm, Hlast. }
    apply map_to_list_empty_iff in Hnil.
    destruct (map_choose _ Hne) as (k & v & Hkv).
    assert (Hv : (0 < class_size labels v)%nat).
    { unfold class_size.
      assert (Hin : (k, v) ∈ filter (fun kv => kv.2 = v) (map_to_list labels)).
      { apply list_elem_of_filter. split; [done|]. by apply elem_of_map_to_list. }
      destruct (filter _ _); [by apply elem_of_nil in Hin|simpl; lia]. }
    assert (Hsome : counter !! v = Some (class_size labels v))
      by (by apply Counter_labels).
    by rewrite Hnil, lookup_empty in Hsome.
Qed.
End CounterFacts.

Lemma filter_ext_elem {A : Type} (P Q : A -> Prop)
    `{∀ x, Decision (P x)} `{∀ x, Decision (Q x)} (l : list A) :
  (∀ x, x ∈ l -> P x <-> Q x) -> filter P l = filter Q l.
Proof.
  induction l as [|x l IH]; intros Hext; [done|].
  rewrite !filter_cons.
  rewrite IH by (intros y Hy; apply Hext; by right).
  destruct (decide (P x)) as [HP|HP], (decide (Q x)) as [HQ|HQ]; try done;
    exfalso; apply (Hext x) in HP || apply (Hext x) in HQ; by (done || left).
Qed.

(** ** Paths *)

Section PathFacts.
Import FS.

Lemma strip_prefix_Some dir p q :
  strip_prefix dir p = Some q <-> p = dir ++ q.
Proof.
  revert p. induction dir as [|d dir IH]; intros p; simpl.
  - naive_solver.
  - destruct p as [|c p]; [naive_solver|].
    destruct (String.eqb_spec d c) as [->|Hne]; [|naive_solver].
    rewrite IH. naive_solver.
Qed.

Lemma below_iff dir p : below dir p <-> ∃ q, p = dir ++ q.
Proof.
  unfold below, is_Some. by setoid_rewrite strip_prefix_Some.
Qed.

Lemma below_app dir q : below dir (dir ++ q).
Proof. apply below_iff. by exists q. Qed.

Lemma below_refl p : below p p.
Proof. apply below_iff. exists []. by rewrite app_nil_r. Qed.

Lemma below_trans p q r : below p q -> below q r -> below p r.
Proof.
  intros [k ->]%below_iff [k' ->]%below_iff. apply below_iff.
  exists (k ++ k'). by rewrite app_assoc.
Qed.

Lemma below_length p q : below p q -> (length p <= length q)%nat.
Proof. intros [k ->]%below_iff. rewrite length_app. lia. Qed.

Lemma child_of_app dir c q : child_of dir (dir ++ c :: q) = Some c.
Proof.
  unfold child_of.
  by rewrite (proj2 (strip_prefix_Some dir (dir ++ c :: q) (c :: q))).
Qed.

Lemma child_of_Some dir p c :
  child_of dir p = Some c <-> ∃ q, p = dir ++ c :: q.
Proof.
  unfold child_of. split.
  - destruct (strip_prefix dir p) as [[|c' q]|] eqn:Hp; try done.
    intros [= ->]. exists q. by apply strip_prefix_Some.
  - intros [q ->].
    by rewrite (proj2 (strip_prefix_Some dir (dir ++ c :: q) (c :: q))).
Qed.

Lemma entries_spec w dir c :
  c ∈ entries w dir
  <-> ∃ q, is_Some (files w !! (dir ++ c :: q)) ∨ dir ++ c :: q ∈ dirs w.
Proof.
  unfold entries. rewrite elem_of_remove_dups, list_elem_of_omap.
  split.
  - intros (p & Hp & Hc). apply child_of_Some in Hc as [q ->]. exists q.
    apply elem_of_app in Hp as [Hp|Hp].
    + left. by apply elem_of_elements, elem_of_dom in Hp.
    + right. by apply elem_of_elements in Hp.
  - intros [q Hq]. exists (dir ++ c :: q). split; [|apply child_of_app].
    apply elem_of_app. destruct Hq as [Hq|Hq].
    + left. by apply elem_of_elements, elem_of_dom.
    + right. by apply elem_of_elements.
Qed.

Lemma entries_NoDup w dir : NoDup (entries w dir).
Proof. apply NoDup_remove_dups. Qed.

Lemma basename_snoc dir c : basename (dir ++ [c]) = c.
Proof. unfold basename. by rewrite last_snoc. Qed.

(** The ancestors of a path are the paths it lies below. *)
Lemma ancestors_spec p q : q ∈ ancestors p <-> below q p.
Proof.
  revert q. induction p as [|c p IH]; intros q; cbn [ancestors].
  - rewrite list_elem_of_singleton, below_iff. split.
    + intros ->. by exists [].
    + intros [k Hk]. symmetry in Hk. by apply app_eq_nil in Hk as [-> _].
  - rewrite elem_of_cons, list_elem_of_fmap, below_iff. split.
    + intros [->|(q' & -> & [k ->]%IH%below_iff)]; [by exists (c :: p)|].
      by exists k.
    + intros [k Hk]. destruct q as [|c' q']; [by left|]. right.
      injection Hk as -> ->. exists q'. split; [done|].
      apply IH, below_app.
Qed.

Lemma blocked_false w p :
  blocked w p = false <-> ∀ q, below q p -> files w !! q = None.
Proof.
  unfold blocked. rewrite <- not_true_iff_false, existsb_exists. split.
  - intros Hno q Hq. destruct (files w !! q) as [text|] eqn:Hf; [|done].
    destruct Hno. exists q. split.
    + by apply list_elem_of_In, ancestors_spec.
    + apply bool_decide_eq_true. rewrite Hf. by eexists.
  - intros Hall (q & Hq & Hf). apply list_elem_of_In, ancestors_spec in Hq.
    apply bool_decide_eq_true in Hf. rewrite (Hall q Hq) in Hf.
    by destruct Hf.
Qed.

(** A plain name is one step down from where it is looked up. *)
Lemma locate_plain base name :
  plain name = true -> locate base name = base ++ [name].
Proof.
  unfold plain. rewrite !andb_true_iff, !negb_true_iff, !String.eqb_neq.
  intros ((((Hsep%bool_decide_eq_true & _) & Hne) & Hdot) & Hdots).
  unfold locate. rewrite Hsep. cbn [fold_left].
  destruct name as [|c name]; [done|].
  replace (Ascii.eqb c "/") with false.
  - unfold walk. rewrite decide_False by (intros [?|?]; done).
    by rewrite decide_False.
  - symmetry. apply not_true_is_false. intros ->%Ascii.eqb_eq.
    cbn in Hsep. discriminate Hsep.
Qed.
End PathFacts.

(** ** The loops of the reorganisation *)

Section ReorgFacts.
Import FS Kaggle.
Variable readdir : list string -> list string.
Variable data_dir : list string.

Let tvt : list string := data_dir ++ ["train_valid_test"].
Let src (f : string) : list string := data_dir ++ ["train"; f].

Lemma tree_below part label q : below tvt (tree data_dir part label ++ q).
Proof.
  apply below_iff. exists (part :: label :: q).
  unfold tvt, tree. by rewrite <- !app_assoc.
Qed.

Lemma train_not_below q : ¬ below tvt (data_dir ++ "train" :: q).
Proof.
  intros [q' Hq]%below_iff. unfold tvt in Hq.
  rewrite <- app_assoc in Hq. by apply app_inv_head in Hq.
Qed.

Lemma test_not_below q : ¬ below tvt (data_dir ++ "test" :: q).
Proof.
  intros [q' Hq]%below_iff. unfold tvt in Hq.
  rewrite <- app_assoc in Hq. by apply app_inv_head in Hq.
Qed.

Lemma target_plain part label :
  plain label = true -> target data_dir part label = tree data_dir part label.
Proof.
  intros Hplain. unfold target, tree. rewrite locate_plain by done.
  by rewrite <- app_assoc.
Qed.

Lemma tree_length part label :
  length (tree data_dir part label) = (length data_dir + 3)%nat.
Proof. unfold tree. rewrite length_app. cbn [length]. lia. Qed.

(** A path that a class directory lies below is above
    [train_valid_test] or below it. *)
Lemma above_tree part label p :
  below p (tree data_dir part label) ->
  (below tvt p ∧ (length p <= length data_dir + 3)%nat) ∨ below p data_dir.
Proof.
  intros Hp. pose proof (below_length _ _ Hp) as Hlen.
  rewrite tree_length in Hlen.
  apply below_iff in Hp as [k Hk]. unfold tree in Hk.
  apply app_eq_inv in Hk as [(k0 & -> & Hk)|(k0 & -> & Hk)].
  - right. apply below_app.
  - destruct k0 as [|c k0].
    + right. rewrite app_nil_r. apply below_refl.
    + left. injection Hk as <- Hk. split; [|done].
      apply below_iff. exists k0. unfold tvt. by rewrite <- app_assoc.
Qed.

(** *** One copy *)

Lemma mkdir_if_not_exist_spec target_dir w :
  files (mkdir_if_not_exist target_dir w).1 = files w ∧
  copied (mkdir_if_not_exist target_dir w).1 = copied w ∧
  dirs w ⊆ dirs (mkdir_if_not_exist target_dir w).1 ∧
  (∀ p, p ∈ dirs (mkdir_if_not_exist target_dir w).1 ->
        p ∈ dirs w ∨ below p target_dir).
Proof.
  unfold mkdir_if_not_exist, makedirs.
  destruct (decide _) as [?|?]; [cbn [fst]; by auto|].
  destruct (blocked w target_dir); cbn [fst files dirs copied];
    [by auto|].
  do 2 (split; [done|]). split; [apply union_subseteq_l|].
  intros p [?|Hp]%elem_of_union; [by left|right].
  by apply elem_of_list_to_set, ancestors_spec in Hp.
Qed.

Lemma shutil_copy_spec filename target_dir w :
  (shutil_copy filename target_dir w).1 = w
  ∨ ∃ contents dst,
      files w !! filename = Some contents ∧ below target_dir dst ∧
      shutil_copy filename target_dir w
      = ({| files := <[dst := contents]> (files w);
            dirs := dirs w;
            copied := copied w ++ [(filename, dst)] |}, Ok ()).
Proof.
  unfold shutil_copy. cbv zeta.
  set (dst := if decide (target_dir ∈ dirs w)
              then target_dir ++ [basename filename] else target_dir).
  destruct (files w !! filename) as [contents|]; [|by left].
  assert (below target_dir dst).
  { unfold dst. destruct (decide _); [apply below_app|apply below_refl]. }
  destruct (decide (dst = filename)); [by left|].
  destruct (decide (dst ∈ dirs w)); [by left|].
  destruct (decide (removelast dst ∈ dirs w)); [|by left].
  right. by exists contents, dst.
Qed.

(** What a copy does to any world: it makes directories on the way to
    its target and writes at most one file, in the target or onto
    it. *)
Lemma copyfile_spec filename target_dir w :
  dirs w ⊆ dirs (copyfile filename target_dir w).1 ∧
  (∀ p, p ∈ dirs (copyfile filename target_dir w).1 ->
        p ∈ dirs w ∨ below p target_dir) ∧
  ((files (copyfile filename target_dir w).1 = files w ∧
    copied (copyfile filename target_dir w).1 = copied w)
   ∨ ∃ contents dst,
       files w !! filename = Some contents ∧ below target_dir dst ∧
       files (copyfile filename target_dir w).1
       = <[dst := contents]> (files w) ∧
       copied (copyfile filename target_dir w).1
       = copied w ++ [(filename, dst)] ∧
       (copyfile filename target_dir w).2 = Ok ()).
Proof.
  unfold copyfile, mbind, io_bind.
  destruct (mkdir_if_not_exist_spec target_dir w) as (Hf & Hc & Hsub & Hnew).
  destruct (mkdir_if_not_exist target_dir w) as [w0 [[]|e]]; cbn [fst snd] in *.
  - destruct (shutil_copy_spec filename target_dir w0)
      as [Hsame|(contents & dst & Hsrc & Hbelow & Hrun)].
    + rewrite Hsame. by auto.
    + rewrite Hrun. cbn [fst snd files dirs copied].
      split; [done|]. split; [done|]. right. exists contents, dst.
      by rewrite <- Hf, <- Hc.
  - by auto.
Qed.

(** A copy leaves alone whatever is not below its target directory. *)
Lemma copyfile_frame filename target_dir w p :
  ¬ below target_dir p ->
  files (copyfile filename target_dir w).1 !! p = files w !! p.
Proof.
  intros Hp.
  destruct (copyfile_spec filename target_dir w)
    as (_ & _ & [[-> _]|(contents & dst & _ & Hdst & -> & _)]); [done|].
  apply lookup_insert_ne. by intros <-.
Qed.

(** A copy into a class directory of a tidy world goes through, and
    leaves the world tidy. *)
Lemma copyfile_ready from part label f w contents :
  tidy data_dir w -> plain label = true ->
  files w !! from = Some contents -> basename from = f ->
  ¬ below tvt from ->
  ∃ w', copyfile from (target data_dir part label) w = (w', Ok ()) ∧
        files w' = <[tree data_dir part label ++ [f] := contents]> (files w) ∧
        copied w' = copied w ++ [(from, tree data_dir part label ++ [f])] ∧
        tidy data_dir w' ∧ dirs w ⊆ dirs w'.
Proof.
  intros [Habove Hbelow] Hplain Hfrom Hbase Hout.
  rewrite target_plain by done. set (T := tree data_dir part label).
  assert (HT : below tvt T).
  { rewrite <- (app_nil_r T). apply tree_below. }
  assert (HlenT : length T = (length data_dir + 3)%nat) by apply tree_length.
  assert (Hdst : below tvt (T ++ [f])) by apply tree_below.
  assert (Hfree : blocked w T = false).
  { apply blocked_false. intros q Hq.
    destruct (above_tree part label q Hq) as [[Hq' Hlen]|Hq']; [|by apply Habove].
    destruct (files w !! q) as [text|] eqn:Hfile; [|done].
    destruct (Hbelow q Hq') as [Hfour _].
    rewrite Hfile in Hfour. specialize (Hfour ltac:(by eexists)). lia. }
  assert (HTfile : files w !! T = None).
  { by apply (proj1 (blocked_false w T)); [|apply below_refl]. }
  assert (Hmk : ∃ w0, mkdir_if_not_exist T w = (w0, Ok ()) ∧
                      files w0 = files w ∧ copied w0 = copied w ∧
                      T ∈ dirs w0 ∧ dirs w ⊆ dirs w0 ∧
                      ∀ p, p ∈ dirs w0 -> p ∈ dirs w ∨ below p T).
  { unfold mkdir_if_not_exist.
    destruct (decide _) as [[Hs|Hd]|Hno].
    - rewrite HTfile in Hs. by destruct Hs.
    - exists w. repeat split; auto.
    - unfold makedirs. rewrite Hfree. eexists. split; [done|].
      cbn [files dirs copied]. repeat split; [|apply union_subseteq_l|].
      + apply elem_of_union_r, elem_of_list_to_set, ancestors_spec, below_refl.
      + intros p [?|Hp]%elem_of_union; [by left|right].
        by apply elem_of_list_to_set, ancestors_spec in Hp. }
  destruct Hmk as (w0 & Hmk & Hf0 & Hc0 & HTdir & Hsub & Hnew).
  assert (Hnodir : T ++ [f] ∉ dirs w0).
  { intros [Hd|Hd]%Hnew.
    - destruct (Hbelow _ Hdst) as [_ Hthree]. specialize (Hthree Hd).
      rewrite length_app, HlenT in Hthree. cbn [length] in Hthree. lia.
    - apply below_length in Hd. rewrite length_app in Hd.
      cbn [length] in Hd. lia. }
  eexists. split; [|split; [|split; [|split]]].
  - unfold copyfile, mbind, io_bind. rewrite Hmk.
    unfold shutil_copy. rewrite decide_True by done.
    rewrite Hf0, Hfrom, Hbase.
    rewrite decide_False by (intros <-; done).
    rewrite decide_False by done.
    rewrite removelast_last, decide_True by done. reflexivity.
  - done.
  - cbn [copied]. by rewrite Hc0.
  - split; cbn [files dirs].
    + intros q Hq. rewrite lookup_insert_ne; [by apply Habove|].
      intros <-. apply below_length in Hq. rewrite length_app, HlenT in Hq.
      cbn [length] in Hq. lia.
    + intros p Hp. split.
      * destruct (decide (p = T ++ [f])) as [->|Hne].
        -- intros _. rewrite length_app, HlenT. cbn [length]. lia.
        -- rewrite lookup_insert_ne by done. by apply Hbelow.
      * intros [Hd|Hd]%Hnew; [by apply Hbelow|].
        apply below_length in Hd. lia.
  - done.
Qed.

Lemma basename_src f : basename (src f) = f.
Proof.
  unfold src. change ["train"; f] with (["train"] ++ [f]).
  by rewrite app_assoc, basename_snoc.
Qed.

Section Loop.
Variables (labels : gmap string string) (nv : Z).
Hypothesis nv_pos : 1 <= nv.
Hypothesis labels_plain :
  ∀ name label, labels !! name = Some label -> plain label = true.

Lemma loop_outcome_labelled f fs label :
  labels !! stem f = Some label -> loop_outcome labels (f :: fs) = loop_outcome labels fs.
Proof.
  intros Hlabel. unfold loop_outcome. cbn [list_find].
  rewrite decide_False by congruence.
  by destruct (list_find _ fs) as [[? ?]|].
Qed.

Lemma loop_outcome_unlabelled f fs :
  labels !! stem f = None -> loop_outcome labels (f :: fs) = Raise (KeyError (stem f)).
Proof.
  intros Hlabel. unfold loop_outcome. cbn [list_find].
  by rewrite decide_True.
Qed.

(** Every planned copy takes a listed, labelled file of [train] into
    one of the three trees, under the file's own name. *)
Lemma planned_copies_entry fs lc e :
  e ∈ planned_copies data_dir labels nv fs lc ->
  ∃ f part label,
    f ∈ fs ∧ labels !! stem f = Some label ∧
    part ∈ ["train_valid"; "valid"; "train"] ∧
    e = (src f, tree data_dir part label ++ [f]).
Proof.
  revert lc. induction fs as [|f fs IH]; intros lc; cbn [planned_copies].
  - by intros ?%elem_of_nil.
  - destruct (labels !! stem f) as [label|] eqn:Hlabel;
      [|by intros ?%elem_of_nil].
    intros [->|He]%elem_of_cons.
    { exists f, "train_valid", label. repeat split; try done; [left|left]. }
    destruct (_ <? nv)%Z; apply elem_of_cons in He as [->|He].
    + exists f, "valid", label. repeat split; try done; [left|right; left].
    + destruct (IH _ He) as (f' & part & label' & ? & ? & ? & ->).
      exists f', part, label'. repeat split; try done. by right.
    + exists f, "train", label.
      repeat split; try done; [left|right; right; left].
    + destruct (IH _ He) as (f' & part & label' & ? & ? & ? & ->).
      exists f', part, label'. repeat split; try done. by right.
Qed.

Lemma tree_inj part label f part' label' f' :
  tree data_dir part label ++ [f] = tree data_dir part' label' ++ [f'] ->
  part = part' ∧ label = label' ∧ f = f'.
Proof.
  unfold tree. rewrite <- !app_assoc. intros H%app_inv_head.
  by simplify_eq.
Qed.

Lemma src_inj f f' : src f = src f' -> f = f'.
Proof. unfold src. intros H%app_inv_head. by simplify_eq. Qed.

Lemma planned_copies_other fs lc f part label :
  f ∉ fs ->
  (src f, tree data_dir part label ++ [f])
    ∉ planned_copies data_dir labels nv fs lc.
Proof.
  intros Hf He.
  destruct (planned_copies_entry _ _ _ He) as (f' & ? & ? & Hf' & _ & _ & Heq).
  injection Heq as Hsrc%src_inj _. by subst.
Qed.

Lemma planned_copies_dst_other fs lc part label f :
  f ∉ fs ->
  tree data_dir part label ++ [f]
    ∉ (planned_copies data_dir labels nv fs lc).*2.
Proof.
  intros Hf Hd. apply list_elem_of_fmap in Hd as (e & Hd & He).
  destruct (planned_copies_entry _ _ _ He) as (f' & ? & ? & Hf' & _ & _ & ->).
  cbn [snd] in Hd. apply tree_inj in Hd as (_ & _ & ->). done.
Qed.

Lemma train_valid_loop_spec fs lc w :
  tidy data_dir w ->
  (∀ f, f ∈ fs -> is_Some (files w !! src f)) ->
  ∃ w', train_valid_loop data_dir labels nv fs lc w
          = (w', loop_outcome labels fs) ∧
        copied w' = copied w ++ planned_copies data_dir labels nv fs lc ∧
        (∀ p, p ∉ (planned_copies data_dir labels nv fs lc).*2 ->
              files w' !! p = files w !! p) ∧
        (NoDup fs ->
         ∀ e, e ∈ planned_copies data_dir labels nv fs lc ->
              files w' !! e.2 = files w !! e.1) ∧
        tidy data_dir w' ∧ dirs w ⊆ dirs w'.
Proof.
  revert lc w. induction fs as [|f fs IH]; intros lc w Htidy Hsrc.
  - exists w. rewrite app_nil_r. do 3 (split; [done|]).
    split; [by intros _ e ?%elem_of_nil|done].
  - cbn [train_valid_loop planned_copies].
    destruct (Hsrc f) as [contents Hf]; [by left|].
    unfold Py.dict_getitem.
    destruct (labels !! stem f) as [label|] eqn:Hlabel.
    2:{ exists w. rewrite loop_outcome_unlabelled by done.
        rewrite app_nil_r. do 3 (split; [done|]).
        split; [by intros _ e ?%elem_of_nil|done]. }
    pose proof (labels_plain _ _ Hlabel) as Hplain.
    rewrite (loop_outcome_labelled _ _ _ Hlabel).
    unfold mbind at 1, io_bind at 1, lift at 1. cbv beta iota.
    unfold mbind at 1, io_bind at 1.
    destruct (copyfile_ready (data_dir ++ ["train"; f]) "train_valid" label
                f w contents Htidy Hplain Hf (basename_src f)
                (train_not_below [f]))
      as (w1 & Hrun1 & Hfiles1 & Hlog1 & Htidy1 & Hdirs1).
    rewrite Hrun1.
    assert (Hf1 : files w1 !! src f = Some contents).
    { rewrite Hfiles1, lookup_insert_ne; [done|].
      intros Heq. apply (train_not_below [f]). fold (src f).
      rewrite <- Heq. apply tree_below. }
    assert (Hstep : ∀ part lc',
      ∃ w', (copyfile (data_dir ++ ["train"; f]) (target data_dir part label)
               ≫= (fun _ => train_valid_loop data_dir labels nv fs lc')) w1
            = (w', loop_outcome labels fs) ∧
            copied w' = copied w ++
              (data_dir ++ ["train"; f], tree data_dir "train_valid" label ++ [f]) ::
              (data_dir ++ ["train"; f], tree data_dir part label ++ [f]) ::
              planned_copies data_dir labels nv fs lc' ∧
            (∀ p, p ∉ ((data_dir ++ ["train"; f],
                        tree data_dir "train_valid" label ++ [f]) ::
                       (data_dir ++ ["train"; f],
                        tree data_dir part label ++ [f]) ::
                       planned_copies data_dir labels nv fs lc').*2 ->
                  files w' !! p = files w !! p) ∧
            (NoDup (f :: fs) ->
             ∀ e, e ∈ (data_dir ++ ["train"; f],
                       tree data_dir "train_valid" label ++ [f]) ::
                      (data_dir ++ ["train"; f],
                       tree data_dir part label ++ [f]) ::
                      planned_copies data_dir labels nv fs lc' ->
                  files w' !! e.2 = files w !! e.1) ∧
            tidy data_dir w' ∧ dirs w ⊆ dirs w').
    { intros part lc'. unfold mbind at 1, io_bind at 1.
      destruct (copyfile_ready (data_dir ++ ["train"; f]) part label
                  f w1 contents Htidy1 Hplain Hf1 (basename_src f)
                  (train_not_below [f]))
        as (w2 & Hrun2 & Hfiles2 & Hlog2 & Htidy2 & Hdirs2).
      rewrite Hrun2.
      destruct (IH lc' w2) as (w' & Hrun & Hlog & Hframe & Hcont & Htidy' & Hdirs');
        [done| |].
      - intros f' Hf'. rewrite Hfiles2, Hfiles1, !lookup_insert_ne.
        + apply Hsrc. by right.
        + intros Heq. apply (train_not_below [f']). fold (src f').
          rewrite <- Heq. apply tree_below.
        + intros Heq. apply (train_not_below [f']). fold (src f').
          rewrite <- Heq. apply tree_below.
      - exists w'. split; [done|]. split.
        + rewrite Hlog, Hlog2, Hlog1. by rewrite <- !app_assoc.
        + split; [|split; [|split; [done|by do 2 (etrans; [done|])]]].
          * intros p Hp. rewrite !fmap_cons in Hp. cbn [snd] in Hp.
            apply not_elem_of_cons in Hp as [Hp1 Hp].
            apply not_elem_of_cons in Hp as [Hp2 Hp].
            rewrite Hframe by done. rewrite Hfiles2, Hfiles1.
            by rewrite !lookup_insert_ne.
          * intros [Hfresh Hnd]%NoDup_cons e He.
            assert (Hw2 : ∀ part',
              files w2 !! (tree data_dir part' label ++ [f]) = Some contents
              ∨ part' ≠ "train_valid" ∧ part' ≠ part).
            { intros part'. rewrite Hfiles2, Hfiles1.
              destruct (decide (part' = part)) as [->|?];
                [left; apply lookup_insert_eq|].
              destruct (decide (part' = "train_valid")) as [->|?];
                [|by right].
              left. rewrite lookup_insert_ne, lookup_insert_eq; [done|].
              intros (? & _)%tree_inj. done. }
            apply elem_of_cons in He as [->|He]; cbn [fst snd].
            { rewrite Hframe by (by apply planned_copies_dst_other).
              fold (src f). rewrite Hf.
              by destruct (Hw2 "train_valid") as [?|[? _]]. }
            apply elem_of_cons in He as [->|He]; cbn [fst snd].
            { rewrite Hframe by (by apply planned_copies_dst_other).
              fold (src f). rewrite Hf.
              by destruct (Hw2 part) as [?|[_ ?]]. }
            rewrite (Hcont Hnd e He).
            destruct (planned_copies_entry _ _ _ He)
              as (f' & ? & ? & _ & _ & _ & ->).
            cbn [fst]. rewrite Hfiles2, Hfiles1.
            rewrite !lookup_insert_ne; [done|..];
              intros Heq; apply (train_not_below [f']); fold (src f');
              rewrite <- Heq; apply tree_below. }
    destruct (lc !! label) as [count|] eqn:Hcount;
      cbn [default from_option id].
    + destruct (count <? nv)%Z; apply Hstep.
    + replace (0 <? nv)%Z with true by (symmetry; apply Z.ltb_lt; lia).
      apply Hstep.
Qed.


Section Labelled.
Variable fs : list string.
Hypothesis fs_NoDup : NoDup fs.
Hypothesis fs_labelled : ∀ f, f ∈ fs -> is_Some (labels !! stem f).

Lemma planned_train_valid lc f label :
  f ∈ fs -> labels !! stem f = Some label ->
  (src f, tree data_dir "train_valid" label ++ [f])
    ∈ planned_copies data_dir labels nv fs lc.
Proof.
  clear fs_NoDup. revert lc fs_labelled.
  induction fs as [|g rest IH]; intros lc Hlab Hf Hlabel;
    [by apply elem_of_nil in Hf|].
  cbn [planned_copies].
  destruct (Hlab g) as [lg Hlg]; [by left|]. rewrite Hlg.
  apply elem_of_cons in Hf as [->|Hf].
  - replace lg with label by congruence. left.
  - right. destruct (_ <? nv)%Z; right; apply IH; auto;
      intros; apply Hlab; by right.
Qed.

Lemma planned_exactly_one lc f label :
  f ∈ fs -> labels !! stem f = Some label ->
  (src f, tree data_dir "valid" label ++ [f])
    ∈ planned_copies data_dir labels nv fs lc
  <-> (src f, tree data_dir "train" label ++ [f])
    ∉ planned_copies data_dir labels nv fs lc.
Proof.
  revert lc fs_NoDup fs_labelled.
  induction fs as [|g rest IH]; intros lc Hnd Hlab Hf Hlabel;
    [by apply elem_of_nil in Hf|].
  apply NoDup_cons in Hnd as [Hg Hnd].
  cbn [planned_copies].
  destruct (Hlab g) as [lg Hlg]; [by left|]. rewrite Hlg. fold (src g).
  assert (Hlab' : ∀ f', f' ∈ rest -> is_Some (labels !! stem f'))
    by (intros; apply Hlab; by right).
  apply elem_of_cons in Hf as [->|Hf].
  - assert (lg = label) as -> by congruence.
    pose proof (planned_copies_other rest lc g "valid" label Hg).
    pose proof (planned_copies_other rest lc g "train" label Hg).
    pose proof (planned_copies_other rest
                  (<[label := default 0 (lc !! label) + 1]> lc)
                  g "valid" label Hg).
    pose proof (planned_copies_other rest
                  (<[label := default 0 (lc !! label) + 1]> lc)
                  g "train" label Hg).
    destruct (_ <? nv)%Z; rewrite !elem_of_cons; split.
    + intros _ [Heq|[Heq|?]]; [| |done];
        injection Heq as Heq%tree_inj; naive_solver.
    + intros _. right. by left.
    + intros [Heq|[Heq|?]]; [| |done];
        injection Heq as Heq%tree_inj; naive_solver.
    + intros Hno. destruct Hno. right. by left.
  - assert (f ≠ g) by (by intros ->).
    assert (Hskip : ∀ part part' tail,
      (src f, tree data_dir part label ++ [f])
        ∈ (src g, tree data_dir "train_valid" lg ++ [g]) ::
          (src g, tree data_dir part' lg ++ [g]) :: tail
      <-> (src f, tree data_dir part label ++ [f]) ∈ tail).
    { intros part part' tail. rewrite !elem_of_cons. split; [|auto].
      intros [Heq|[Heq|?]]; [| |done];
        injection Heq as Heq%src_inj _; done. }
    destruct (_ <? nv)%Z; rewrite !Hskip; by apply IH.
Qed.

Lemma planned_valid_count lc c :
  length (filter (fun f => (src f, tree data_dir "valid" c ++ [f])
                             ∈ planned_copies data_dir labels nv fs lc) fs)
  = Z.to_nat (Z.min (Z.max 0 (nv - default 0 (lc !! c)))
                    (Z.of_nat (length
                       (filter (fun f => labels !! stem f = Some c) fs)))).
Proof.
  revert lc fs_NoDup fs_labelled.
  induction fs as [|g rest IH]; intros lc Hnd Hlab.
  { cbn. lia. }
  apply NoDup_cons in Hnd as [Hg Hnd].
  assert (Hlab' : ∀ f', f' ∈ rest -> is_Some (labels !! stem f'))
    by (intros; apply Hlab; by right).
  cbn [planned_copies].
  destruct (Hlab g) as [lg Hlg]; [by left|]. rewrite Hlg. fold (src g).
  assert (Hskip : ∀ part' tail,
    filter (fun f => (src f, tree data_dir "valid" c ++ [f])
        ∈ (src g, tree data_dir "train_valid" lg ++ [g]) ::
          (src g, tree data_dir part' lg ++ [g]) :: tail) rest
    = filter (fun f => (src f, tree data_dir "valid" c ++ [f]) ∈ tail) rest).
  { intros part' tail. apply filter_ext_elem. intros f Hf.
    assert (f ≠ g) by (by intros ->).
    rewrite !elem_of_cons. split; [|auto].
    intros [Heq|[Heq|?]]; [| |done];
      injection Heq as Heq%src_inj _; done. }
  assert (Hhead : ∀ part' tail,
    (∀ part label, (src g, tree data_dir part label ++ [g]) ∉ tail) ->
    (src g, tree data_dir "valid" c ++ [g])
        ∈ (src g, tree data_dir "train_valid" lg ++ [g]) ::
          (src g, tree data_dir part' lg ++ [g]) :: tail
    <-> part' = "valid" ∧ lg = c).
  { intros part' tail Htail. rewrite !elem_of_cons. split.
    - intros [Heq|[Heq|?]]; [| |by destruct (Htail "valid" c)];
        injection Heq as Heq%tree_inj; naive_solver.
    - intros [-> ->]. right. by left. }
  rewrite !filter_cons, Hlg.
  destruct (Z.ltb_spec (default 0 (lc !! lg)) nv) as [Hlt|Hge];
    cbv iota;
    (destruct (decide (_ ∈ _ :: _ :: _)) as [Hin|Hnin];
      [apply Hhead in Hin; [|intros; by apply planned_copies_other]
      |rewrite Hhead in Hnin by (intros; by apply planned_copies_other)]);
    destruct (decide (Some lg = Some c)) as [[= ->]|Hne];
    rewrite Hskip; cbn [length]; rewrite IH by done;
    rewrite ?lookup_insert_eq; cbn [default from_option id];
    try lia; try (destruct Hin; congruence);
    try (destruct Hnin; done).
  - rewrite lookup_insert_ne by congruence. done.
Qed.
End Labelled.

Lemma planned_copies_stop pre f post lc :
  (∀ g, g ∈ pre -> is_Some (labels !! stem g)) ->
  labels !! stem f = None ->
  planned_copies data_dir labels nv (pre ++ f :: post) lc
  = planned_copies data_dir labels nv pre lc
  ∧ loop_outcome labels (pre ++ f :: post) = Raise (KeyError (stem f)).
Proof.
  intros Hpre Hf. revert lc.
  induction pre as [|g pre IH]; intros lc.
  - cbn [app planned_copies]. rewrite Hf.
    by rewrite loop_outcome_unlabelled.
  - destruct (Hpre g) as [lg Hlg]; [by left|].
    assert (Hpre' : ∀ g', g' ∈ pre -> is_Some (labels !! stem g'))
      by (intros; apply Hpre; by right).
    cbn [app planned_copies]. rewrite Hlg.
    rewrite (loop_outcome_labelled _ _ _ Hlg).
    split; [|by apply (IH Hpre' lc)].
    destruct (_ <? nv)%Z; do 2 f_equal; by apply IH.
Qed.
End Loop.

(** *** What lies outside [train_valid_test] *)

(** Between two worlds, the regular files outside [train_valid_test]
    are as they were, no directory is lost, and a new directory is
    [train_valid_test], below it, or above it. *)
Let kept (w w' : world) : Prop :=
  (∀ p, ¬ below tvt p -> files w' !! p = files w !! p) ∧
  directories_kept data_dir w w'.

Let keeps {A : Type} (m : io A) : Prop := ∀ w, kept w (m w).1.

Lemma kept_refl w : kept w w.
Proof. split; [done|]. split; [done|]. by intros p ? ?. Qed.

Lemma kept_trans w1 w2 w3 : kept w1 w2 -> kept w2 w3 -> kept w1 w3.
Proof.
  intros (Hf1 & Hsub1 & Hnew1) (Hf2 & Hsub2 & Hnew2).
  split; [|split].
  - intros p Hp. by rewrite Hf2, Hf1.
  - by etrans.
  - intros p Hp Hnot. destruct (decide (p ∈ dirs w2)); auto.
Qed.

Lemma keeps_bind {A B : Type} (m : io A) (k : A -> io B) :
  keeps m -> (∀ a, keeps (k a)) -> keeps (m ≫= k).
Proof.
  intros Hm Hk w. unfold mbind, io_bind.
  specialize (Hm w). destruct (m w) as [w1 [a|e]]; cbn [fst] in *; [|done].
  eapply kept_trans; [done|apply Hk].
Qed.

Lemma keeps_pure {A : Type} (m : io A) : (∀ w, (m w).1 = w) -> keeps m.
Proof. intros Hm w. rewrite Hm. apply kept_refl. Qed.

Lemma keeps_copyfile filename part label :
  plain label = true ->
  keeps (copyfile filename (target data_dir part label)).
Proof.
  intros Hplain w. rewrite target_plain by done.
  destruct (copyfile_spec filename (tree data_dir part label) w)
    as (Hsub & Hnew & _).
  split; [|split; [done|]].
  - intros p Hp. apply copyfile_frame. intros [q ->]%below_iff.
    apply Hp, tree_below.
  - intros p [?|Hp]%Hnew Hnot; [done|].
    destruct (above_tree part label p Hp) as [[? _]|Hp']; [by left|right].
    eapply below_trans; [done|]. apply below_app.
Qed.

Lemma keeps_train_valid_loop labels nv fs lc :
  (∀ name label, labels !! name = Some label -> plain label = true) ->
  keeps (train_valid_loop data_dir labels nv fs lc).
Proof.
  intros Hplain. revert lc.
  induction fs as [|f fs IH]; intros lc; cbn [train_valid_loop].
  - by apply keeps_pure.
  - intros w. unfold mbind at 1, io_bind at 1, lift at 1, Py.dict_getitem.
    destruct (labels !! stem f) as [label|] eqn:Hlabel; [|apply kept_refl].
    apply Hplain in Hlabel. revert w.
    apply keeps_bind; [by apply keeps_copyfile|]. intros _.
    destruct (lc !! label) as [count|]; [destruct (_ <? nv)%Z|];
      (apply keeps_bind; [by apply keeps_copyfile|]; intros _; apply IH).
Qed.

Lemma listdir_world dir w : (listdir readdir dir w).1 = w.
Proof. unfold listdir. by destruct (decide _). Qed.

Lemma keeps_reorg_train_valid labels valid_ratio :
  (∀ name label, labels !! name = Some label -> plain label = true) ->
  keeps (reorg_train_valid readdir data_dir labels valid_ratio).
Proof.
  intros Hplain. unfold reorg_train_valid.
  apply keeps_bind; [by apply keeps_pure|]. intros n.
  apply keeps_bind; [by apply keeps_pure|]. intros nv.
  apply keeps_bind; [apply keeps_pure, listdir_world|]. intros train_files.
  apply keeps_bind; [by apply keeps_train_valid_loop|]. intros _.
  by apply keeps_pure.
Qed.





(** *** The buckets of [reorg_train_valid] *)

Section Listed.
Hypothesis readdir_perm : ∀ l, readdir l ≡ₚ l.
Variable w : world.

Let train_files := entries w (data_dir ++ ["train"]).
Let listing := readdir train_files.

Lemma listing_elem f : f ∈ listing <-> f ∈ train_files.
Proof. unfold listing. by rewrite readdir_perm. Qed.

Lemma listing_NoDup : NoDup listing.
Proof. unfold listing. rewrite readdir_perm. apply entries_NoDup. Qed.

Lemma listing_filter_length (P : string -> Prop) `{∀ f, Decision (P f)} :
  length (filter P listing) = length (filter P train_files).
Proof. unfold listing. by rewrite readdir_perm. Qed.
End Listed.

Lemma valid_per_label_Ok n valid_ratio :
  F64.is_finite (F64.mul (F64.of_Z (Z.of_nat n)) valid_ratio) = true ->
  ∃ k, floor (F64.mul (F64.of_Z (Z.of_nat n)) valid_ratio) = Ok k ∧
       valid_per_label n valid_ratio = Ok (Z.max 1 k).
Proof.
  unfold valid_per_label.
  destruct (F64.mul _ _) as [s|s| |s m e]; try done; intros _;
    eexists; split; reflexivity.
Qed.

Lemma valid_per_label_Raise n valid_ratio :
  F64.is_finite (F64.mul (F64.of_Z (Z.of_nat n)) valid_ratio) = false ->
  valid_per_label n valid_ratio = Raise ValueError
  ∨ valid_per_label n valid_ratio = Raise OverflowError.
Proof.
  unfold valid_per_label.
  destruct (F64.mul _ _) as [s|s| |s m e]; try done; intros _; auto.
Qed.

(** C3, as the code has it.  Let [n] be the size of a smallest class of
    the label map, let the binary64 product [n * valid_ratio] be finite,
    let the labels be plain names, let [data_dir/train] be a directory
    whose entries are regular files with names of at most one dot (so
    that the part before the first dot is the name without its
    extension), each with an entry in the map under that name, and let
    nothing be in the way under [train_valid_test].  Then
    [reorg_train_valid] returns max(1, floor(n * valid_ratio)); it
    copies every file of [train] into
    [train_valid_test/train_valid/<label>], where <label> is the map
    entry of the name without its extension, and into exactly one of
    [train_valid_test/valid/<label>] and
    [train_valid_test/train/<label>]; and for every class, the number of
    files sent to [valid] is the smaller of that returned number and of
    the number of files of the class in [train]. *)
Theorem reorg_train_valid_buckets labels valid_ratio w n :
  (∀ l, readdir l ≡ₚ l) ->
  least_count labels = Ok n ->
  F64.is_finite (F64.mul (F64.of_Z (Z.of_nat n)) valid_ratio) = true ->
  (∀ name label, labels !! name = Some label -> plain label = true) ->
  data_dir ++ ["train"] ∈ dirs w ->
  tidy data_dir w ->
  (∀ f, f ∈ entries w (data_dir ++ ["train"]) ->
        is_Some (files w !! (data_dir ++ ["train"; f]))
        ∧ stem f = strip_extension f
        ∧ is_Some (labels !! strip_extension f)) ->
  ∃ k w' new,
    (∃ c, class_size labels c = n) ∧
    (∀ c, (0 < class_size labels c)%nat -> (n <= class_size labels c)%nat) ∧
    floor (F64.mul (F64.of_Z (Z.of_nat n)) valid_ratio) = Ok k ∧
    reorg_train_valid readdir data_dir labels valid_ratio w
      = (w', Ok (Z.max 1 k)) ∧
    copied w' = copied w ++ new ∧
    (∀ f label,
       f ∈ entries w (data_dir ++ ["train"]) ->
       labels !! strip_extension f = Some label ->
       let from := data_dir ++ ["train"; f] in
       let into part := tree data_dir part label ++ [f] in
       (from, into "train_valid") ∈ new ∧
       files w' !! (into "train_valid") = files w !! from ∧
       (((from, into "valid") ∈ new ∧ ((from, into "train") ∉ new) ∧
         files w' !! (into "valid") = files w !! from)
        ∨
        (((from, into "valid") ∉ new) ∧ (from, into "train") ∈ new ∧
         files w' !! (into "train") = files w !! from))) ∧
    (∀ c,
       length (filter (fun f => (data_dir ++ ["train"; f],
                                 tree data_dir "valid" c ++ [f]) ∈ new)
                 (entries w (data_dir ++ ["train"])))
       = Z.to_nat (Z.min (Z.max 1 k)
                    (Z.of_nat (length
                       (filter (fun f => labels !! strip_extension f = Some c)
                          (entries w (data_dir ++ ["train"]))))))).
Proof.
  intros Hperm Hn Hfin Hplain Hdir Htidy Hfiles.
  assert (Hne : labels ≠ ∅).
  { intros ->. by vm_compute in Hn. }
  destruct (least_count_spec labels Hne) as (n' & Hn' & _ & Hclass & Hleast).
  assert (n' = n) as -> by congruence.
  destruct (valid_per_label_Ok n valid_ratio Hfin) as (k & Hk & Hnv).
  set (nv := Z.max 1 k) in *.
  assert (Hpos : 1 <= nv) by (unfold nv; lia).
  set (listing := readdir (entries w (data_dir ++ ["train"]))).
  assert (Hin : ∀ f, f ∈ listing <-> f ∈ entries w (data_dir ++ ["train"]))
    by (intros f; by apply listing_elem).
  assert (Hnd : NoDup listing) by (by apply listing_NoDup).
  assert (Hstem : ∀ f, f ∈ entries w (data_dir ++ ["train"]) ->
                       stem f = strip_extension f)
    by (intros f Hf; by apply Hfiles).
  assert (Hlab : ∀ f, f ∈ listing -> is_Some (labels !! stem f)).
  { intros f Hf%Hin. rewrite (Hstem f Hf). by apply Hfiles. }
  destruct (train_valid_loop_spec labels nv Hpos Hplain listing ∅ w Htidy)
    as (w' & Hrun & Hlog & Hframe & Hcont & _).
  { intros f Hf%Hin. by apply Hfiles. }
  specialize (Hcont Hnd).
  exists k, w', (planned_copies data_dir labels nv listing ∅).
  split; [done|]. split; [done|]. split; [done|].
  split; [|split; [done|split]].
  - unfold reorg_train_valid, mbind, io_bind, lift, listdir. rewrite Hn.
    cbv beta iota. rewrite Hnv. cbv beta iota.
    rewrite decide_True by done. fold listing. rewrite Hrun.
    assert (Hout : loop_outcome labels listing = Ok ()).
    { unfold loop_outcome.
      destruct (list_find _ listing) as [[i f]|] eqn:Hfind; [|done].
      apply list_find_Some in Hfind as (Hf & Hnone & _).
      apply list_elem_of_lookup_2, Hlab in Hf. rewrite Hnone in Hf.
      by destruct Hf. }
    by rewrite Hout.
  - intros f label Hf Hlabel from into.
    rewrite <- (Hstem f Hf) in Hlabel. apply Hin in Hf.
    pose proof (planned_train_valid labels nv listing Hlab ∅ f label Hf Hlabel)
      as Htv.
    pose proof (planned_exactly_one labels nv listing Hnd Hlab ∅ f label
                  Hf Hlabel) as Hone.
    fold (src f) in from. subst from into. cbv beta.
    split; [done|]. split; [by apply (Hcont _ Htv)|].
    destruct (decide ((src f, tree data_dir "valid" label ++ [f])
                        ∈ planned_copies data_dir labels nv listing ∅))
      as [Hvalid|Hvalid].
    + left. split; [done|]. split; [by apply Hone|]. by apply (Hcont _ Hvalid).
    + right. split; [done|].
      destruct (decide ((src f, tree data_dir "train" label ++ [f])
                        ∈ planned_copies data_dir labels nv listing ∅))
        as [Htrain|Htrain]; [|by apply Hone in Htrain].
      split; [done|]. by apply (Hcont _ Htrain).
  - intros c.
    rewrite (filter_ext_elem (fun f => labels !! strip_extension f = Some c)
               (fun f => labels !! stem f = Some c));
      [|by intros f Hf; rewrite (Hstem f Hf)].
    rewrite <- !(listing_filter_length Hperm w).
    fold listing. fold (src).
    rewrite (planned_valid_count labels nv listing Hnd Hlab ∅ c).
    rewrite lookup_empty. cbn [default from_option id]. lia.
Qed.

(** C5, as the code has it.  Let [n], the product [n * valid_ratio],
    the labels and the directory be as for C3, and let [f] be the first
    listed file whose name without its extension is not a key of the
    map.  Then [reorg_train_valid] ends with [KeyError] of that key:
    the files listed before [f] have been copied and stay so, nothing is
    copied for [f] or after it, and no other label stands in.  When the
    product [n * valid_ratio] is NaN or infinite, it is the [ValueError]
    or the [OverflowError] of [math.floor] that leaves, before any file
    is looked at.  And [read_csv_labels] ends with the very error that
    opening [fname] raises, in an unchanged world. *)
Theorem reorg_errors_propagate :
  (∀ labels valid_ratio w n pre f post,
     least_count labels = Ok n ->
     F64.is_finite (F64.mul (F64.of_Z (Z.of_nat n)) valid_ratio) = true ->
     (∀ name label, labels !! name = Some label -> plain label = true) ->
     data_dir ++ ["train"] ∈ dirs w ->
     tidy data_dir w ->
     readdir (entries w (data_dir ++ ["train"])) = pre ++ f :: post ->
     (∀ g, g ∈ pre ++ f :: post ->
           is_Some (files w !! (data_dir ++ ["train"; g]))) ->
     (∀ g, g ∈ pre ++ [f] -> stem g = strip_extension g) ->
     (∀ g, g ∈ pre -> is_Some (labels !! strip_extension g)) ->
     labels !! strip_extension f = None ->
     ∃ w' new,
       reorg_train_valid readdir data_dir labels valid_ratio w
         = (w', Raise (KeyError (strip_extension f))) ∧
       copied w' = copied w ++ new ∧
       (∀ g, g ∈ pre -> ∃ label,
          labels !! strip_extension g = Some label ∧
          (data_dir ++ ["train"; g],
           tree data_dir "train_valid" label ++ [g]) ∈ new) ∧
       (∀ e, e ∈ new -> ∃ g, g ∈ pre ∧ e.1 = data_dir ++ ["train"; g]) ∧
       (∀ p, p ∉ new.*2 -> files w' !! p = files w !! p))
  ∧ (∀ labels valid_ratio w n,
       least_count labels = Ok n ->
       F64.is_finite (F64.mul (F64.of_Z (Z.of_nat n)) valid_ratio) = false ->
       reorg_train_valid readdir data_dir labels valid_ratio w
         = (w, Raise ValueError)
       ∨ reorg_train_valid readdir data_dir labels valid_ratio w
         = (w, Raise OverflowError))
  ∧ (∀ fname w e,
       (open fname w).2 = Raise e -> read_csv_labels fname w = (w, Raise e)).
Proof.
  split; [|split].
  - intros labels valid_ratio w n pre f post Hn Hfin Hplain Hdir Htidy Hlist
      Hfiles Hstem Hpre Hf.
    destruct (valid_per_label_Ok n valid_ratio Hfin) as (k & Hk & Hnv).
    set (nv := Z.max 1 k) in *.
    assert (Hpos : 1 <= nv) by (unfold nv; lia).
    assert (Hpre' : ∀ g, g ∈ pre -> is_Some (labels !! stem g)).
    { intros g Hg. rewrite Hstem by (apply elem_of_app; by left).
      by apply Hpre. }
    assert (Hf' : labels !! stem f = None).
    { rewrite Hstem; [done|]. apply elem_of_app. right. by left. }
    destruct (train_valid_loop_spec labels nv Hpos Hplain (pre ++ f :: post)
                ∅ w Htidy)
      as (w' & Hrun & Hlog & Hframe & _); [done|].
    destruct (planned_copies_stop labels nv pre f post ∅ Hpre' Hf')
      as [Hplan Hout].
    rewrite Hplan in Hlog, Hframe. rewrite Hout in Hrun.
    exists w', (planned_copies data_dir labels nv pre ∅).
    split; [|split; [done|split; [|split; [|done]]]].
    + unfold reorg_train_valid, mbind, io_bind, lift, listdir. rewrite Hn.
      cbv beta iota. rewrite Hnv. cbv beta iota.
      rewrite decide_True by done. rewrite Hlist, Hrun.
      rewrite Hstem; [done|]. apply elem_of_app. right. by left.
    + intros g Hg. destruct (Hpre g Hg) as [label Hlabel]. exists label.
      split; [done|]. apply planned_train_valid; [done..|].
      rewrite Hstem; [done|]. apply elem_of_app. by left.
    + intros e He.
      destruct (planned_copies_entry _ _ _ _ _ He)
        as (g & ? & ? & Hg & _ & _ & ->).
      by exists g.
  - intros labels valid_ratio w n Hn Hfin.
    unfold reorg_train_valid, mbind, io_bind, lift. rewrite Hn.
    cbv beta iota.
    destruct (valid_per_label_Raise n valid_ratio Hfin) as [-> | ->]; auto.
  - intros fname w e. unfold read_csv_labels, mbind, io_bind, open.
    destruct (files w !! fname); cbn [snd]; [done|]. by intros [= <-].
Qed.
End ReorgFacts.

(** C3, as it is stated, fails on a ratio that has no floor: for a
    [valid_ratio] that is NaN, [math.floor] raises [ValueError] before
    any file is looked at, although the label map covers every file name
    of [train]; nothing is copied. *)
Lemma reorg_train_valid_nan_ratio :
  (∀ f, f ∈ FS.entries Examples.dataset ["d"; "train"] ->
        is_Some (Examples.labels !! Kaggle.strip_extension f)) ∧
  Kaggle.reorg_train_valid id ["d"] Examples.labels S754_nan Examples.dataset
  = (Examples.dataset, Raise ValueError).
Proof.
  split; [|reflexivity].
  intros f Hf.
  replace (FS.entries Examples.dataset ["d"; "train"])
    with ["3.png"; "2.png"; "1.png"] in Hf by (vm_compute; reflexivity).
  apply list_elem_of_In in Hf. cbn [In] in Hf.
  repeat (destruct Hf as [<-|Hf]; [eexists; vm_compute; reflexivity|]).
  destruct Hf.
Qed.

(** What the code does with a file name of two dots: of [a.b.png] it
    looks up [a], the part before the first dot, and not [a.b], the name
    without its extension; the file goes to the class of [a]. *)
Lemma reorg_train_valid_dotted_name :
  let w' := (Kaggle.reorg_train_valid id ["d"] Examples.dotted_labels
               Samples.tenth Examples.dotted).1 in
  FS.entries Examples.dotted ["d"; "train"] = ["a.b.png"] ∧
  Examples.dotted_labels !! Kaggle.strip_extension "a.b.png" = Some "dog" ∧
  FS.copied w'
  = [ (["d"; "train"; "a.b.png"],
       ["d"; "train_valid_test"; "train_valid"; "cat"; "a.b.png"]);
      (["d"; "train"; "a.b.png"],
       ["d"; "train_valid_test"; "valid"; "cat"; "a.b.png"]) ] ∧
  FS.files w' !! ["d"; "train_valid_test"; "train_valid"; "dog"; "a.b.png"]
  = None.
Proof. vm_compute. repeat split. Qed.

(** C5, as it is stated, fails on an empty label map: the count of the
    least common label is asked for first, and it is [IndexError] that
    leaves [reorg_train_valid], whatever the training files are. *)
Lemma reorg_train_valid_empty_labels :
  "1.png" ∈ FS.entries Examples.dataset ["d"; "train"] ∧
  (∅ : gmap string string) !! Kaggle.strip_extension "1.png" = None ∧
  Kaggle.reorg_train_valid id ["d"] ∅ Samples.tenth Examples.dataset
  = (Examples.dataset, Raise IndexError).
Proof.
  split; [|split].
  - apply entries_spec. exists []. left. exists "A". by vm_compute.
  - done.
  - reflexivity.
Qed.


(** ** The submission file *)

Section SubmissionFacts.
Import Submission.

Lemma ascii_compare_trans a b c :
  Ascii.compare a b ≠ Gt -> Ascii.compare b c ≠ Gt -> Ascii.compare a c ≠ Gt.
Proof.
  unfold Ascii.compare. rewrite !N.compare_le_iff. lia.
Qed.

Lemma ascii_compare_Eq a b : Ascii.compare a b = Eq <-> a = b.
Proof.
  split; [apply Ascii.compare_eq_iff|intros ->].
  unfold Ascii.compare. apply N.compare_refl.
Qed.

Lemma ascii_compare_Lt_trans a b c :
  Ascii.compare a b = Lt -> Ascii.compare b c = Lt -> Ascii.compare a c = Lt.
Proof. unfold Ascii.compare. rewrite !N.compare_lt_iff. lia. Qed.

Lemma string_leb_trans s1 s2 s3 :
  String.leb s1 s2 = true -> String.leb s2 s3 = true -> String.leb s1 s3 = true.
Proof.
  unfold String.leb. revert s2 s3.
  induction s1 as [|a s1 IH]; intros [|b s2] [|c s3]; simpl; try done.
  destruct (Ascii.compare a b) eqn:Hab; try done;
    destruct (Ascii.compare b c) eqn:Hbc; try done.
  - apply ascii_compare_Eq in Hab, Hbc. subst.
    rewrite (proj2 (ascii_compare_Eq c c) eq_refl). apply IH.
  - apply ascii_compare_Eq in Hab. subst. by rewrite Hbc.
  - apply ascii_compare_Eq in Hbc. subst. by rewrite Hab.
  - by rewrite (ascii_compare_Lt_trans _ _ _ Hab Hbc).
Qed.

Lemma batches_concat {A : Type} batch_size (batch l : list A) :
  concat (batches batch_size batch l) = batch ++ l.
Proof.
  revert batch. induction l as [|x l IH]; intros batch; simpl.
  - destruct batch; simpl; by rewrite ?app_nil_r.
  - destruct (_ =? _)%nat; simpl; rewrite IH; by rewrite <- ?app_assoc.
Qed.

Context {Img : Type} (predict : Img -> nat) (synsets : list string).

Lemma predictions_concat (test_iter : list (list Img)) :
  predictions predict test_iter = map predict (concat test_iter).
Proof.
  unfold predictions.
  assert (H : ∀ acc, fold_left (fun preds X => preds ++ map predict X) test_iter acc
                     = acc ++ map predict (concat test_iter)).
  { induction test_iter as [|X rest IH]; intros acc; simpl.
    - by rewrite app_nil_r.
    - by rewrite IH, map_app, app_assoc. }
  apply H.
Qed.

(** The predictions come in the order of the dataset, one per example,
    whatever the batch size. *)
Lemma predictions_DataLoader test_ds batch_size :
  predictions predict (DataLoader test_ds batch_size) = map predict test_ds.
Proof. unfold DataLoader. by rewrite predictions_concat, batches_concat. Qed.

Lemma sorted_ids_Permutation n : sorted_ids n ≡ₚ map Z.of_nat (seq 1 n).
Proof. apply sort_Permutation. Qed.

Lemma sorted_ids_length n : length (sorted_ids n) = n.
Proof. by rewrite sorted_ids_Permutation, length_map, length_seq. Qed.

Lemma sorted_ids_sorted n :
  StronglySorted (fun a b => String.leb (str a) (str b) = true) (sorted_ids n).
Proof.
  apply (sort_sorted _ (fun _ => True)).
  - intros a b _ _. apply String.leb_total.
  - intros a b c _ _ _. apply string_leb_trans.
  - by apply Forall_forall.
Qed.

Lemma apply_synsets_Ok df rows :
  apply_synsets synsets df = Ok rows <->
  rows.*1 = df.*1 ∧ Forall2 (fun p label => synsets !! p = Some label) df.*2 rows.*2.
Proof.
  unfold apply_synsets. rewrite comprehension_Ok.
  revert rows. induction df as [|[id p] df IH]; intros rows.
  - split.
    + by inversion 1.
    + intros [Hids _]. destruct rows; [constructor|done].
  - split.
    + inversion 1 as [|? [id' label] ? rows' Hrow Hrest]; subst.
      apply IH in Hrest as [Hids Hlabels]. cbn in *.
      unfold Py.getitem in Hrow. destruct (synsets !! p) eqn:Hp; [|done].
      cbn in Hrow. injection Hrow as <- <-. rewrite Hids.
      split; [done|]. by constructor.
    + destruct rows as [|[id' label] rows]; intros [Hids Hlabels]; [done|].
      cbn in *. injection Hids as -> Hids.
      apply Forall2_cons in Hlabels as [Hp Hlabels].
      constructor; [|by apply IH].
      cbn. unfold Py.getitem. by rewrite Hp.
Qed.

(** C7. The rows of the submission, whenever the cell gets to write
    them: one row per test example; the id column holds the integers
    1 .. len(test_ds), each once, in the lexicographic order of their
    decimal strings; and the label of the row at a position is the class
    name of the prediction for the test example at that position of the
    unshuffled loader.  The rows are written as soon as every predicted
    class index has a name in [synsets]. *)
Theorem submission_rows test_ds batch_size :
  let n := length test_ds in
  sorted_ids n ≡ₚ map Z.of_nat (seq 1 n) ∧
  StronglySorted (fun a b => String.leb (str a) (str b) = true) (sorted_ids n) ∧
  (∀ rows,
     submission predict synsets test_ds batch_size = Ok rows <->
     rows.*1 = sorted_ids n ∧
     Forall2 (fun img label => synsets !! predict img = Some label)
             test_ds rows.*2) ∧
  (∀ rows, submission predict synsets test_ds batch_size = Ok rows ->
           length rows = n) ∧
  ((∀ img, img ∈ test_ds -> (predict img < length synsets)%nat) ->
   ∃ rows, submission predict synsets test_ds batch_size = Ok rows).
Proof.
  intros n.
  assert (Hrows : ∀ rows,
     submission predict synsets test_ds batch_size = Ok rows <->
     rows.*1 = sorted_ids n ∧
     Forall2 (fun img label => synsets !! predict img = Some label)
             test_ds rows.*2).
  { intros rows. unfold submission, DataFrame.
    rewrite predictions_DataLoader.
    rewrite decide_True by (by rewrite length_map, sorted_ids_length).
    cbn [mbind result_bind]. rewrite apply_synsets_Ok.
    fold n.
    assert (Hlen : length (sorted_ids n) = length (map predict test_ds))
      by (by rewrite length_map, sorted_ids_length).
    rewrite fst_zip, snd_zip by lia.
    split; intros [Hids Hlabels]; (split; [done|]).
    - by apply Forall2_fmap_l in Hlabels.
    - by apply Forall2_fmap_l. }
  split; [apply sorted_ids_Permutation|].
  split; [apply sorted_ids_sorted|].
  split; [done|]. split.
  - intros rows [Hids _]%Hrows.
    by rewrite <- (length_fmap fst), Hids, sorted_ids_length.
  - intros Hrange.
    exists (zip (sorted_ids n)
              (map (fun img => default EmptyString (synsets !! predict img))
                 test_ds)).
    apply Hrows.
    assert (Hlen : length (sorted_ids n)
                   = length (map (fun img => default EmptyString
                                    (synsets !! predict img)) test_ds))
      by (by rewrite length_map, sorted_ids_length).
    rewrite fst_zip, snd_zip by lia. split; [done|].
    apply Forall2_fmap_r, Forall_Forall2_diag, Forall_forall.
    intros img Himg. cbn.
    destruct (lookup_lt_is_Some_2 synsets _ (Hrange img Himg)) as [label Hl].
    by rewrite Hl.
Qed.
End SubmissionFacts.

(** * Worked instances

    Each theorem above that has premises is applied here to the sample
    data of [Examples], the premises being checked by computation. *)

Ltac by_computation := vm_compute; reflexivity.

Lemma MySequential_forward_witness :
  NoDup (Sequential.name <$> [Examples.double; Examples.increment]) ∧
  Sequential.forward
    (Sequential.add_all Sequential.MySequential_init
       [Examples.double; Examples.increment]) 3
  = Sequential.chain [Examples.double; Examples.increment] 3.
Proof.
  assert (Hnames : NoDup (Sequential.name <$> [Examples.double; Examples.increment])).
  { apply (bool_decide_unpack _). vm_compute. exact I. }
  split; [exact Hnames|].
  apply (MySequential_forward_applies_in_order
           [Examples.double; Examples.increment] 3 Hnames).
Defined.

Lemma TokenEmbedding_getitem_witness :
  Embedding.__init__ Examples.float Examples.vec_txt = Ok Examples.embed ∧
  ∃ vecs dim,
    Embedding.__getitem__ Examples.embed ["a"; "zebra"] = Ok vecs ∧
    length vecs = length ["a"; "zebra"] ∧
    Forall (fun row => length row = dim) vecs ∧
    Embedding.idx_to_vec Examples.embed !! 0%nat = Some (replicate dim F32.zero) ∧
    ∀ i t, ["a"; "zebra"] !! i = Some t ->
      match Embedding.token_to_idx Examples.embed !! t with
      | Some j => is_Some (vecs !! i)
                  ∧ vecs !! i = Embedding.idx_to_vec Examples.embed !! j
      | None => vecs !! i = Embedding.idx_to_vec Examples.embed !! 0%nat
      end.
Proof.
  assert (Hinit : Embedding.__init__ Examples.float Examples.vec_txt
                  = Ok Examples.embed) by by_computation.
  split; [exact Hinit|].
  apply (TokenEmbedding_getitem Examples.float Examples.vec_txt Examples.embed
           ["a"; "zebra"] Hinit).
Defined.

Lemma TokenEmbedding_invariant_witness :
  Embedding.__init__ Examples.float Examples.vec_txt = Ok Examples.embed ∧
  let te' := Embedding.calls Examples.embed
               [Embedding.Getitem ["a"; "zebra"]; Embedding.Len] in
  length (Embedding.idx_to_token te') = length (Embedding.idx_to_vec te') ∧
  Embedding.idx_to_token te' !! 0%nat = Some "<unk>" ∧
  Embedding.unknown_idx te' = 0%nat ∧
  ∀ t, t ∈ Embedding.idx_to_token te' ->
    ∃ i, Embedding.token_to_idx te' !! t = Some i ∧
         Embedding.idx_to_token te' !! i = Some t ∧
         ∀ j, Embedding.idx_to_token te' !! j = Some t -> (j <= i)%nat.
Proof.
  assert (Hinit : Embedding.__init__ Examples.float Examples.vec_txt
                  = Ok Examples.embed) by by_computation.
  split; [exact Hinit|].
  apply (TokenEmbedding_invariant Examples.float Examples.vec_txt Examples.embed
           [Embedding.Getitem ["a"; "zebra"]; Embedding.Len] Hinit).
Defined.

Lemma knn_top_k_witness :
  Forall (fun row => length row = length Examples.query) Examples.rows ∧
  Forall (fun row => F32.is_nan (Similarity.cosine row Examples.query) = false)
    Examples.rows ∧
  (1 <= 2 <= length Examples.rows)%nat ∧
  ∃ idx,
    Similarity.knn Examples.rows Examples.query 2
    = Ok (idx, map (Similarity.similarity Examples.rows Examples.query) idx)
    ∧ Similarity.top_k_rows Examples.rows Examples.query 2 idx.
Proof.
  assert (Hshape : Forall (fun row => length row = length Examples.query)
                     Examples.rows) by (repeat constructor).
  assert (Hnan : Forall (fun row =>
                   F32.is_nan (Similarity.cosine row Examples.query) = false)
                   Examples.rows) by (repeat constructor).
  assert (Hk : (1 <= 2 <= length Examples.rows)%nat) by (simpl; lia).
  split; [exact Hshape|]. split; [exact Hnan|]. split; [exact Hk|].
  apply (knn_top_k Examples.rows Examples.query 2 Hshape Hnan Hk).
Defined.


Lemma forward_terminates_witness :
  MLP.before_loop Examples.net Examples.batch_small = Ok Examples.hidden_small ∧
  Forall (Forall (fun a => F32.finite_number a = true)) Examples.hidden_small ∧
  ∃ n r,
    (∀ fuel, (n < fuel)%nat ->
             MLP.forward fuel Examples.net Examples.batch_small = Some (Ok r)) ∧
    r = MLP.total (Nat.iter n MLP.halve Examples.hidden_small) ∧
    r = MLP.abs_sum (Nat.iter n MLP.halve Examples.hidden_small) ∧
    (F32.is_nan r = true
     ∨ (SFleb F32.zero r = true ∧ SFleb (F32.abs r) F32.one = true)).
Proof.
  assert (Hrun : MLP.before_loop Examples.net Examples.batch_small
                 = Ok Examples.hidden_small) by by_computation.
  assert (Hfin : Forall (Forall (fun a => F32.finite_number a = true))
                   Examples.hidden_small) by (repeat constructor).
  split; [exact Hrun|]. split; [exact Hfin|].
  apply (forward_terminates Examples.net Examples.batch_small
           Examples.hidden_small Hrun Hfin).
Defined.

Lemma submission_rows_witness :
  (∀ img, img ∈ [0; 1; 1]%nat -> (id img < length ["cat"; "dog"])%nat) ∧
  ∃ rows, Submission.submission id ["cat"; "dog"] [0; 1; 1]%nat 2 = Ok rows.
Proof.
  assert (Hrange : ∀ img, img ∈ [0; 1; 1]%nat ->
                          (id img < length ["cat"; "dog"])%nat).
  { intros img Himg. simpl.
    repeat (apply elem_of_cons in Himg as [->|Himg]; [lia|]).
    by apply elem_of_nil in Himg. }
  split; [exact Hrange|].
  apply (proj2 (proj2 (proj2 (proj2
           (submission_rows id ["cat"; "dog"] [0; 1; 1]%nat 2)))) Hrange).
Defined.

Ltac in_list H :=
  apply list_elem_of_In in H; cbn [In] in H;
  repeat (destruct H as [<-|H]); [..|destruct H].

Lemma labels_plain_names :
  ∀ name label, Examples.labels !! name = Some label -> FS.plain label = true.
Proof.
  intros name label Hlabel.
  assert (Hin : (name, label) ∈ map_to_list Examples.labels)
    by (by apply elem_of_map_to_list).
  let l := eval vm_compute in (map_to_list Examples.labels) in
  replace (map_to_list Examples.labels) with l in Hin by (vm_compute; reflexivity).
  apply list_elem_of_In in Hin. cbn [In] in Hin.
  repeat (destruct Hin as [[= <- <-]|Hin]; [vm_compute; reflexivity|]).
  destruct Hin.
Defined.

Lemma labels_short_plain_names :
  ∀ name label, Examples.labels_short !! name = Some label ->
                FS.plain label = true.
Proof.
  intros name label Hlabel.
  assert (Hin : (name, label) ∈ map_to_list Examples.labels_short)
    by (by apply elem_of_map_to_list).
  let l := eval vm_compute in (map_to_list Examples.labels_short) in
  replace (map_to_list Examples.labels_short) with l in Hin by (vm_compute; reflexivity).
  apply list_elem_of_In in Hin. cbn [In] in Hin.
  repeat (destruct Hin as [[= <- <-]|Hin]; [vm_compute; reflexivity|]).
  destruct Hin.
Defined.

(** The sample directory was never reorganised: nothing is at or below
    [d/train_valid_test], and no regular file is at [d] or above. *)
Lemma dataset_tidy : Kaggle.tidy ["d"] Examples.dataset.
Proof.
  assert (Hfiles : ∀ p, is_Some (FS.files Examples.dataset !! p) ->
            p ∈ [ ["d"; "train"; "1.png"]; ["d"; "train"; "2.png"];
                  ["d"; "train"; "3.png"]; ["d"; "test"; "1.png"];
                  ["d"; "trainLabels.csv"] ]).
  { intros p [text Hp]. apply elem_of_list_to_map_2 in Hp.
    apply list_elem_of_In in Hp. cbn [In] in Hp. apply list_elem_of_In.
    cbn [In]. repeat (destruct Hp as [[= <- _]|Hp]; [tauto|]). destruct Hp. }
  assert (Hdirs : ∀ p, p ∈ FS.dirs Examples.dataset ->
            p ∈ [ []; ["d"]; ["d"; "train"]; ["d"; "test"] ]).
  { intros p Hp. by apply elem_of_list_to_set in Hp. }
  split.
  - intros q [k Hk]%below_iff.
    destruct (FS.files Examples.dataset !! q) as [text|] eqn:Hq; [|done].
    assert (Hin : q ∈ [ ["d"; "train"; "1.png"]; ["d"; "train"; "2.png"];
                        ["d"; "train"; "3.png"]; ["d"; "test"; "1.png"];
                        ["d"; "trainLabels.csv"] ])
      by (apply Hfiles; by eexists).
    apply list_elem_of_In in Hin. cbn [In] in Hin.
    repeat (destruct Hin as [<-|Hin]; [discriminate Hk|]). destruct Hin.
  - intros p [k ->]%below_iff. split.
    + intros Hp%Hfiles. apply list_elem_of_In in Hp. cbn [In] in Hp.
      repeat (destruct Hp as [Hp|Hp]; [discriminate Hp|]). destruct Hp.
    + intros Hp%Hdirs. apply list_elem_of_In in Hp. cbn [In] in Hp.
      repeat (destruct Hp as [Hp|Hp]; [discriminate Hp|]). destruct Hp.
Defined.

Lemma reorg_train_valid_buckets_witness :
  let train := ["d"; "train"] in
  (∀ l : list string, id l ≡ₚ l) ∧
  Kaggle.least_count Examples.labels = Ok 1%nat ∧
  F64.is_finite (F64.mul (F64.of_Z (Z.of_nat 1)) Samples.tenth) = true ∧
  (∀ name label, Examples.labels !! name = Some label -> FS.plain label = true) ∧
  ["d"] ++ ["train"] ∈ FS.dirs Examples.dataset ∧
  Kaggle.tidy ["d"] Examples.dataset ∧
  (∀ f, f ∈ FS.entries Examples.dataset train ->
        is_Some (FS.files Examples.dataset !! (["d"] ++ ["train"; f]))
        ∧ Kaggle.stem f = Kaggle.strip_extension f
        ∧ is_Some (Examples.labels !! Kaggle.strip_extension f)) ∧
  ∃ k w' new,
    (∃ c, Kaggle.class_size Examples.labels c = 1%nat) ∧
    (∀ c, (0 < Kaggle.class_size Examples.labels c)%nat ->
          (1 <= Kaggle.class_size Examples.labels c)%nat) ∧
    Kaggle.floor (F64.mul (F64.of_Z (Z.of_nat 1)) Samples.tenth) = Ok k ∧
    Kaggle.reorg_train_valid id ["d"] Examples.labels Samples.tenth
      Examples.dataset
      = (w', Ok (Z.max 1 k)) ∧
    FS.copied w' = FS.copied Examples.dataset ++ new ∧
    (∀ f label,
       f ∈ FS.entries Examples.dataset (["d"] ++ ["train"]) ->
       Examples.labels !! Kaggle.strip_extension f = Some label ->
       let from := ["d"] ++ ["train"; f] in
       let into part := Kaggle.tree ["d"] part label ++ [f] in
       (from, into "train_valid") ∈ new ∧
       FS.files w' !! (into "train_valid") = FS.files Examples.dataset !! from ∧
       (((from, into "valid") ∈ new ∧ ((from, into "train") ∉ new) ∧
         FS.files w' !! (into "valid") = FS.files Examples.dataset !! from)
        ∨
        (((from, into "valid") ∉ new) ∧ (from, into "train") ∈ new ∧
         FS.files w' !! (into "train") = FS.files Examples.dataset !! from))) ∧
    (∀ c,
       length (filter (fun f => (["d"] ++ ["train"; f],
                                 Kaggle.tree ["d"] "valid" c ++ [f]) ∈ new)
                 (FS.entries Examples.dataset (["d"] ++ ["train"])))
       = Z.to_nat (Z.min (Z.max 1 k)
                    (Z.of_nat (length
                       (filter (fun f => Examples.labels
                                           !! Kaggle.strip_extension f = Some c)
                          (FS.entries Examples.dataset (["d"] ++ ["train"]))))))).
Proof.
  intros train.
  assert (Hperm : ∀ l : list string, id l ≡ₚ l) by (intros l; reflexivity).
  assert (Hn : Kaggle.least_count Examples.labels = Ok 1%nat) by by_computation.
  assert (Hfin : F64.is_finite (F64.mul (F64.of_Z (Z.of_nat 1)) Samples.tenth)
                 = true) by by_computation.
  assert (Hdir : ["d"] ++ ["train"] ∈ FS.dirs Examples.dataset).
  { apply (bool_decide_unpack _). vm_compute. exact I. }
  assert (Hfiles : ∀ f, f ∈ FS.entries Examples.dataset (["d"] ++ ["train"]) ->
            is_Some (FS.files Examples.dataset !! (["d"] ++ ["train"; f]))
            ∧ Kaggle.stem f = Kaggle.strip_extension f
            ∧ is_Some (Examples.labels !! Kaggle.strip_extension f)).
  { intros f Hf.
    replace (FS.entries Examples.dataset (["d"] ++ ["train"]))
      with ["3.png"; "2.png"; "1.png"] in Hf by by_computation.
    in_list Hf; (split; [eexists; by_computation|]);
      (split; [by_computation|eexists; by_computation]). }
  split; [exact Hperm|]. split; [exact Hn|]. split; [exact Hfin|].
  split; [exact labels_plain_names|]. split; [exact Hdir|].
  split; [exact dataset_tidy|]. split; [exact Hfiles|].
  apply (reorg_train_valid_buckets id ["d"] Examples.labels Samples.tenth
           Examples.dataset 1%nat Hperm Hn Hfin labels_plain_names Hdir
           dataset_tidy Hfiles).
Defined.

Lemma reorg_errors_propagate_witness :
  let pre := ["1.png"; "2.png"] in
  Kaggle.least_count Examples.labels_short = Ok 1%nat ∧
  F64.is_finite (F64.mul (F64.of_Z (Z.of_nat 1)) Samples.tenth) = true ∧
  (∀ name label, Examples.labels_short !! name = Some label ->
                 FS.plain label = true) ∧
  ["d"] ++ ["train"] ∈ FS.dirs Examples.dataset ∧
  Kaggle.tidy ["d"] Examples.dataset ∧
  reverse (FS.entries Examples.dataset (["d"] ++ ["train"])) = pre ++ ["3.png"] ∧
  (∀ g, g ∈ pre ++ ["3.png"] ->
        is_Some (FS.files Examples.dataset !! (["d"] ++ ["train"; g]))) ∧
  (∀ g, g ∈ pre ++ ["3.png"] -> Kaggle.stem g = Kaggle.strip_extension g) ∧
  (∀ g, g ∈ pre ->
        is_Some (Examples.labels_short !! Kaggle.strip_extension g)) ∧
  Examples.labels_short !! Kaggle.strip_extension "3.png" = None ∧
  ∃ w' new,
    Kaggle.reorg_train_valid reverse ["d"] Examples.labels_short Samples.tenth
      Examples.dataset
    = (w', Raise (KeyError (Kaggle.strip_extension "3.png"))) ∧
    FS.copied w' = FS.copied Examples.dataset ++ new ∧
    (∀ g, g ∈ pre -> ∃ label,
       Examples.labels_short !! Kaggle.strip_extension g = Some label ∧
       (["d"] ++ ["train"; g],
        Kaggle.tree ["d"] "train_valid" label ++ [g]) ∈ new) ∧
    (∀ e, e ∈ new -> ∃ g, g ∈ pre ∧ e.1 = ["d"] ++ ["train"; g]) ∧
    (∀ p, p ∉ new.*2 -> FS.files w' !! p = FS.files Examples.dataset !! p).
Proof.
  intros pre.
  assert (Hn : Kaggle.least_count Examples.labels_short = Ok 1%nat)
    by by_computation.
  assert (Hfin : F64.is_finite (F64.mul (F64.of_Z (Z.of_nat 1)) Samples.tenth)
                 = true) by by_computation.
  assert (Hdir : ["d"] ++ ["train"] ∈ FS.dirs Examples.dataset).
  { apply (bool_decide_unpack _). vm_compute. exact I. }
  assert (Hlist : reverse (FS.entries Examples.dataset (["d"] ++ ["train"]))
                  = pre ++ "3.png" :: []) by by_computation.
  assert (Hfiles : ∀ g, g ∈ pre ++ "3.png" :: [] ->
            is_Some (FS.files Examples.dataset !! (["d"] ++ ["train"; g]))).
  { intros g Hg. subst pre. cbn [app] in Hg.
    in_list Hg; eexists; by_computation. }
  assert (Hstem : ∀ g, g ∈ pre ++ ["3.png"] ->
                       Kaggle.stem g = Kaggle.strip_extension g).
  { intros g Hg. subst pre. cbn [app] in Hg. in_list Hg; by_computation. }
  assert (Hpre : ∀ g, g ∈ pre ->
            is_Some (Examples.labels_short !! Kaggle.strip_extension g)).
  { intros g Hg. subst pre. in_list Hg; eexists; by_computation. }
  assert (Hf : Examples.labels_short !! Kaggle.strip_extension "3.png" = None)
    by by_computation.
  split; [exact Hn|]. split; [exact Hfin|].
  split; [exact labels_short_plain_names|]. split; [exact Hdir|].
  split; [exact dataset_tidy|]. split; [exact Hlist|]. split; [exact Hfiles|].
  split; [exact Hstem|]. split; [exact Hpre|]. split; [exact Hf|].
  apply (proj1 (reorg_errors_propagate reverse ["d"])
           Examples.labels_short Samples.tenth Examples.dataset 1%nat pre
           "3.png" [] Hn Hfin labels_short_plain_names Hdir dataset_tidy
           Hlist Hfiles Hstem Hpre Hf).
Defined.


(** * Further properties

    What the cells show beyond the statements above: edge cases, errors,
    shapes, and how the helpers compose. *)

(** ** [MySequential]: a repeated name, concatenation, nesting *)

Section SequentialMore.
Import Sequential Layers.
Context {X : Type}.
Implicit Types (d : list (string * Block X)) (bs : list (Block X)).

Lemma forward_add_all bs (x : X) :
  NoDup (name <$> bs) ->
  forward (add_all MySequential_init bs) x = forward_loop bs x.
Proof.
  intros Hnd. unfold forward, MySequential_init.
  rewrite add_all_children by done. cbn [app].
  unfold od_values. rewrite <- list_fmap_compose. f_equal.
  clear Hnd. induction bs as [|b bs IH]; [done|]. cbn. by rewrite IH.
Qed.

Lemma forward_loop_app bs1 bs2 (x : X) :
  forward_loop (bs1 ++ bs2) x = forward_loop bs1 x ≫= forward_loop bs2.
Proof.
  revert x. induction bs1 as [|b bs1 IH]; intros x; [done|].
  cbn [app forward_loop]. destruct (call b x) as [x'|e]; [|done].
  cbn [mbind result_bind]. apply IH.
Qed.

Lemma od_setitem_known d i k v v' :
  NoDup d.*1 -> d !! i = Some (k, v) ->
  od_setitem d k v' = <[i := (k, v')]> d.
Proof.
  revert i. induction d as [|[k0 v0] d IH]; intros i Hnd Hi; [done|].
  apply NoDup_cons in Hnd as [Hfresh Hnd]. cbn [od_setitem].
  destruct i as [|i]; cbn in Hi.
  - injection Hi as -> ->. by rewrite String.eqb_refl.
  - destruct (String.eqb_spec k0 k) as [->|_].
    + destruct Hfresh. apply list_elem_of_fmap. exists (k, v).
      split; [done|]. by eapply list_elem_of_lookup_2.
    + cbn. f_equal. by apply IH.
Qed.

(** X1. A block added under a name that the container already holds
    takes the place of the block of that name: the container does not
    grow, and [forward] calls the new block where the old one stood. *)
Theorem MySequential_add_known_name bs i b b' (x : X) :
  NoDup (name <$> bs) -> bs !! i = Some b -> name b' = name b ->
  let net := add (add_all MySequential_init bs) b' in
  length (_children net) = length bs ∧
  forward net x = chain (<[i := b']> bs) x.
Proof.
  intros Hnd Hi Hname net.
  assert (Hch : _children net
                = (fun b => (name b, b)) <$> <[i := b']> bs).
  { unfold net, add, MySequential_init. cbn [_children].
    rewrite add_all_children by done. cbn [app].
    rewrite (od_setitem_known _ i (name b') b b').
    - by rewrite list_fmap_insert.
    - by rewrite <- list_fmap_compose.
    - by rewrite list_lookup_fmap, Hi, Hname. }
  split.
  - by rewrite Hch, length_fmap, length_insert.
  - unfold forward, chain. rewrite Hch, forward_loop_chain.
    unfold od_values. rewrite <- list_fmap_compose. cbn [mbind result_bind].
    f_equal. generalize (<[i := b']> bs). clear.
    induction l as [|b bs IH]; [done|]. cbn. by rewrite IH.
Qed.

(** X2. The blocks of two lists, added one list after the other, run as
    the first container followed by the second; an exception raised in
    the first part is the result, whatever the second part holds. *)
Theorem MySequential_forward_concatenation bs1 bs2 (x : X) :
  NoDup (name <$> (bs1 ++ bs2)) ->
  forward (add_all MySequential_init (bs1 ++ bs2)) x
  = forward (add_all MySequential_init bs1) x
      ≫= forward (add_all MySequential_init bs2)
  ∧ ∀ e, forward (add_all MySequential_init bs1) x = Raise e ->
         forward (add_all MySequential_init (bs1 ++ bs2)) x = Raise e.
Proof.
  intros Hnd.
  assert (Hnd' := Hnd). rewrite fmap_app in Hnd'.
  apply NoDup_app in Hnd' as (Hnd1 & _ & Hnd2).
  assert (Heq : forward (add_all MySequential_init (bs1 ++ bs2)) x
                = forward (add_all MySequential_init bs1) x
                    ≫= forward (add_all MySequential_init bs2)).
  { rewrite !forward_add_all by done. rewrite forward_loop_app.
    destruct (forward_loop bs1 x) as [x'|e]; [|done].
    cbn [mbind result_bind]. by rewrite forward_add_all. }
  split; [done|]. intros e He. by rewrite Heq, He.
Qed.

(** X3. Containers nest: a container whose blocks are containers runs
    the blocks of the inner containers, one container after the other,
    as one flat chain.  The names need only be distinct inside each
    container. *)
Theorem MySequential_nested (groups : list (string * list (Block X))) (x : X) :
  NoDup groups.*1 ->
  Forall (fun g => NoDup (name <$> g.2)) groups ->
  forward
    (add_all MySequential_init
       ((fun g => as_block g.1 (add_all MySequential_init g.2)) <$> groups)) x
  = chain (concat groups.*2) x.
Proof.
  intros Hnd Hin. rewrite forward_add_all.
  2:{ rewrite <- list_fmap_compose.
      replace (name ∘ _) with (fst : string * list (Block X) -> string); [done|].
      done. }
  unfold chain. rewrite forward_loop_chain. cbn [mbind result_bind].
  clear Hnd. revert x. induction Hin as [|[n g] groups Hg Hin IH]; intros x; [done|].
  cbn [fmap list_fmap forward_loop as_block call concat fst snd].
  rewrite forward_loop_app.
  cbn [snd] in Hg. rewrite (forward_add_all g x Hg).
  destruct (forward_loop g x) as [x'|e]; [|done].
  cbn [mbind result_bind]. apply IH.
Qed.
End SequentialMore.

(** ** [MLP] and [NestMLP] *)

Section LayersFacts.
Import Layers.

Lemma same_length_eq {A B : Type} (l : list A) (k : list B) :
  MLP.same_length l k = true <-> length l = length k.
Proof. unfold MLP.same_length. apply Nat.eqb_eq. Qed.

(** The rows a layer accepts are those as long as its weight rows. *)
Lemma rows_fit self (x : matrix) in_units :
  Forall (fun w => length w = in_units) (weight self) ->
  Forall (fun r => length r = in_units) x ->
  forallb (fun r => forallb (MLP.same_length r) (weight self)) x = true.
Proof.
  intros Hw Hx. apply forallb_forall. intros r Hr%list_elem_of_In.
  apply forallb_forall. intros w Hw'%list_elem_of_In.
  apply same_length_eq. rewrite Forall_forall in Hw, Hx.
  by rewrite (Hw w Hw'), (Hx r Hr).
Qed.

Lemma Dense_call_shaped self units in_units (x : matrix) :
  shaped self units in_units ->
  Forall (fun r => length r = in_units) x ->
  ∃ y, Dense_call self x = Ok y ∧ length y = length x ∧
       Forall (fun r => length r = units) y.
Proof.
  intros (Hu & Hb & Hw) Hx. unfold Dense_call.
  rewrite (rows_fit self x in_units Hw Hx), andb_true_r.
  replace (MLP.same_length _ _) with true
    by (symmetry; apply same_length_eq; congruence).
  eexists. split; [done|]. split; [by rewrite length_map|].
  apply Forall_forall. intros r' (r & -> & _)%list_elem_of_fmap.
  rewrite length_zip_with. lia.
Qed.

Lemma Dense_call_misfit self units in_units (x : matrix) :
  shaped self units in_units -> (0 < units)%nat ->
  Exists (fun r => length r ≠ in_units) x ->
  Dense_call self x = Raise MXNetError.
Proof.
  intros (Hu & Hb & Hw) Hpos Hx. unfold Dense_call.
  replace (forallb _ x) with false; [by rewrite andb_false_r|].
  symmetry. apply not_true_is_false. intros Hall.
  rewrite forallb_forall in Hall.
  apply Exists_exists in Hx as (r & Hr & Hlen).
  specialize (Hall r (proj1 (list_elem_of_In _ _) Hr)).
  rewrite forallb_forall in Hall.
  destruct (weight self) as [|w ws] eqn:Hws; [simpl in Hu; lia|].
  specialize (Hall w (or_introl eq_refl)).
  apply same_length_eq in Hall. apply Forall_cons in Hw as [Hw _]. congruence.
Qed.

(** X4. The shape contract of [MLP]: with a hidden layer of [h] units
    for [d] features and an output layer of [o] units for [h] features,
    a batch whose rows all have [d] features gives a batch of as many
    rows with [o] entries each, and a batch with a row of another
    length is refused with the shape error of the framework. *)
Theorem MLP_forward_shapes self (x : matrix) h d o :
  shaped (hidden self) h d -> shaped (output self) o h ->
  (Forall (fun r => length r = d) x ->
   ∃ y, MLP_forward self x = Ok y ∧ length y = length x ∧
        Forall (fun r => length r = o) y)
  ∧ ((0 < h)%nat -> Exists (fun r => length r ≠ d) x ->
     MLP_forward self x = Raise MXNetError).
Proof.
  intros Hh Ho. split.
  - intros Hx.
    destruct (Dense_call_shaped _ _ _ x Hh Hx) as (y1 & Hy1 & Hlen1 & Hrows1).
    destruct (Dense_call_shaped _ _ _ y1 Ho Hrows1) as (y & Hy & Hlen & Hrows).
    exists y. unfold MLP_forward. rewrite Hy1. cbn [mbind result_bind].
    split; [done|]. split; [congruence|done].
  - intros Hpos Hx. unfold MLP_forward.
    by rewrite (Dense_call_misfit _ _ _ x Hh Hpos Hx).
Qed.

Lemma Sequential_call_chained layers (x : matrix) d o :
  chained layers d o ->
  Forall (fun r => length r = d) x ->
  ∃ y, Sequential_call layers x = Ok y ∧ length y = length x ∧
       Forall (fun r => length r = o) y.
Proof.
  revert x d. induction layers as [|layer rest IH]; intros x d.
  - cbn [chained]. intros <- Hx. by exists x.
  - cbn [chained Sequential_call]. intros (units & Hlayer & Hrest) Hx.
    destruct (Dense_call_shaped _ _ _ x Hlayer Hx) as (y1 & -> & Hlen1 & Hrows1).
    cbn [mbind result_bind].
    destruct (IH y1 units Hrest Hrows1) as (y & Hy & Hlen & Hrows).
    exists y. split; [done|]. split; [congruence|done].
Qed.

(** X5. The shape contract of [NestMLP], a block inside a block: when
    the layers of [self.net] fit one into the next, from [d] features
    to [h] units, and [self.dense] has [o] units for [h] features, a
    batch whose rows all have [d] features gives a batch of as many
    rows with [o] entries each; a batch with a row of another length
    is refused by the first layer, with the shape error of the
    framework. *)
Theorem NestMLP_forward_shapes self (x : matrix) first rest u d h o :
  net self = first :: rest ->
  shaped first u d -> chained rest u h -> shaped (dense self) o h ->
  (Forall (fun r => length r = d) x ->
   ∃ y, NestMLP_forward self x = Ok y ∧ length y = length x ∧
        Forall (fun r => length r = o) y)
  ∧ ((0 < u)%nat -> Exists (fun r => length r ≠ d) x ->
     NestMLP_forward self x = Raise MXNetError).
Proof.
  intros Hnet Hfirst Hrest Hdense. unfold NestMLP_forward. rewrite Hnet.
  split.
  - intros Hx.
    destruct (Sequential_call_chained (first :: rest) x d h)
      as (y1 & -> & Hlen1 & Hrows1); [by exists u|done|].
    cbn [mbind result_bind].
    destruct (Dense_call_shaped _ _ _ y1 Hdense Hrows1) as (y & Hy & Hlen & Hrows).
    exists y. split; [done|]. split; [congruence|done].
  - intros Hpos Hx. cbn [Sequential_call].
    by rewrite (Dense_call_misfit _ _ _ x Hfirst Hpos Hx).
Qed.
End LayersFacts.

(** ** [FixedHiddenMLP]: NaN, infinity and shapes *)

Lemma add_nan_l b : F32.add S754_nan b = S754_nan.
Proof. done. Qed.

Lemma add_nan_r a : F32.add a S754_nan = S754_nan.
Proof. by destruct a. Qed.

Lemma is_nan_eq a : F32.is_nan a = true <-> a = S754_nan.
Proof. destruct a; naive_solver. Qed.

(** Infinity swallows whatever is not negative. *)
Lemma add_infinity_l a :
  F32.nonneg a = true -> F32.add (S754_infinity false) a = S754_infinity false.
Proof. by destruct a as [[]|[]| |[] m e]. Qed.

Lemma add_infinity_r a :
  F32.nonneg a = true -> F32.add a (S754_infinity false) = S754_infinity false.
Proof. by destruct a as [[]|[]| |[] m e]. Qed.

(** Half of a number that is not negative is not negative, whatever its
    mantissa and exponent. *)
Lemma halve_nonneg a :
  F32.nonneg a = true -> F32.nonneg (F32.div a F32.two) = true.
Proof.
  destruct a as [[]|[]| |[] m e]; try done. intros _.
  unfold F32.div, F32.two, SFdiv, SFdiv_core_binary.
  set (s := e - -22 - _).
  set (m' := match s with 0 => Zpos m | Zpos _ => IntDef.Z.shiftl (Zpos m) s
                        | Zneg _ => 0 end).
  assert (Hm' : 0 <= m').
  { unfold m'. destruct s; [lia| |lia].
    change IntDef.Z.shiftl with Z.shiftl. apply Z.shiftl_nonneg. lia. }
  change IntDef.Z.div_eucl with Z.div_eucl.
  pose proof (Z_div_mod m' 8388608 ltac:(lia)) as Hdm.
  destruct (Z.div_eucl m' 8388608) as [q r]. destruct Hdm as [Hq Hr].
  assert (0 <= q) by nia.
  pose proof (round_aux_sign (xorb false false) q
                (IntDef.Z.min
                   (fexp F32.prec F32.emax
                      (Zdigits2 (Zpos m) + e - (Zdigits2 8388608 + -22)))
                   (e - -22))
                (new_location 8388608 r) ltac:(lia)) as Hsign.
  by destruct (binary_round_aux _ _ _ _ _ _) as [[]|[]| |[] ? ?].
Qed.

Lemma halve_infinity : F32.div (S754_infinity false) F32.two = S754_infinity false.
Proof. done. Qed.

Lemma sub_nan_l b : F32.sub S754_nan b = S754_nan.
Proof. done. Qed.

Lemma sub_nan_r a : F32.sub a S754_nan = S754_nan.
Proof. by destruct a. Qed.

(** ** The compensated sum on NaN and infinity *)

Section SumFacts.
Import Reduce.

(** Once the running sum is NaN it stays NaN. *)
Lemma step_nan_sum acc a :
  F32.is_nan acc.1 = true -> F32.is_nan (step acc a).1 = true.
Proof.
  destruct acc as [dst residual]. cbn [fst snd step].
  intros ->%is_nan_eq. by rewrite add_nan_l.
Qed.

(** So does it after an error term that is NaN. *)
Lemma step_nan_residual acc a :
  F32.is_nan acc.2 = true -> F32.is_nan (step acc a).1 = true.
Proof.
  destruct acc as [dst residual]. cbn [fst snd step].
  intros ->%is_nan_eq. by rewrite sub_nan_r, add_nan_r.
Qed.

Lemma step_nan_entry acc : (step acc S754_nan).1 = S754_nan.
Proof.
  destruct acc as [dst residual]. cbn [fst snd step].
  by rewrite sub_nan_l, add_nan_r.
Qed.

Lemma fold_nan_sum v acc :
  F32.is_nan acc.1 = true -> F32.is_nan (fold_left step v acc).1 = true.
Proof.
  revert acc. induction v as [|a v IH]; intros acc Hacc; [done|].
  cbn [fold_left]. by apply IH, step_nan_sum.
Qed.

Lemma fold_nan_entry v acc :
  Exists (fun a => F32.is_nan a = true) v ->
  F32.is_nan (fold_left step v acc).1 = true.
Proof.
  intros Hv. revert acc. induction Hv as [a v Ha|a v Hv IH]; intros acc.
  - cbn [fold_left]. apply fold_nan_sum. apply is_nan_eq in Ha as ->.
    by rewrite step_nan_entry.
  - cbn [fold_left]. apply IH.
Qed.

(** A NaN among the entries makes the sum NaN. *)
Lemma sum_nan v :
  Exists (fun a => F32.is_nan a = true) v -> sum v = S754_nan.
Proof. intros Hv. apply is_nan_eq. by apply fold_nan_entry. Qed.

(** After an infinite entry the running sum is NaN, or it is infinity
    and the error term is NaN: the error of adding infinity is
    [(inf - dst) - inf]. *)
Lemma step_infinity acc :
  F32.is_nan (step acc (S754_infinity false)).1 = true ∨
  ((step acc (S754_infinity false)).1 = S754_infinity false ∧
   F32.is_nan (step acc (S754_infinity false)).2 = true).
Proof.
  destruct acc as [dst residual]. cbn [fst snd step].
  destruct dst as [[]|[]| |[] md ed], residual as [[]|[]| |[] mr er];
    cbn; auto.
Qed.

(** From a running sum of infinity the sum stays infinity or turns
    NaN, whatever is added. *)
Lemma step_from_infinity acc a :
  F32.is_nan acc.1 = true ∨ acc.1 = S754_infinity false ->
  F32.is_nan (step acc a).1 = true ∨ (step acc a).1 = S754_infinity false.
Proof.
  intros [Hnan|Hinf]; [left; by apply step_nan_sum|].
  destruct acc as [dst residual]. cbn [fst snd step] in *. subst dst.
  destruct (F32.sub a residual) as [[]|[]| |[] my ey]; cbn; auto.
Qed.

Lemma fold_from_infinity v acc :
  F32.is_nan acc.1 = true ∨ acc.1 = S754_infinity false ->
  F32.is_nan (fold_left step v acc).1 = true
  ∨ (fold_left step v acc).1 = S754_infinity false.
Proof.
  revert acc. induction v as [|a v IH]; intros acc Hacc; [done|].
  cbn [fold_left]. by apply IH, step_from_infinity.
Qed.

(** With an infinite entry, the sum is infinity or NaN. *)
Lemma sum_infinity v :
  Exists (fun a => a = S754_infinity false) v ->
  sum v = S754_nan ∨ sum v = S754_infinity false.
Proof.
  intros Hv. unfold sum. generalize (F32.zero, F32.zero).
  induction Hv as [a v ->|a v Hv IH]; intros acc; cbn [fold_left]; [|done].
  destruct (fold_from_infinity v (step acc (S754_infinity false)))
    as [Hnan|Hinf]; [|left; by apply is_nan_eq|by right].
  destruct (step_infinity acc) as [?|[? _]]; auto.
Qed.

(** With an infinite entry that is not the last one, the sum is NaN. *)
Lemma sum_infinity_inside v1 a v2 :
  sum (v1 ++ S754_infinity false :: a :: v2) = S754_nan.
Proof.
  unfold sum. rewrite fold_left_app. cbn [fold_left].
  apply is_nan_eq, fold_nan_sum.
  destruct (step_infinity (fold_left step v1 (F32.zero, F32.zero)))
    as [Hnan|[_ Hres]].
  - by apply step_nan_sum.
  - by apply step_nan_residual.
Qed.
End SumFacts.

Section MLPMore.
Import MLP.

Lemma Exists_concat {A : Type} (P : A -> Prop) (ls : list (list A)) :
  Exists (Exists P) ls -> Exists P (concat ls).
Proof.
  induction 1 as [l ls Hl|l ls Hls IH]; cbn [concat]; apply Exists_app; auto.
Qed.

(** X6. A NaN among the numbers that enter the loop makes the test of
    the loop false at once: [forward] returns after the first test,
    nothing halved, and what it returns is NaN. *)
Theorem forward_nan_returns_at_once self x y :
  before_loop self x = Ok y ->
  Exists (Exists (fun a => F32.is_nan a = true)) y ->
  ∀ fuel, (1 <= fuel)%nat -> forward fuel self x = Some (Ok S754_nan).
Proof.
  intros Hy Hnan fuel Hfuel. unfold forward. rewrite Hy.
  destruct fuel as [|fuel]; [lia|]. cbn [while].
  assert (Habs : abs_sum y = S754_nan).
  { unfold abs_sum. apply sum_nan, Exists_concat.
    apply Exists_fmap. eapply Exists_impl; [done|]. intros row Hrow.
    apply Exists_fmap. eapply Exists_impl; [done|].
    intros a Ha. cbn. by apply is_nan_eq in Ha as ->. }
  assert (Htotal : total y = S754_nan).
  { unfold total. by apply sum_nan, Exists_concat. }
  rewrite Habs. cbn. by rewrite Htotal.
Qed.

Lemma relu_sign a :
  F32.is_nan (relu a) = false -> F32.nonneg (relu a) = true.
Proof.
  unfold relu. destruct (F32.is_nan a) eqn:Hnan; [congruence|]. intros _.
  destruct (F32.gtb a F32.zero) eqn:Hgt; [|done].
  by destruct a as [[]|[]| |[] m e].
Qed.

(** The tensors with nothing negative, no NaN, and infinity somewhere. *)
Let stuck (x : matrix) : Prop :=
  Forall (Forall (fun a => F32.nonneg a = true)) x ∧
  Exists (Exists (fun a => a = S754_infinity false)) x.

Lemma stuck_halve x : stuck x -> stuck (halve x).
Proof.
  intros [Hpos Hinf]. split; unfold halve.
  - apply Forall_fmap. eapply Forall_impl; [done|]. intros row Hrow.
    apply Forall_fmap. eapply Forall_impl; [done|]. intros a Ha.
    by apply halve_nonneg.
  - apply Exists_fmap. eapply Exists_impl; [done|]. intros row Hrow.
    apply Exists_fmap. eapply Exists_impl; [done|]. by intros a ->.
Qed.

Lemma stuck_abs x : stuck x -> map (map F32.abs) x = x.
Proof.
  intros [Hpos _]. induction Hpos as [|row x Hrow Hx IH]; [done|].
  cbn [map]. f_equal; [|done].
  induction Hrow as [|a row Ha Hrow IHrow]; [done|].
  cbn [map]. f_equal; [|done]. by destruct a as [[]|[]| |[] m e].
Qed.

Lemma stuck_total x :
  stuck x -> total x = S754_nan ∨ total x = S754_infinity false.
Proof. intros [_ Hinf]. by apply sum_infinity, Exists_concat. Qed.

(** The loop on such a tensor: it goes on, or it has stopped on a sum
    that is NaN. *)
Lemma while_stuck fuel x :
  stuck x ->
  while fuel x = None ∨ ∃ x', while fuel x = Some x' ∧ total x' = S754_nan.
Proof.
  revert x. induction fuel as [|fuel IH]; intros x Hx; [by left|].
  cbn [while]. unfold abs_sum. rewrite (stuck_abs x Hx). fold (total x).
  destruct (stuck_total x Hx) as [Hnan|Hinf].
  - right. exists x. by rewrite Hnan.
  - rewrite Hinf. cbn. by apply IH, stuck_halve.
Qed.

Lemma before_loop_stuck self x y :
  before_loop self x = Ok y ->
  Forall (Forall (fun a => F32.is_nan a = false)) y ->
  Exists (Exists (fun a => F32.is_finite a = false)) y ->
  stuck y.
Proof.
  intros Hy Hnan Hinf.
  assert (Hrelu : Forall (Forall (fun a => ∃ b, a = relu b)) y).
  { unfold before_loop in Hy.
    destruct (dense self x) as [x1|e]; [|done]. cbn [mbind result_bind] in Hy.
    destruct (np_dot x1 _) as [x2|e]; [|done]. cbn [mbind result_bind] in Hy.
    by eapply dense_relu. }
  assert (Hpos : Forall (Forall (fun a => F32.nonneg a = true)) y).
  { rewrite Forall_forall in Hrelu, Hnan. apply Forall_forall. intros row Hrow.
    specialize (Hrelu row Hrow). specialize (Hnan row Hrow).
    rewrite Forall_forall in Hrelu, Hnan. apply Forall_forall. intros a Ha.
    destruct (Hrelu a Ha) as [b ->]. apply relu_sign. by apply Hnan. }
  split; [done|].
  apply Exists_exists in Hinf as (row & Hrow & Hinf).
  apply Exists_exists in Hinf as (a & Ha & Hinf).
  apply Exists_exists. exists row. split; [done|].
  apply Exists_exists. exists a. split; [done|].
  rewrite Forall_forall in Hpos. specialize (Hpos row Hrow).
  rewrite Forall_forall in Hpos. specialize (Hpos a Ha).
  by destruct a as [[]|[]| |[] m e].
Qed.

(** X7. When the numbers that enter the loop hold no NaN but one of
    them is infinite, [forward] never returns a number: halving leaves
    infinity where it is, and the compensated sum of a tensor that
    holds infinity is infinity or NaN.  However many tests it is given,
    [forward] is still in the loop or has returned NaN.  It returns NaN
    at the first test as soon as the infinite entry is not the very
    last one of the tensor: the error term of adding infinity is NaN
    and spoils the next addition. *)
Theorem forward_infinity_returns_no_number self x y :
  before_loop self x = Ok y ->
  Forall (Forall (fun a => F32.is_nan a = false)) y ->
  Exists (Exists (fun a => F32.is_finite a = false)) y ->
  (∀ fuel, forward fuel self x = None
           ∨ forward fuel self x = Some (Ok S754_nan)) ∧
  ((∃ v1 a v2, concat y = v1 ++ S754_infinity false :: a :: v2) ->
   ∀ fuel, (1 <= fuel)%nat -> forward fuel self x = Some (Ok S754_nan)).
Proof.
  intros Hy Hnan Hinf.
  pose proof (before_loop_stuck self x y Hy Hnan Hinf) as Hstuck.
  split.
  - intros fuel. unfold forward. rewrite Hy.
    destruct (while_stuck fuel y Hstuck) as [->|(y' & -> & ->)]; auto.
  - intros (v1 & a & v2 & Hcat) fuel Hfuel. unfold forward. rewrite Hy.
    destruct fuel as [|fuel]; [lia|]. cbn [while].
    unfold abs_sum. rewrite (stuck_abs y Hstuck). fold (total y).
    unfold total. rewrite Hcat.
    change (sum ?v) with (Reduce.sum v).
    rewrite sum_infinity_inside. cbn.
    by rewrite Hcat, sum_infinity_inside.
Qed.

Lemma dense_Ok self (x y : matrix) :
  dense self x = Ok y ->
  length (dense_bias self) = length (dense_weight self) ∧
  Forall (fun r => Forall (fun w => length w = length r) (dense_weight self)) x ∧
  length y = length x ∧
  Forall (fun r => length r = length (dense_weight self)) y.
Proof.
  unfold dense. destruct (same_length _ _ && _) eqn:Hok; [|done].
  intros [= <-]. apply andb_true_iff in Hok as [Hb Hx].
  apply Nat.eqb_eq in Hb. rewrite forallb_forall in Hx.
  split; [done|]. split; [|split; [by rewrite length_map|]].
  - apply Forall_forall. intros r Hr%list_elem_of_In.
    specialize (Hx r Hr). rewrite forallb_forall in Hx.
    apply Forall_forall. intros w Hw%list_elem_of_In.
    symmetry. by apply Nat.eqb_eq, Hx.
  - apply Forall_forall. intros r' (r & -> & _)%list_elem_of_fmap.
    rewrite length_zip_with. lia.
Qed.

Lemma dot_row_length (r : vector) (R : matrix) cols :
  cols = length (default [] (head R)) ->
  Forall (fun row => length row = cols) R ->
  length (dot_row r R) = cols.
Proof.
  intros Hcols HR. unfold dot_row. rewrite <- Hcols.
  assert (Hacc : length (replicate cols F32.zero) = cols)
    by apply length_replicate.
  revert Hacc. generalize (replicate cols F32.zero). clear Hcols.
  revert r. induction HR as [|row R Hrow HR IH]; intros r acc Hacc.
  - by destruct r.
  - destruct r as [|a r]; [done|]. cbn [zip zip_with fold_left].
    apply IH. rewrite length_zip_with, length_map. lia.
Qed.

Lemma np_dot_Ok (x R y : matrix) :
  np_dot x R = Ok y ->
  Forall (fun r => length r = length R) x ∧
  Forall (fun row => length row = length (default [] (head R))) R ∧
  length y = length x ∧
  Forall (fun r => length r = length (default [] (head R))) y.
Proof.
  unfold np_dot. destruct (_ && _) eqn:Hok; [|done].
  intros [= <-]. apply andb_true_iff in Hok as [Hx HR].
  rewrite forallb_forall in Hx, HR.
  assert (HR' : Forall (fun row => length row = length (default [] (head R))) R).
  { apply Forall_forall. intros row Hrow%list_elem_of_In.
    symmetry. by apply Nat.eqb_eq, HR. }
  split; [|split; [done|split; [by rewrite length_map|]]].
  - apply Forall_forall. intros r Hr%list_elem_of_In.
    by apply Nat.eqb_eq, Hx.
  - apply Forall_forall. intros r' (r & -> & _)%list_elem_of_fmap.
    by apply dot_row_length.
Qed.

(** X8. Sharing the one dense layer ties the shapes together.  When
    [forward] gets through the statements before the loop on a batch
    that is not empty, with a layer of at least one unit, then
    [rand_weight] has one row per unit of the layer, the rows of
    [rand_weight], the rows of the weight of the layer and the rows of
    the batch are all of one length, and the loop receives a batch of
    as many rows with one entry per unit. *)
Theorem forward_shapes self x y :
  before_loop self x = Ok y -> x ≠ [] -> dense_weight self ≠ [] ->
  let units := length (dense_weight self) in
  let cols := length (default [] (head (rand_weight self))) in
  length (dense_bias self) = units ∧
  length (rand_weight self) = units ∧
  Forall (fun row => length row = cols) (rand_weight self) ∧
  Forall (fun w => length w = cols) (dense_weight self) ∧
  Forall (fun r => length r = cols) x ∧
  length y = length x ∧
  Forall (fun r => length r = units) y.
Proof.
  intros Hy Hx Hw. cbv zeta. unfold before_loop in Hy.
  destruct (dense self x) as [x1|e] eqn:H1; [|done].
  cbn [mbind result_bind] in Hy.
  destruct (np_dot x1 _) as [x2|e] eqn:H2; [|done].
  cbn [mbind result_bind] in Hy.
  apply dense_Ok in H1 as (Hb & Hfit1 & Hlen1 & Hrows1).
  apply np_dot_Ok in H2 as (Hfit2 & HR & Hlen2 & Hrows2).
  apply dense_Ok in Hy as (_ & Hfit3 & Hlen3 & Hrows3).
  rewrite length_map in Hlen3.
  destruct x as [|r0 x]; [done|]. destruct x1 as [|r1 x1]; [done|].
  destruct x2 as [|r2 x2]; [done|].
  apply Forall_cons in Hfit2 as [Hr1 _]. apply Forall_cons in Hrows1 as [Hr1' _].
  apply Forall_cons in Hrows2 as [Hr2 _].
  cbn [map] in Hfit3. apply Forall_cons in Hfit3 as [Hw3 _].
  rewrite length_map, Hr2 in Hw3.
  split; [done|]. split; [congruence|].
  split; [done|]. split; [done|]. split; [|split; [congruence|done]].
  apply Forall_forall. intros r Hr. rewrite Forall_forall in Hfit1.
  specialize (Hfit1 r Hr).
  destruct (dense_weight self) as [|w ws]; [done|].
  apply Forall_cons in Hfit1 as [<- _]. by apply Forall_cons in Hw3 as [? _].
Qed.
End MLPMore.

(** ** [TokenEmbedding]: what the loader keeps and what it refuses *)

Lemma comprehension_length {A B : Type} (f : A -> result B) l bs :
  Py.comprehension f l = Ok bs -> length bs = length l.
Proof. intros H%comprehension_Ok. symmetry. by eapply Forall2_length. Qed.

Section LoaderFacts.
Import Embedding Synonyms.
Variable float : string -> result spec_float.

(** The numbers of a line, when all of them are well-formed. *)
Let numbers (line : string) : result (list spec_float) :=
  Py.comprehension float (tl (fields line)).

(** The lines that carry a word: a token and at least two numbers. *)
Let word_lines (lines : list string) : list string :=
  filter (fun line => (2 < length (fields line))%nat) lines.

Lemma numbers_length line elems :
  numbers line = Ok elems -> length elems = pred (length (fields line)).
Proof.
  intros H%comprehension_length. rewrite H. by destruct (fields line).
Qed.

Lemma load_lines_Ok lines toks vecs toks' vecs' :
  load_lines float lines toks vecs = Ok (toks', vecs') ->
  ∃ vs,
    toks' = toks ++ map (fun line => hd EmptyString (fields line)) (word_lines lines) ∧
    vecs' = vecs ++ vs ∧
    Forall2 (fun line v => numbers line = Ok v) (word_lines lines) vs.
Proof.
  revert toks vecs. induction lines as [|line rest IH]; intros toks vecs.
  - intros [= <- <-]. exists []. rewrite !app_nil_r. by repeat split.
  - cbn [load_lines]. fold (fields line). fold (numbers line).
    destruct (numbers line) as [elems|e] eqn:Hline; [|done].
    cbn [mbind result_bind].
    pose proof (numbers_length _ _ Hline) as Hlen.
    unfold word_lines. rewrite filter_cons.
    destruct (1 <? length elems)%nat eqn:Htest.
    + apply Nat.ltb_lt in Htest.
      rewrite decide_True by lia. intros Hrest.
      apply IH in Hrest as (vs & -> & -> & Hvs).
      exists (elems :: vs). rewrite <- !app_assoc. repeat split; try done.
      by constructor.
    + apply Nat.ltb_ge in Htest.
      rewrite decide_False by lia. apply IH.
Qed.

Lemma load_lines_parsed lines toks vecs :
  Forall (fun line => ∃ elems, numbers line = Ok elems) lines ->
  ∃ vs,
    load_lines float lines toks vecs
    = Ok (toks ++ map (fun line => hd EmptyString (fields line)) (word_lines lines),
          vecs ++ vs) ∧
    Forall2 (fun line v => numbers line = Ok v) (word_lines lines) vs.
Proof.
  intros Hall. revert toks vecs.
  induction Hall as [|line rest [elems Hline] Hrest IH]; intros toks vecs.
  - exists []. by rewrite !app_nil_r.
  - cbn [load_lines]. fold (fields line). fold (numbers line). rewrite Hline.
    cbn [mbind result_bind].
    pose proof (numbers_length _ _ Hline) as Hlen.
    unfold word_lines. rewrite filter_cons.
    destruct (1 <? length elems)%nat eqn:Htest.
    + apply Nat.ltb_lt in Htest. rewrite decide_True by lia.
      destruct (IH (toks ++ [hd EmptyString (fields line)]) (vecs ++ [elems]))
        as (vs & -> & Hvs).
      exists (elems :: vs). rewrite <- !app_assoc. split; [done|].
      by constructor.
    + apply Nat.ltb_ge in Htest. rewrite decide_False by lia. apply IH.
Qed.

(** X9. What a successful construction has read: the vocabulary is
    '<unk>' followed by the first field of every line that has a token
    and at least two numbers, in the order of the file, the other
    lines (a header, a blank line) being skipped; there is at least
    one such line; and the row of a word holds the numbers of its line
    as binary32. *)
Theorem TokenEmbedding_vocabulary lines te :
  __init__ float lines = Ok te ->
  let words := filter (fun line => (2 < length (fields line))%nat) lines in
  idx_to_token te = "<unk>" :: map (fun line => hd EmptyString (fields line)) words ∧
  __len__ te = S (length words) ∧
  (0 < length words)%nat ∧
  Forall2 (fun line row =>
             ∃ elems, Py.comprehension float (tl (fields line)) = Ok elems ∧
                      row = map F32.of_f64 elems)
    words (tl (idx_to_vec te)).
Proof.
  unfold __init__, _load_embedding. intros Hinit. cbv zeta.
  destruct (load_lines _ _ _ _) as [[toks vecs]|e] eqn:Hload;
    cbn -[np_array] in Hinit; [|done].
  apply load_lines_Ok in Hload as (vs & -> & -> & Hvs).
  fold (word_lines lines). cbn -[np_array] in Hinit.
  destruct (Py.getitem vs 0) as [first|e] eqn:Hfirst;
    cbn -[np_array] in Hinit; [|done].
  destruct (np_array _) as [arr|e] eqn:Harr; cbn -[np_array] in Hinit; [|done].
  injection Hinit as <-. apply np_array_Ok in Harr as [-> _].
  unfold __len__. cbn [idx_to_token idx_to_vec map tl length].
  rewrite length_map. apply Forall2_length in Hvs as Hlen.
  split; [done|]. split; [done|]. split.
  - apply getitem_Ok, lookup_lt_Some in Hfirst. lia.
  - apply Forall2_fmap_r. eapply Forall2_impl; [done|].
    intros line v Hv. by exists v.
Qed.

(** X10. A file without a single word line -- an empty file, or a file
    that holds nothing but a header -- cannot be loaded: the
    constructor ends with [IndexError], raised where it asks for the
    first vector to size the row of zeros. *)
Theorem TokenEmbedding_no_word_line lines :
  Forall (fun line =>
            (length (fields line) <= 2)%nat ∧
            ∃ elems, Py.comprehension float (tl (fields line)) = Ok elems)
    lines ->
  __init__ float lines = Raise IndexError.
Proof.
  intros Hall.
  assert (Hparse : Forall (fun line => ∃ elems, numbers line = Ok elems) lines).
  { eapply Forall_impl; [done|]. by intros line [_ ?]. }
  assert (Hnone : word_lines lines = []).
  { unfold word_lines. clear Hparse.
    induction Hall as [|line rest [Hline _] _ IH]; [done|].
    rewrite filter_cons, decide_False by lia. done. }
  destruct (load_lines_parsed lines ["<unk>"] [] Hparse) as (vs & Hload & Hvs).
  rewrite Hnone in Hvs. apply Forall2_nil_inv_l in Hvs as ->.
  unfold __init__, _load_embedding. by rewrite Hload.
Qed.

(** X11. Word lines that do not all carry the same number of numbers
    cannot be loaded either: the rows would not form a matrix, and the
    constructor ends with the [TypeError] of [np.array]. *)
Theorem TokenEmbedding_ragged_lines lines line1 line2 :
  Forall (fun line => ∃ elems, Py.comprehension float (tl (fields line)) = Ok elems)
    lines ->
  line1 ∈ lines -> line2 ∈ lines ->
  (2 < length (fields line1))%nat -> (2 < length (fields line2))%nat ->
  length (fields line1) ≠ length (fields line2) ->
  __init__ float lines = Raise TypeError.
Proof.
  intros Hparse H1 H2 Hw1 Hw2 Hne.
  destruct (load_lines_parsed lines ["<unk>"] [] Hparse) as (vs & Hload & Hvs).
  unfold __init__, _load_embedding. rewrite Hload. cbn -[np_array].
  assert (Hrow : ∀ line, line ∈ lines -> (2 < length (fields line))%nat ->
                   ∃ v, v ∈ vs ∧ length v = pred (length (fields line))).
  { intros line Hin Hw.
    assert (Hword : line ∈ word_lines lines)
      by (by apply list_elem_of_filter).
    apply list_elem_of_lookup in Hword as [i Hi].
    destruct (Forall2_lookup_l _ _ _ _ _ Hvs Hi) as (v & Hv & Hnum).
    exists v. split; [by eapply list_elem_of_lookup_2|].
    by apply numbers_length. }
  destruct (Hrow line1 H1 Hw1) as (v1 & Hv1 & Hlen1).
  destruct (Hrow line2 H2 Hw2) as (v2 & Hv2 & Hlen2).
  destruct vs as [|first vs]; [by apply elem_of_nil in Hv1|].
  cbn -[np_array]. unfold np_array.
  replace (forallb _ _) with false; [done|].
  symmetry. apply not_true_is_false. intros Hall.
  rewrite forallb_forall in Hall.
  assert (Hsame : ∀ v, v ∈ first :: vs -> length v = length first).
  { intros v Hv. specialize (Hall v).
    rewrite length_replicate in Hall. apply Nat.eqb_eq, Hall.
    right. by apply list_elem_of_In. }
  specialize (Hsame v1 Hv1) as Hs1. specialize (Hsame v2 Hv2) as Hs2. lia.
Qed.

(** On a constructed instance every list of tokens has its rows. *)
Lemma getitem_total lines te tokens :
  __init__ float lines = Ok te ->
  ∃ vecs dim,
    __getitem__ te tokens = Ok vecs ∧ length vecs = length tokens ∧
    Forall (fun row => length row = dim) vecs ∧
    Forall (fun row => length row = dim) (idx_to_vec te) ∧
    length (idx_to_token te) = length (idx_to_vec te) ∧
    (0 < length (idx_to_vec te))%nat.
Proof.
  intros Hinit.
  destruct (init_shape _ _ _ Hinit) as (dim & Hlen & Hunk & Hidx & Hdict & Hzero & Hdim).
  assert (Hrange : ∀ t, ∃ row,
    idx_to_vec te !! default (unknown_idx te) (token_to_idx te !! t) = Some row).
  { intros t. apply lookup_lt_is_Some. rewrite <- Hlen.
    destruct (token_to_idx te !! t) as [j|] eqn:Hj; simpl.
    - rewrite Hdict in Hj. apply dict_of_enumerate_lookup in Hj as [Hj _].
      by apply lookup_lt_Some in Hj.
    - rewrite Hidx. by apply lookup_lt_Some in Hunk. }
  exists (map (fun t => default [] (idx_to_vec te !!
                 default (unknown_idx te) (token_to_idx te !! t))) tokens), dim.
  split; [|split; [by rewrite length_map|split; [|split; [done|split; [done|]]]]].
  - apply comprehension_Ok. unfold indices_of.
    apply Forall2_fmap, Forall_Forall2_diag, Forall_forall.
    intros t _. apply getitem_Ok. by destruct (Hrange t) as [row ->].
  - apply Forall_forall. intros row (t & -> & _)%list_elem_of_fmap.
    destruct (Hrange t) as [row Hrow]. rewrite Hrow. simpl.
    rewrite Forall_forall in Hdim. apply Hdim. by eapply list_elem_of_lookup_2.
  - apply lookup_lt_Some in Hzero. lia.
Qed.
End LoaderFacts.

(** ** [knn], [get_analogy] and [get_similar_tokens]: errors and shapes *)

Section NeighbourFacts.
Import Embedding Similarity Synonyms.

Lemma topk_Ok (cos : vector) k :
  (k <= length cos)%nat ->
  ∃ idx, topk cos k = Ok idx ∧
         length idx = match k with O => length cos | _ => k end ∧
         NoDup idx ∧ Forall (fun i => i < length cos)%nat idx.
Proof.
  intros Hk. unfold topk. rewrite decide_False by lia.
  set (order := Py.sort (before cos) (seq 0 (length cos))).
  assert (Hperm : order ≡ₚ seq 0 (length cos)) by apply sort_Permutation.
  assert (Hnd : NoDup order) by (rewrite Hperm; apply NoDup_seq).
  assert (Hlen : length order = length cos) by (by rewrite Hperm, length_seq).
  assert (Hin : Forall (fun i => i < length cos)%nat order).
  { apply Forall_forall. intros i Hi. rewrite Hperm in Hi.
    apply elem_of_seq in Hi. lia. }
  eexists. split; [done|]. destruct k as [|k]; [done|].
  split; [rewrite length_take; lia|].
  split; [|by apply Forall_take].
  rewrite <- (take_drop (S k) order) in Hnd.
  by apply NoDup_app in Hnd as [? _].
Qed.

Lemma knn_Ok W x k :
  Forall (fun row => length row = length x) W -> (k <= length W)%nat ->
  ∃ idx, knn W x k = Ok (idx, map (similarity W x) idx) ∧
         length idx = match k with O => length W | _ => k end ∧
         NoDup idx ∧ Forall (fun i => i < length W)%nat idx.
Proof.
  intros Hshape Hk. unfold knn. rewrite cosines_Ok by done.
  cbn [mbind result_bind].
  destruct (topk_Ok (map (fun row => cosine row x) W) k)
    as (idx & -> & Hlen & Hnd & Hin); [by rewrite length_map|].
  rewrite length_map in Hlen, Hin. cbn [mbind result_bind].
  rewrite lookup_values by done. by exists idx.
Qed.

Lemma knn_Raise W x k :
  ¬ (Forall (fun row => length row = length x) W ∧ (k <= length W)%nat) ->
  knn W x k = Raise MXNetError.
Proof.
  intros Hnot. unfold knn.
  destruct (cosines W x) as [cos|e] eqn:Hcos.
  - apply cosines_shape in Hcos as [Hshape ->]. cbn [mbind result_bind].
    unfold topk. rewrite length_map.
    destruct (decide (length W < k)%nat) as [|Hk]; [done|].
    destruct Hnot. split; [done|lia].
  - cbn [mbind result_bind]. unfold cosines, np_dot in Hcos.
    destruct (forallb _ W); [done|]. cbn in Hcos. congruence.
Qed.

(** X12. When [knn] answers and when it does not: it returns as soon
    as every row of [W] is as long as [x] and [k] is not above the
    number of rows, and in every other case it ends with the error of
    the framework; no other exception leaves it. *)
Theorem knn_succeeds_iff W x k :
  (Forall (fun row => length row = length x) W ∧ (k <= length W)%nat ->
   ∃ r, knn W x k = Ok r)
  ∧ (¬ (Forall (fun row => length row = length x) W ∧ (k <= length W)%nat) ->
     knn W x k = Raise MXNetError).
Proof.
  split.
  - intros [Hshape Hk]. destruct (knn_Ok W x k Hshape Hk) as (idx & -> & _).
    by eexists.
  - apply knn_Raise.
Qed.


Variable float : string -> result spec_float.

(** X14. On an instance that the constructor has built, [get_analogy]
    always answers, for known and unknown tokens alike, and its
    answer is a token of the vocabulary. *)
Theorem get_analogy_answers lines embed token_a token_b token_c :
  __init__ float lines = Ok embed ->
  ∃ answer, get_analogy token_a token_b token_c embed = Ok answer ∧
            answer ∈ idx_to_token embed.
Proof.
  intros Hinit.
  destruct (getitem_total float lines embed [token_a; token_b; token_c] Hinit)
    as (vecs & dim & Hvecs & Hlen & Hrows & Hdim & Htok & Hpos).
  unfold get_analogy. rewrite Hvecs. cbn [mbind result_bind].
  destruct vecs as [|va [|vb [|vc [|? ?]]]]; try done.
  apply Forall_cons in Hrows as [Ha Hrows].
  apply Forall_cons in Hrows as [Hb Hrows].
  apply Forall_cons in Hrows as [Hc _].
  cbn [analogy_query Py.getitem lookup list_lookup mbind result_bind].
  unfold analogy_query, Py.getitem. cbn [lookup list_lookup mbind result_bind].
  set (x := zip_with F32.add (zip_with F32.sub vb va) vc).
  assert (Hx : length x = dim).
  { unfold x. rewrite !length_zip_with. lia. }
  destruct (knn_Ok (idx_to_vec embed) x 1) as (idx & Hknn & Hidx & _ & Hin).
  { eapply Forall_impl; [done|]. intros row Hrow. cbn in Hrow. congruence. }
  { lia. }
  rewrite Hknn. cbn [mbind result_bind].
  destruct idx as [|i [|? ?]]; try done.
  apply Forall_cons in Hin as [Hi _]. cbn [lookup list_lookup].
  rewrite <- Htok in Hi. apply lookup_lt_is_Some_2 in Hi as [answer Hanswer].
  exists answer. cbn [mbind result_bind]. rewrite Hanswer. split; [done|].
  by eapply list_elem_of_lookup_2.
Qed.


End NeighbourFacts.

(** ** The label file: lines, fields, rows *)

Section CsvFacts.
Import FS Kaggle Csv.

Lemma append_nil_l (t : string) : EmptyString +:+ t = t.
Proof. reflexivity. Qed.

Lemma append_cons c (s t : string) : String c s +:+ t = String c (s +:+ t).
Proof. reflexivity. Qed.

Lemma append_assoc (s t u : string) : (s +:+ t) +:+ u = s +:+ t +:+ u.
Proof.
  induction s as [|c s IH]; [done|]. by rewrite !append_cons, IH.
Qed.

Lemma readlines_line s rest :
  free_of (ascii_of_nat 10) s = true ->
  readlines (s +:+ LF +:+ rest) = (s +:+ LF) :: readlines rest.
Proof.
  induction s as [|c s IH]; intros Hfree.
  - rewrite !append_nil_l. unfold LF. rewrite append_cons, append_nil_l.
    cbn [readlines]. by rewrite Ascii.eqb_refl.
  - cbn [free_of] in Hfree. apply andb_true_iff in Hfree as [Hc Hs].
    apply negb_true_iff in Hc. rewrite !append_cons. cbn [readlines].
    by rewrite Hc, IH.
Qed.

(** Stripping looks at the end of a string only. *)
Lemma rstrip_app s t :
  Py.rstrip (s +:+ t)
  = match Py.rstrip t with
    | EmptyString => Py.rstrip s
    | r => s +:+ r
    end.
Proof.
  induction s as [|c s IH].
  - rewrite append_nil_l. by destruct (Py.rstrip t).
  - rewrite append_cons. cbn [Py.rstrip]. rewrite IH.
    destruct (Py.rstrip t) as [|c' r]; [done|].
    rewrite append_cons. by destruct s.
Qed.

Lemma split_free sep s :
  free_of sep s = true -> Py.split sep s = [s].
Proof.
  induction s as [|c s IH]; [done|]. cbn [free_of Py.split].
  intros [Hc Hs]%andb_true_iff. apply negb_true_iff in Hc.
  by rewrite Hc, IH.
Qed.

Lemma split_app sep s t :
  free_of sep s = true ->
  Py.split sep (s +:+ String sep t) = s :: Py.split sep t.
Proof.
  induction s as [|c s IH]; cbn [free_of].
  - intros _. rewrite append_nil_l. cbn [Py.split]. by rewrite Ascii.eqb_refl.
  - intros [Hc Hs]%andb_true_iff. apply negb_true_iff in Hc.
    rewrite append_cons. cbn [Py.split]. by rewrite Hc, IH.
Qed.

Lemma free_of_app c s t :
  free_of c s = true -> free_of c t = true -> free_of c (s +:+ t) = true.
Proof.
  intros Hs Ht. induction s as [|c' s IH]; [done|].
  cbn [free_of] in Hs. apply andb_true_iff in Hs as [Hc Hs].
  rewrite append_cons. cbn [free_of]. rewrite Hc. by apply IH.
Qed.

Lemma clean_fields name label :
  clean (name, label) = true ->
  free_of "," name = true ∧ free_of "," label = true ∧
  free_of (ascii_of_nat 10) name = true ∧
  free_of (ascii_of_nat 10) label = true ∧
  free_of (ascii_of_nat 13) name = true ∧
  free_of (ascii_of_nat 13) label = true ∧
  Py.rstrip label = label.
Proof.
  unfold clean. cbn [fst snd]. rewrite !andb_true_iff, String.eqb_eq.
  tauto.
Qed.

(** A text without carriage returns is read as it is. *)
Lemma newlines_free text :
  free_of (ascii_of_nat 13) text = true -> newlines text = text.
Proof.
  induction text as [|c text IH]; [done|]. cbn [free_of newlines].
  intros [Hc Htext]%andb_true_iff. apply negb_true_iff in Hc.
  by rewrite Hc, IH.
Qed.

Lemma csv_text_free header rows :
  free_of (ascii_of_nat 13) header = true ->
  Forall (fun row => clean row = true) rows ->
  free_of (ascii_of_nat 13) (csv_text header rows) = true.
Proof.
  intros Hheader Hrows. unfold csv_text.
  apply free_of_app; [done|]. apply free_of_app; [done|].
  induction Hrows as [|[name label] rows Hrow Hrows IH]; [done|].
  apply clean_fields in Hrow as (_ & _ & _ & _ & Hn & Hl & _).
  cbn [foldr fst snd].
  repeat (apply free_of_app; [done|]). done.
Qed.

(** The line of a clean row gives its two fields back. *)
Lemma fields_of_line row :
  clean row = true ->
  Py.split "," (Py.rstrip (row.1 +:+ "," +:+ row.2 +:+ LF)) = [row.1; row.2].
Proof.
  destruct row as [name label]. cbn [fst snd].
  intros (Hn & Hl & _ & _ & _ & _ & Hstrip)%clean_fields.
  assert (Htail : Py.rstrip ("," +:+ label +:+ LF) = String "," label).
  { rewrite append_cons, append_nil_l. cbn [Py.rstrip]. rewrite rstrip_app.
    replace (Py.rstrip LF) with EmptyString by done.
    rewrite Hstrip. by destruct label. }
  rewrite rstrip_app, Htail, split_app by done. by rewrite split_free.
Qed.

Lemma readlines_rows rows :
  Forall (fun row => clean row = true) rows ->
  map (fun l => Py.split "," (Py.rstrip l))
    (readlines (foldr (fun row text => row.1 +:+ "," +:+ row.2 +:+ LF +:+ text)
                  EmptyString rows))
  = map (fun row => [row.1; row.2]) rows.
Proof.
  induction 1 as [|row rows Hrow Hrows IH]; [done|]. cbn [foldr].
  assert (Hfree : free_of (ascii_of_nat 10) (row.1 +:+ "," +:+ row.2) = true).
  { destruct row as [name label].
    apply clean_fields in Hrow as (_ & _ & Hn & Hl & _). cbn [fst snd].
    apply free_of_app; [done|]. by apply free_of_app. }
  replace (row.1 +:+ "," +:+ row.2 +:+ LF +:+ _)
    with ((row.1 +:+ "," +:+ row.2) +:+ LF +:+
          foldr (fun row text => row.1 +:+ "," +:+ row.2 +:+ LF +:+ text)
            EmptyString rows)
    by (by rewrite !append_assoc).
  rewrite readlines_line by done. cbn [map]. rewrite IH.
  f_equal. rewrite !append_assoc. by apply fields_of_line.
Qed.

Lemma dict_of_rows_Ok (rows : list (string * string)) d :
  dict_of_rows (map (fun row => [row.1; row.2]) rows) d
  = Ok (fold_left (fun d row => <[row.1 := row.2]> d) rows d).
Proof.
  revert d. induction rows as [|row rows IH]; intros d; [done|].
  cbn [map dict_of_rows fold_left]. apply IH.
Qed.

Lemma dict_of_rows_Raise tokens d :
  ¬ Forall (fun t : list string => length t = 2%nat) tokens ->
  dict_of_rows tokens d = Raise ValueError.
Proof.
  revert d. induction tokens as [|t tokens IH]; intros d Hnot.
  - destruct Hnot. constructor.
  - destruct t as [|name [|label [|? ?]]]; try done.
    cbn [dict_of_rows]. apply IH. intros Hall. apply Hnot. by constructor.
Qed.

Lemma fold_insert_rows (rows : list (string * string)) :
  fold_left (fun d row => <[row.1 := row.2]> d) rows (∅ : gmap string string)
  = list_to_map (reverse rows).
Proof.
  induction rows as [|row rows IH] using rev_ind; [done|].
  rewrite fold_left_app, reverse_snoc, IH. by destruct row.
Qed.

(** The two fields of a line that has exactly two. *)
Let pair_of (t : list string) : string * string :=
  (default EmptyString (t !! 0%nat), default EmptyString (t !! 1%nat)).

(** X16. What [read_csv_labels] makes of a file that is there.  The
    text is read with universal newlines, and its first line is
    skipped whatever it holds.  When every other line, its white space
    at the end stripped, has exactly two fields between commas, the
    result maps the first field to the second, the last line of a name
    winning; when some line has another number of fields, the call ends
    with [ValueError].  The file system is left as it was in both
    cases. *)
Theorem read_csv_labels_rows fname w text :
  files w !! fname = Some text ->
  let tokens := map (fun l => Py.split "," (Py.rstrip l))
                  (tl (readlines (newlines text))) in
  (Forall (fun t => length t = 2%nat) tokens ->
   read_csv_labels fname w
   = (w, Ok (list_to_map
               (reverse
                  (map (fun t => (default EmptyString (t !! 0%nat),
                                  default EmptyString (t !! 1%nat))) tokens)))))
  ∧ (¬ Forall (fun t => length t = 2%nat) tokens ->
     read_csv_labels fname w = (w, Raise ValueError)).
Proof.
  intros Hfile tokens.
  assert (Hrun : read_csv_labels fname w = (w, dict_of_rows tokens ∅)).
  { unfold read_csv_labels, mbind, io_bind, open, lift. by rewrite Hfile. }
  rewrite Hrun. split.
  - intros Hall. f_equal. fold pair_of.
    assert (Htok : tokens = map (fun row => [row.1; row.2]) (map pair_of tokens)).
    { clear Hrun. induction Hall as [|t ts Ht Hts IH]; [done|].
      cbn [map]. rewrite <- IH. f_equal.
      by destruct t as [|name [|label [|? ?]]]. }
    rewrite Htok at 1. by rewrite dict_of_rows_Ok, fold_insert_rows.
  - intros Hnot. by rewrite dict_of_rows_Raise.
Qed.

Lemma read_csv_text fname w header rows :
  files w !! fname = Some (csv_text header rows) ->
  free_of (ascii_of_nat 10) header = true ->
  free_of (ascii_of_nat 13) header = true ->
  Forall (fun row => clean row = true) rows ->
  read_csv_labels fname w = (w, Ok (list_to_map (reverse rows))).
Proof.
  intros Hfile Hheader Hreturn Hrows.
  unfold read_csv_labels, mbind, io_bind, open, lift. rewrite Hfile.
  rewrite newlines_free by (by apply csv_text_free).
  unfold csv_text. rewrite readlines_line by done. cbn [tl].
  by rewrite readlines_rows, dict_of_rows_Ok, fold_insert_rows.
Qed.

(** X17. Reading gives back what a label file was written from.  For a
    file that holds a header line and then one line [name,label] per
    row, the header and the rows being free of line feeds and carriage
    returns, the rows of commas and the labels of white space at their
    end, [read_csv_labels] returns the map of the rows; of two rows
    with one name the later one counts. *)
Theorem read_csv_labels_round_trip fname w header rows :
  files w !! fname = Some (csv_text header rows) ->
  free_of (ascii_of_nat 10) header = true ->
  free_of (ascii_of_nat 13) header = true ->
  Forall (fun row => clean row = true) rows ->
  read_csv_labels fname w = (w, Ok (list_to_map (reverse rows))).
Proof. apply read_csv_text. Qed.
End CsvFacts.

(** ** [reorg_test] and [reorg_cifar10_data] *)

Section ReorgMore.
Import FS Kaggle.
Variable readdir : list string -> list string.
Variable data_dir : list string.

Let from (f : string) : list string := data_dir ++ ["test"; f].
Let into (f : string) : list string := tree data_dir "test" "unknown" ++ [f].

Lemma basename_from f : basename (from f) = f.
Proof.
  unfold from. change ["test"; f] with (["test"] ++ [f]).
  by rewrite app_assoc, basename_snoc.
Qed.

Lemma from_not_into f g : from f ≠ into g.
Proof.
  intros Heq. apply (test_not_below data_dir [f]). fold (from f).
  rewrite Heq. apply tree_below.
Qed.

Lemma into_inj f g : into f = into g -> f = g.
Proof. unfold into. intros H%app_inj_tail. by destruct H. Qed.

Lemma unknown_plain : plain "unknown" = true.
Proof. reflexivity. Qed.

Lemma test_loop_spec fs w :
  tidy data_dir w ->
  (∀ f, f ∈ fs -> is_Some (files w !! from f)) ->
  ∃ w', test_loop data_dir fs w = (w', Ok ()) ∧
        copied w' = copied w ++ map (fun f => (from f, into f)) fs ∧
        (∀ p, p ∉ map into fs -> files w' !! p = files w !! p) ∧
        (∀ f, f ∈ fs -> files w' !! into f = files w !! from f) ∧
        tidy data_dir w' ∧ dirs w ⊆ dirs w'.
Proof.
  revert w. induction fs as [|f fs IH]; intros w Htidy Hsrc.
  - exists w. rewrite app_nil_r. do 3 (split; [done|]).
    split; [by intros f ?%elem_of_nil|done].
  - destruct (Hsrc f) as [contents Hf]; [by left|].
    cbn [test_loop]. unfold mbind at 1, io_bind at 1.
    destruct (copyfile_ready data_dir (data_dir ++ ["test"; f]) "test"
                "unknown" f w contents Htidy unknown_plain Hf
                (basename_from f) (test_not_below data_dir [f]))
      as (w1 & Hrun1 & Hfiles1 & Hlog1 & Htidy1 & Hdirs1).
    rewrite Hrun1. fold (into f) in Hfiles1, Hlog1. fold (from f) in Hlog1.
    assert (Hkeep : ∀ g, files w1 !! from g = files w !! from g).
    { intros g. rewrite Hfiles1. apply lookup_insert_ne.
      intros Heq. by apply (from_not_into g f). }
    destruct (IH w1 Htidy1) as (w' & Hrun & Hlog & Hframe & Hcont & Htidy' & Hdirs').
    { intros g Hg. rewrite Hkeep. apply Hsrc. by right. }
    exists w'. split; [done|]. split; [|split; [|split; [|split; [done|by etrans]]]].
    + rewrite Hlog, Hlog1. cbn [map]. by rewrite <- app_assoc.
    + intros p Hp. cbn [map] in Hp. apply not_elem_of_cons in Hp as [Hne Hp].
      rewrite Hframe by done. rewrite Hfiles1.
      by apply lookup_insert_ne.
    + intros g Hg. destruct (decide (g ∈ fs)) as [Hin|Hout].
      * by rewrite Hcont, Hkeep.
      * apply elem_of_cons in Hg as [->|?]; [|done].
        rewrite Hframe.
        -- rewrite Hfiles1. by rewrite lookup_insert_eq.
        -- intros (g & Heq & Hg)%list_elem_of_fmap.
           apply into_inj in Heq as ->. done.
Qed.

(** X18. [reorg_test] on a [test] directory of regular files, with
    nothing in the way under [train_valid_test]: it ends normally; it
    makes one copy per file, in the order of the listing, from
    [test/<name>] to [train_valid_test/test/unknown/<name>]; each of
    these files ends with the contents of its source; and every other
    path is as it was.  Without a directory [test], the error of
    [os.listdir] leaves and the world is as it was. *)
Theorem reorg_test_copies w :
  ((∀ l, readdir l ≡ₚ l) ->
   data_dir ++ ["test"] ∈ dirs w ->
   tidy data_dir w ->
   (∀ f, f ∈ entries w (data_dir ++ ["test"]) ->
         is_Some (files w !! (data_dir ++ ["test"; f]))) ->
   let listing := readdir (entries w (data_dir ++ ["test"])) in
   ∃ w', reorg_test readdir data_dir w = (w', Ok ()) ∧
         copied w' = copied w ++
           map (fun f => (data_dir ++ ["test"; f],
                          tree data_dir "test" "unknown" ++ [f])) listing ∧
         (∀ f, f ∈ entries w (data_dir ++ ["test"]) ->
               files w' !! (tree data_dir "test" "unknown" ++ [f])
               = files w !! (data_dir ++ ["test"; f])) ∧
         (∀ p, (∀ f, f ∈ entries w (data_dir ++ ["test"]) ->
                     p ≠ tree data_dir "test" "unknown" ++ [f]) ->
               files w' !! p = files w !! p))
  ∧ (data_dir ++ ["test"] ∉ dirs w ->
     ∃ payload, reorg_test readdir data_dir w = (w, Raise (OSError payload))).
Proof.
  split.
  - intros Hperm Hdir Htidy Hfiles listing.
    assert (Hin : ∀ f, f ∈ listing <-> f ∈ entries w (data_dir ++ ["test"])).
    { intros f. unfold listing. by rewrite Hperm. }
    destruct (test_loop_spec listing w Htidy)
      as (w' & Hrun & Hlog & Hframe & Hcont & _).
    { intros f Hf. apply Hfiles. by apply Hin. }
    exists w'. split; [|split; [done|split]].
    + unfold reorg_test, mbind, io_bind, listdir.
      rewrite decide_True by done. by fold listing.
    + intros f Hf. apply Hcont. by apply Hin.
    + intros p Hp. apply Hframe.
      intros (f & -> & Hf)%list_elem_of_fmap. apply (Hp f); [|done].
      by apply Hin.
  - intros Hdir. unfold reorg_test, mbind, io_bind, listdir.
    rewrite decide_False by done.
    destruct (files w !! _); [by eexists|].
    unfold no_file. rewrite decide_False by done.
    destruct (blocked w _); by eexists.
Qed.

(** X19. [reorg_cifar10_data] stops at the step that fails first, with
    nothing copied: when [trainLabels.csv] cannot be opened, the error
    of [open] leaves, and with a label file of at most one line --
    empty, or a header alone -- the empty label map makes
    [reorg_train_valid] end with [IndexError] before it looks at any
    file. *)
Theorem reorg_cifar10_data_stops_early valid_ratio w :
  (∀ e, (open (data_dir ++ ["trainLabels.csv"]) w).2 = Raise e ->
        reorg_cifar10_data readdir data_dir valid_ratio w = (w, Raise e))
  ∧ (∀ text,
       files w !! (data_dir ++ ["trainLabels.csv"]) = Some text ->
       (length (readlines (newlines text)) <= 1)%nat ->
       reorg_cifar10_data readdir data_dir valid_ratio w
       = (w, Raise IndexError)).
Proof.
  split.
  - intros e.
    unfold reorg_cifar10_data, read_csv_labels, mbind, io_bind, open.
    destruct (files w !! _); cbn [snd]; [done|]. by intros [= ->].
  - intros text Hfile Hlen.
    assert (Hrows : tl (readlines (newlines text)) = []).
    { destruct (readlines (newlines text)) as [|l [|? ?]]; try done.
      cbn in Hlen. lia. }
    unfold reorg_cifar10_data, read_csv_labels, mbind, io_bind, open, lift.
    rewrite Hfile, Hrows. cbn [map dict_of_rows].
    unfold reorg_train_valid, mbind, io_bind, lift, least_count.
    rewrite map_to_list_empty. done.
Qed.
End ReorgMore.

(** ** The submission: the order of the ids, the one error *)

Lemma comprehension_Raise {A B : Type} (f : A -> result B) l e :
  Py.comprehension f l = Raise e -> ∃ a, a ∈ l ∧ f a = Raise e.
Proof.
  induction l as [|a l IH]; [done|]. cbn [Py.comprehension].
  destruct (f a) as [b|e'] eqn:Ha; cbn [mbind result_bind].
  - destruct (Py.comprehension f l) as [bs|e'']; [done|].
    cbn [mbind result_bind]. intros [= ->].
    destruct IH as (a' & Hin & Ha'); [done|]. exists a'. split; [by right|done].
  - intros [= ->]. exists a. split; [by left|done].
Qed.

Section SubmissionMore.
Import Submission.

(** X20. The ids of the submission are in the order of the numbers
    exactly when there are fewer than ten test images: from ten on, the
    order of the decimal strings puts 10 before 2. *)
Theorem sorted_ids_numeric_iff n :
  sorted_ids n = map Z.of_nat (seq 1 n) <-> (n < 10)%nat.
Proof.
  split.
  - intros Heq. destruct (decide (n < 10)%nat) as [|Hge]; [done|]. exfalso.
    pose proof (sorted_ids_sorted n) as Hsorted. rewrite Heq in Hsorted.
    do 10 (destruct n as [|n]; [lia|]).
    cbn [seq map] in Hsorted.
    apply StronglySorted_cons in Hsorted as [_ Hsorted].
    apply StronglySorted_cons in Hsorted as [Hfrom2 _].
    do 7 (apply Forall_cons in Hfrom2 as [_ Hfrom2]).
    apply Forall_cons in Hfrom2 as [H10 _].
    vm_compute in H10. discriminate.
  - intros Hn. do 10 (destruct n as [|n]; [vm_compute; reflexivity|]). lia.
Qed.

Context {Img : Type} (predict : Img -> nat) (synsets : list string).

(** X21. The rows of the submission can fail in one way only: with
    [IndexError], when the class index predicted for some test image
    has no name in [synsets].  The two columns of the data frame
    always have one length. *)
Theorem submission_only_error test_ds batch_size e :
  submission predict synsets test_ds batch_size = Raise e ->
  e = IndexError ∧
  ∃ img, img ∈ test_ds ∧ (length synsets <= predict img)%nat.
Proof.
  unfold submission, DataFrame.
  rewrite predictions_DataLoader, sorted_ids_length, length_map.
  rewrite decide_True by done. cbn [mbind result_bind].
  unfold apply_synsets. intros ([id p] & Hrow & Hfail)%comprehension_Raise.
  cbn [snd fst] in Hfail. unfold Py.getitem in Hfail.
  destruct (synsets !! p) as [label|] eqn:Hp; [done|].
  cbn [mbind result_bind] in Hfail. injection Hfail as <-. split; [done|].
  apply elem_of_zip_r in Hrow.
  apply list_elem_of_fmap in Hrow as (img & -> & Himg).
  exists img. split; [done|]. by apply lookup_ge_None.
Qed.
End SubmissionMore.

(** ** The training loop: the learning rate and the divisions *)

Section TrainingFacts.
Import Training.
Context {Model Batch : Type}.
Variable step :
  spec_float -> Model -> Batch -> Model * (spec_float * spec_float * Z).
Variable evaluate_accuracy_gpu : Model -> list Batch -> spec_float.

(** Every batch holds at least one example. *)
Hypothesis batches_not_empty : ∀ lr net batch, 0 < (step lr net batch).2.2.

Lemma batch_loop_count lr net train_iter l c n :
  n + Z.of_nat (length train_iter)
  <= (batch_loop step lr net train_iter l c n).2.2.
Proof.
  revert net l c n. induction train_iter as [|batch rest IH]; intros net l c n.
  - cbn. lia.
  - cbn [batch_loop length].
    pose proof (batches_not_empty lr net batch) as Hsize.
    destruct (step lr net batch) as [net' [[l' c'] size]]. cbn [snd] in Hsize.
    pose proof (IH net' (fadd l l') (fadd c c') (n + size)). lia.
Qed.

Lemma decays_schedule epoch lr_period :
  0 < lr_period -> 0 <= epoch ->
  ∃ decay, decays epoch lr_period = inr decay ∧
           Z.to_nat (epoch / lr_period)
           = ((if decay then 1 else 0)
              + Z.to_nat (Z.max 0 (epoch - 1) / lr_period))%nat.
Proof.
  intros Hp He. unfold decays.
  destruct (0 <? epoch) eqn:Hpos.
  - apply Z.ltb_lt in Hpos.
    replace (lr_period =? 0) with false by (symmetry; apply Z.eqb_neq; lia).
    eexists. split; [done|]. rewrite Z.max_r by lia.
    pose proof (Z.div_mod epoch lr_period ltac:(lia)) as Hdm.
    pose proof (Z.mod_pos_bound epoch lr_period Hp) as Hr.
    assert (Hq : 0 <= epoch / lr_period) by (apply Z.div_pos; lia).
    destruct (epoch mod lr_period =? 0) eqn:Hdiv.
    + apply Z.eqb_eq in Hdiv.
      assert (Hprev : (epoch - 1) / lr_period = epoch / lr_period - 1).
      { symmetry. apply (Z.div_unique _ _ _ (lr_period - 1)); [lia|nia]. }
      assert (1 <= epoch / lr_period) by nia.
      rewrite Hprev. lia.
    + apply Z.eqb_neq in Hdiv.
      assert (Hprev : (epoch - 1) / lr_period = epoch / lr_period).
      { symmetry.
        apply (Z.div_unique _ _ _ (epoch mod lr_period - 1)); [lia|nia]. }
      rewrite Hprev. lia.
  - apply Z.ltb_ge in Hpos. assert (epoch = 0) as -> by lia.
    eexists. split; [done|]. cbn. by rewrite Z.div_0_l by lia.
Qed.

Lemma epochs_run train_iter valid_iter lr_period lr_decay lr0
    todo epoch net lr :
  train_iter ≠ [] -> 0 < lr_period -> 0 <= epoch ->
  lr = decayed lr0 lr_decay (Z.to_nat (Z.max 0 (epoch - 1) / lr_period)) ->
  let out := epochs step evaluate_accuracy_gpu train_iter valid_iter
               lr_period lr_decay todo epoch net lr in
  raised out = None ∧
  length (printed out) = todo ∧
  ∀ i line, printed out !! i = Some line ->
    Training.epoch line = epoch + Z.of_nat i + 1 ∧
    learning_rate line
    = decayed lr0 lr_decay (Z.to_nat ((epoch + Z.of_nat i) / lr_period)) ∧
    (is_Some (valid_acc line) <-> is_Some valid_iter).
Proof.
  intros Hne Hp. revert epoch net lr.
  induction todo as [|todo IH]; intros epoch net lr He Hlr; cbv zeta.
  - cbn. by repeat split.
  - cbn [epochs].
    destruct (decays_schedule epoch lr_period Hp He) as (decay & -> & Hcount).
    set (lr' := if decay then fmul lr lr_decay else lr).
    assert (Hlr' : lr' = decayed lr0 lr_decay (Z.to_nat (epoch / lr_period))).
    { unfold lr'. rewrite Hcount, Hlr. by destruct decay. }
    pose proof (batch_loop_count lr' net train_iter (F64.of_Z 0) (F64.of_Z 0) 0)
      as Hn.
    destruct (batch_loop step lr' net train_iter _ _ 0)
      as [net' [[train_l_sum train_acc_sum] n]].
    cbn [snd] in Hn.
    assert (0 < n) by (destruct train_iter; [done|cbn [length] in Hn; lia]).
    unfold truediv.
    replace (n =? 0) with false by (symmetry; apply Z.eqb_neq; lia).
    cbn [raised printed length].
    destruct (IH (epoch + 1) net' lr') as (Hraised & Hlen & Hlines); [lia| |].
    { rewrite Hlr'. do 3 f_equal. lia. }
    split; [done|]. split; [by rewrite Hlen|].
    intros [|i] line Hline.
    + cbn in Hline. injection Hline as <-.
      cbn [Training.epoch learning_rate valid_acc].
      rewrite Z.add_0_r. split; [lia|]. split; [done|].
      destruct valid_iter; split; intros [? ?]; try done; by eexists.
    + cbn in Hline. apply Hlines in Hline as (Hep & Hrate & Hvalid).
      split; [lia|]. split; [|done].
      rewrite Hrate. do 3 f_equal. lia.
Qed.

(** X22. The schedule of the learning rate.  With a period above zero
    and a training loader that is not empty, [train] runs its
    [num_epochs] epochs without an error and prints one line per
    epoch; the line of epoch [i] (counted from 0, printed as [i + 1])
    shows the rate that [i] was trained with, which is the initial
    rate multiplied [i // lr_period] times by [lr_decay]: the rate
    drops at the epochs [lr_period], [2 * lr_period], ... and not at
    epoch 0.  The line holds a validation accuracy exactly when a
    validation loader is given. *)
Theorem train_learning_rate_schedule net train_iter valid_iter num_epochs
    lr lr_period lr_decay :
  train_iter ≠ [] -> 0 < lr_period ->
  let out := train step evaluate_accuracy_gpu net train_iter valid_iter
               num_epochs lr lr_period lr_decay in
  raised out = None ∧
  length (printed out) = num_epochs ∧
  ∀ i line, printed out !! i = Some line ->
    Training.epoch line = Z.of_nat i + 1 ∧
    learning_rate line
    = decayed lr lr_decay (Z.to_nat (Z.of_nat i / lr_period)) ∧
    (is_Some (valid_acc line) <-> is_Some valid_iter).
Proof.
  intros Hne Hp. unfold train.
  apply (epochs_run train_iter valid_iter lr_period lr_decay lr
           num_epochs 0 net lr Hne Hp); [lia|done].
Qed.

(** X23. The two ways in which [train] divides by zero.  With a
    training loader that yields no batch, the first epoch cannot
    finish: its averages divide by an example count of zero, nothing
    is printed and the network is untouched.  With a period of zero
    the mistake is found out late: the first epoch runs and prints its
    line, since epoch 0 never asks for the remainder, and the second
    epoch ends at once, the network being as the first epoch left
    it.  Both runs end with [ZeroDivisionError]. *)
Theorem train_zero_division net train_iter valid_iter num_epochs
    lr lr_period lr_decay :
  ((1 <= num_epochs)%nat ->
   let out := train step evaluate_accuracy_gpu net [] valid_iter
                num_epochs lr lr_period lr_decay in
   raised out = Some ZeroDivisionError ∧ printed out = [] ∧
   final_net out = net)
  ∧ (train_iter ≠ [] -> (2 <= num_epochs)%nat ->
     let out := train step evaluate_accuracy_gpu net train_iter valid_iter
                  num_epochs lr 0 lr_decay in
     raised out = Some ZeroDivisionError ∧
     (∃ line, printed out = [line] ∧ Training.epoch line = 1
              ∧ learning_rate line = lr) ∧
     final_net out
     = (batch_loop step lr net train_iter (F64.of_Z 0) (F64.of_Z 0) 0).1).
Proof.
  unfold train. split.
  - intros Hnum. destruct num_epochs as [|todo]; [lia|]. cbn. done.
  - intros Hne Hnum.
    destruct num_epochs as [|[|todo]]; try lia.
    cbn [epochs decays Z.ltb Z.compare].
    pose proof (batch_loop_count lr net train_iter (F64.of_Z 0) (F64.of_Z 0) 0)
      as Hn.
    destruct (batch_loop step lr net train_iter _ _ 0)
      as [net' [[train_l_sum train_acc_sum] n]].
    cbn [snd fst] in *.
    assert (0 < n) by (destruct train_iter; [done|cbn [length] in Hn; lia]).
    unfold truediv.
    replace (n =? 0) with false by (symmetry; apply Z.eqb_neq; lia).
    cbn. split; [done|]. split; [|done]. by eexists.
Qed.
End TrainingFacts.

(** ** Nothing is ever removed *)

Section KeepsFacts.
Import FS Kaggle.
Variable readdir : list string -> list string.
Variable data_dir : list string.

(** A command that removes no file and forgets no copy it has made. *)
Let grows {A : Type} (m : io A) : Prop :=
  ∀ w, (∀ p, is_Some (files w !! p) -> is_Some (files (m w).1 !! p))
       ∧ copied w `prefix_of` copied (m w).1.

Lemma grows_bind {A B : Type} (m : io A) (k : A -> io B) :
  grows m -> (∀ a, grows (k a)) -> grows (m ≫= k).
Proof.
  intros Hm Hk w. unfold mbind, io_bind.
  destruct (Hm w) as [Hfiles Hlog].
  destruct (m w) as [w1 [a|e]]; cbn [fst] in *; [|done].
  destruct (Hk a w1) as [Hfiles' Hlog']. split.
  - intros p Hp. by apply Hfiles', Hfiles.
  - by etrans.
Qed.

Lemma grows_pure {A : Type} (m : io A) : (∀ w, (m w).1 = w) -> grows m.
Proof. intros Hm w. by rewrite Hm. Qed.

Lemma grows_copyfile filename target_dir : grows (copyfile filename target_dir).
Proof.
  intros w.
  destruct (copyfile_spec filename target_dir w)
    as (_ & _ & [[-> ->]|(contents & dst & _ & _ & -> & -> & _)]); [done|].
  split; [|by apply prefix_app_r].
  intros p Hp. destruct (decide (dst = p)) as [->|].
  - by rewrite lookup_insert_eq.
  - by rewrite lookup_insert_ne.
Qed.

Lemma grows_train_valid_loop labels nv fs lc :
  grows (train_valid_loop data_dir labels nv fs lc).
Proof.
  revert lc. induction fs as [|f fs IH]; intros lc; cbn [train_valid_loop].
  - by apply grows_pure.
  - apply grows_bind; [by apply grows_pure|]. intros label.
    apply grows_bind; [apply grows_copyfile|]. intros _.
    destruct (lc !! label) as [count|]; [destruct (_ <? nv)%Z|];
      (apply grows_bind; [apply grows_copyfile|]; intros _; apply IH).
Qed.

Lemma grows_reorg_train_valid labels valid_ratio :
  grows (reorg_train_valid readdir data_dir labels valid_ratio).
Proof.
  unfold reorg_train_valid.
  apply grows_bind; [by apply grows_pure|]. intros n.
  apply grows_bind; [by apply grows_pure|]. intros nv.
  apply grows_bind; [apply grows_pure, listdir_world|]. intros train_files.
  apply grows_bind; [apply grows_train_valid_loop|]. intros _.
  by apply grows_pure.
Qed.

Lemma grows_reorg_test : grows (reorg_test readdir data_dir).
Proof.
  unfold reorg_test.
  apply grows_bind; [apply grows_pure, listdir_world|]. intros test_files.
  induction test_files as [|f fs IH]; cbn [test_loop].
  - by apply grows_pure.
  - apply grows_bind; [apply grows_copyfile|]. by intros _.
Qed.

(** X24. The reorganisation only ever adds: whatever the directory
    holds and whether the run completes or an exception stops it,
    every path that is a file before [reorg_train_valid],
    [reorg_test] or [reorg_cifar10_data] is a file after it, and the
    copies made before are still on record.  Copies of an earlier run,
    made with another ratio or another order of the listing, are
    therefore never cleaned up. *)
Theorem reorg_never_deletes labels valid_ratio w p :
  is_Some (files w !! p) ->
  is_Some (files (reorg_train_valid readdir data_dir labels valid_ratio w).1 !! p)
  ∧ is_Some (files (reorg_test readdir data_dir w).1 !! p)
  ∧ is_Some (files (reorg_cifar10_data readdir data_dir valid_ratio w).1 !! p)
  ∧ copied w `prefix_of`
      copied (reorg_cifar10_data readdir data_dir valid_ratio w).1.
Proof.
  intros Hp.
  assert (Hall : grows (reorg_cifar10_data readdir data_dir valid_ratio)).
  { unfold reorg_cifar10_data. apply grows_bind.
    - apply grows_pure. intros w'. unfold read_csv_labels, mbind, io_bind, open.
      by destruct (files w' !! _).
    - intros labels'. apply grows_bind; [apply grows_reorg_train_valid|].
      intros _. apply grows_reorg_test. }
  split; [by apply grows_reorg_train_valid|].
  split; [by apply grows_reorg_test|].
  split; [by apply Hall|apply Hall].
Qed.
End KeepsFacts.

(** ** The whole reorganisation, and a loadable [vec.txt] *)

Section PipelineFacts.
Import FS Kaggle Csv.
Variable readdir : list string -> list string.
Variable data_dir : list string.

Let tvt : list string := data_dir ++ ["train_valid_test"].
Let from (f : string) : list string := data_dir ++ ["test"; f].
Let into (f : string) : list string := tree data_dir "test" "unknown" ++ [f].

Lemma loop_outcome_Ok labels fs :
  (∀ f, f ∈ fs -> is_Some (labels !! stem f)) -> loop_outcome labels fs = Ok ().
Proof.
  intros Hfs. unfold loop_outcome.
  replace (list_find _ fs) with (None : option (nat * string)); [done|].
  symmetry. apply list_find_None, Forall_forall. intros f Hf Hnone.
  destruct (Hfs f Hf) as [label Hlabel]. congruence.
Qed.

(** A world that differs from [w] only as [directories_kept] and the
    frame allow lists the same test files. *)
Lemma entries_test_outside w w1 f :
  (∀ p, ¬ below tvt p -> files w1 !! p = files w !! p) ->
  directories_kept data_dir w w1 ->
  f ∈ entries w1 (data_dir ++ ["test"]) <-> f ∈ entries w (data_dir ++ ["test"]).
Proof.
  intros Hsame [Hsub Hnew]. rewrite !entries_spec.
  split; intros [q Hq]; exists q; rewrite <- app_assoc in *; cbn [app] in *.
  - destruct Hq as [Hq|Hq].
    + left. by rewrite <- Hsame by apply test_not_below.
    + right. destruct (decide (data_dir ++ "test" :: f :: q ∈ dirs w))
        as [|Hnot]; [done|].
      destruct (Hnew _ Hq Hnot) as [Hbelow|Habove].
      * by apply test_not_below in Hbelow.
      * apply below_iff in Habove as [k Hk].
        rewrite <- app_assoc in Hk. apply app_inv_head in Hk.
        discriminate Hk.
  - destruct Hq as [Hq|Hq].
    + left. by rewrite Hsame by apply test_not_below.
    + right. by apply Hsub.
Qed.

(** X25. The three steps of [reorg_cifar10_data] fit together.  Take a
    directory whose [trainLabels.csv] is a header and clean rows
    [name,label], at least one, with labels that are plain names and
    a ratio whose product with the size of the smallest class is
    finite; whose [train] and [test] are directories of regular files;
    where every training file has at most one dot in its name and the
    name without its extension among the names of the rows; and where
    nothing is in the way under [train_valid_test].  Then the
    reorganisation ends normally; every training file lies in
    [train_valid_test/train_valid/<label>] under the label that the
    last row of its name gives, and every test file in
    [train_valid_test/test/unknown], each with the contents of its
    source. *)
Theorem reorg_cifar10_data_succeeds valid_ratio w header rows :
  (∀ l, readdir l ≡ₚ l) ->
  files w !! (data_dir ++ ["trainLabels.csv"]) = Some (csv_text header rows) ->
  free_of (ascii_of_nat 10) header = true ->
  free_of (ascii_of_nat 13) header = true ->
  Forall (fun row => clean row = true) rows ->
  Forall (fun row => plain row.2 = true) rows ->
  rows ≠ [] ->
  (∀ n, least_count (list_to_map (reverse rows)) = Ok n ->
        F64.is_finite (F64.mul (F64.of_Z (Z.of_nat n)) valid_ratio) = true) ->
  data_dir ++ ["train"] ∈ dirs w ->
  data_dir ++ ["test"] ∈ dirs w ->
  tidy data_dir w ->
  (∀ f, f ∈ entries w (data_dir ++ ["train"]) ->
        is_Some (files w !! (data_dir ++ ["train"; f]))
        ∧ stem f = strip_extension f
        ∧ strip_extension f ∈ rows.*1) ->
  (∀ f, f ∈ entries w (data_dir ++ ["test"]) ->
        is_Some (files w !! (data_dir ++ ["test"; f]))) ->
  ∃ w', reorg_cifar10_data readdir data_dir valid_ratio w = (w', Ok ()) ∧
        (∀ f, f ∈ entries w (data_dir ++ ["train"]) ->
           ∃ label,
             (list_to_map (reverse rows) : gmap string string)
               !! strip_extension f = Some label ∧
             files w' !! (tree data_dir "train_valid" label ++ [f])
             = files w !! (data_dir ++ ["train"; f])) ∧
        (∀ f, f ∈ entries w (data_dir ++ ["test"]) ->
           files w' !! (tree data_dir "test" "unknown" ++ [f])
           = files w !! (data_dir ++ ["test"; f])).
Proof.
  intros Hperm Hfile Hheader Hreturn Hclean Hnames Hrows Hfin Hdir Hdir2
    Htidy Htrain Htest.
  set (labels := list_to_map (reverse rows) : gmap string string).
  assert (Hread : read_csv_labels (data_dir ++ ["trainLabels.csv"]) w
                  = (w, Ok labels)) by (by apply (read_csv_text _ _ header)).
  assert (Hkey : ∀ k, k ∈ rows.*1 -> is_Some (labels !! k)).
  { intros k Hk. destruct (labels !! k) eqn:Hlook; [done|].
    apply not_elem_of_list_to_map_2 in Hlook. destruct Hlook.
    rewrite fmap_reverse. by apply elem_of_reverse. }
  assert (Hplain : ∀ name label, labels !! name = Some label ->
                                 plain label = true).
  { intros name label Hlabel. apply elem_of_list_to_map_2 in Hlabel.
    apply elem_of_reverse in Hlabel. rewrite reverse_involutive in Hlabel.
  rewrite Forall_forall in Hnames.
    by apply (Hnames (name, label)). }
  assert (Hne : labels ≠ ∅).
  { destruct rows as [|[k v] rows']; [done|]. intros Hempty.
    destruct (Hkey k) as [v' Hv']; [by left|].
    by rewrite Hempty, lookup_empty in Hv'. }
  destruct (least_count_spec labels Hne) as (n & Hn & _).
  destruct (valid_per_label_Ok n valid_ratio (Hfin n Hn)) as (k & Hk & Hnv).
  set (nv := Z.max 1 k) in *.
  assert (Hpos : 1 <= nv) by (unfold nv; lia).
  set (listing := readdir (entries w (data_dir ++ ["train"]))).
  assert (Hin : ∀ f, f ∈ listing <-> f ∈ entries w (data_dir ++ ["train"]))
    by (intros f; unfold listing; by rewrite Hperm).
  assert (Hnd : NoDup listing).
  { unfold listing. rewrite Hperm. apply entries_NoDup. }
  assert (Hstem : ∀ f, f ∈ listing -> stem f = strip_extension f).
  { intros f Hf. apply Htrain. by apply Hin. }
  assert (Hlab : ∀ f, f ∈ listing -> is_Some (labels !! stem f)).
  { intros f Hf. rewrite Hstem by done. apply Hkey, Htrain. by apply Hin. }
  destruct (train_valid_loop_spec data_dir labels nv Hpos Hplain listing ∅ w
              Htidy)
    as (w1 & Hrun1 & _ & _ & Hcont1 & Htidy1 & Hdirs1).
  { intros f Hf. apply Htrain. by apply Hin. }
  rewrite (loop_outcome_Ok labels listing Hlab) in Hrun1.
  specialize (Hcont1 Hnd).
  assert (Hstep1 : reorg_train_valid readdir data_dir labels valid_ratio w
                   = (w1, Ok nv)).
  { unfold reorg_train_valid, mbind, io_bind, lift, listdir. rewrite Hn.
    cbv beta iota. rewrite Hnv. cbv beta iota.
    rewrite decide_True by done. fold listing. by rewrite Hrun1. }
  pose proof (keeps_reorg_train_valid readdir data_dir labels valid_ratio
                Hplain w) as [Hout1 Hkept1].
  rewrite Hstep1 in Hout1, Hkept1. cbn [fst] in Hout1, Hkept1.
  set (listing2 := readdir (entries w1 (data_dir ++ ["test"]))).
  assert (Hin2 : ∀ f, f ∈ listing2 <-> f ∈ entries w (data_dir ++ ["test"])).
  { intros f. unfold listing2. rewrite Hperm. by apply entries_test_outside. }
  assert (Hfrom : ∀ f, files w1 !! from f = files w !! from f).
  { intros f. apply Hout1, test_not_below. }
  destruct (test_loop_spec data_dir listing2 w1 Htidy1)
    as (w' & Hrun2 & _ & Hframe2 & Hcont2 & _).
  { intros f Hf. fold (from f). rewrite Hfrom. apply Htest. by apply Hin2. }
  exists w'. split; [|split].
  - unfold reorg_cifar10_data, mbind, io_bind. rewrite Hread.
    fold (@mbind io _). unfold mbind, io_bind. rewrite Hstep1.
    unfold reorg_test, mbind, io_bind, listdir.
    rewrite decide_True by (by apply Hdirs1). by fold listing2.
  - intros f Hf. destruct (Hlab f) as [label Hlabel]; [by apply Hin|].
    exists label. split; [by rewrite <- Hstem by (by apply Hin)|].
    rewrite Hframe2.
    + apply (Hcont1 (data_dir ++ ["train"; f],
                     tree data_dir "train_valid" label ++ [f])).
      apply planned_train_valid; [done|by apply Hin|done].
    + intros (g & Heq & _)%list_elem_of_fmap.
      apply tree_inj in Heq as (Hpart & _). discriminate Hpart.
  - intros f Hf. fold (into f) (from f).
    rewrite <- Hfrom. apply Hcont2. by apply Hin2.
Qed.
End PipelineFacts.

Section LoadableFacts.
Import Embedding Synonyms.
Variable float : string -> result spec_float.

(** X26. A [vec.txt] that can be loaded: when every number of every
    line is well-formed, at least one line has a token and at least two
    numbers, and all such lines carry the same number [dim] of
    numbers, the constructor returns an instance, whose rows have
    [dim] entries. *)
Theorem TokenEmbedding_loads lines dim :
  Forall (fun line =>
            ∃ elems, Py.comprehension float (tl (fields line)) = Ok elems)
    lines ->
  Forall (fun line => (2 < length (fields line))%nat ->
                      length (fields line) = S dim) lines ->
  Exists (fun line => (2 < length (fields line))%nat) lines ->
  ∃ te, __init__ float lines = Ok te ∧
        Forall (fun row => length row = dim) (idx_to_vec te).
Proof.
  intros Hparse Hdim Hword.
  destruct (load_lines_parsed float lines ["<unk>"] [] Hparse)
    as (vs & Hload & Hvs).
  assert (Hlen : Forall (fun v : vector => length v = dim) vs).
  { apply Forall_forall. intros v Hv.
    apply list_elem_of_lookup in Hv as [i Hi].
    destruct (Forall2_lookup_r _ _ _ _ _ Hvs Hi) as (line & Hline & Hnum).
    apply list_elem_of_lookup_2, list_elem_of_filter in Hline as [Hw Hline].
    rewrite Forall_forall in Hdim. specialize (Hdim line Hline Hw).
    apply comprehension_length in Hnum. rewrite Hnum.
    destruct (fields line); [done|]. cbn in *. lia. }
  assert (Hsome : vs ≠ []).
  { apply Exists_exists in Hword as (line & Hline & Hw).
    assert (Hin : line ∈ filter (fun line => (2 < length (fields line))%nat) lines)
      by (by apply list_elem_of_filter).
    intros ->. apply Forall2_nil_inv_r in Hvs. rewrite Hvs in Hin.
    by apply elem_of_nil in Hin. }
  destruct vs as [|first vs]; [done|].
  unfold __init__, _load_embedding. rewrite Hload. cbn -[np_array].
  apply Forall_cons in Hlen as Hlen'. destruct Hlen' as [Hfirst _].
  assert (Harr : np_array (replicate (length first) (F64.of_Z 0) :: first :: vs)
                 = Ok (map (map F32.of_f64)
                         (replicate (length first) (F64.of_Z 0) :: first :: vs))).
  { unfold np_array. replace (forallb _ _) with true; [done|].
    symmetry. apply forallb_forall. intros v Hv%list_elem_of_In.
    apply Nat.eqb_eq. rewrite length_replicate.
    apply elem_of_cons in Hv as [->|Hv]; [by rewrite length_replicate|].
    rewrite Forall_forall in Hlen. by rewrite (Hlen v Hv). }
  change (S754_zero false) with (F64.of_Z 0). rewrite Harr.
  cbn -[np_array map]. eexists. split; [done|].
  cbn [idx_to_vec]. apply Forall_fmap, Forall_cons. split.
  - cbn. by rewrite length_map, length_replicate.
  - eapply Forall_impl; [done|]. intros v Hv. cbn. by rewrite length_map.
Qed.
End LoadableFacts.

(** * Worked instances of the further properties *)

Ltac by_decision := apply (bool_decide_unpack _); vm_compute; exact I.

Lemma MySequential_add_known_name_witness :
  let bs := [Examples.double; Examples.increment] in
  NoDup (Sequential.name <$> bs) ∧
  bs !! 0%nat = Some Examples.double ∧
  Sequential.name Samples.triple = Sequential.name Examples.double ∧
  let net := Sequential.add
               (Sequential.add_all Sequential.MySequential_init bs)
               Samples.triple in
  length (Sequential._children net) = length bs ∧
  Sequential.forward net 5
  = Sequential.chain (<[0%nat := Samples.triple]> bs) 5.
Proof.
  intros bs.
  assert (Hnames : NoDup (Sequential.name <$> bs)) by by_decision.
  assert (Hat : bs !! 0%nat = Some Examples.double) by reflexivity.
  assert (Hname : Sequential.name Samples.triple
                  = Sequential.name Examples.double) by reflexivity.
  split; [exact Hnames|]. split; [exact Hat|]. split; [exact Hname|].
  apply (MySequential_add_known_name bs 0 Examples.double Samples.triple 5
           Hnames Hat Hname).
Defined.

Lemma MySequential_forward_concatenation_witness :
  let bs1 := [Examples.double] in
  let bs2 := [Examples.increment] in
  NoDup (Sequential.name <$> (bs1 ++ bs2)) ∧
  Sequential.forward
    (Sequential.add_all Sequential.MySequential_init (bs1 ++ bs2)) 5
  = Sequential.forward (Sequential.add_all Sequential.MySequential_init bs1) 5
      ≫= Sequential.forward (Sequential.add_all Sequential.MySequential_init bs2).
Proof.
  intros bs1 bs2.
  assert (Hnames : NoDup (Sequential.name <$> (bs1 ++ bs2))) by by_decision.
  split; [exact Hnames|].
  apply (proj1 (MySequential_forward_concatenation bs1 bs2 5 Hnames)).
Defined.

Lemma MySequential_nested_witness :
  NoDup Samples.groups.*1 ∧
  Forall (fun g => NoDup (Sequential.name <$> g.2)) Samples.groups ∧
  Sequential.forward
    (Sequential.add_all Sequential.MySequential_init
       ((fun g => Layers.as_block g.1
                    (Sequential.add_all Sequential.MySequential_init g.2))
          <$> Samples.groups)) 5
  = Sequential.chain (concat Samples.groups.*2) 5.
Proof.
  assert (Houter : NoDup Samples.groups.*1) by by_decision.
  assert (Hinner : Forall (fun g => NoDup (Sequential.name <$> g.2))
                     Samples.groups).
  { apply Forall_cons. split; [by_decision|].
    apply Forall_cons. split; [by_decision|]. apply Forall_nil_2. }
  split; [exact Houter|]. split; [exact Hinner|].
  apply (MySequential_nested Samples.groups 5 Houter Hinner).
Defined.

Lemma MLP_forward_shapes_witness :
  Layers.shaped (Layers.hidden Samples.tiny) 2 3 ∧
  Layers.shaped (Layers.output Samples.tiny) 1 2 ∧
  Forall (fun r => length r = 3%nat) Samples.tiny_batch ∧
  ∃ y, Layers.MLP_forward Samples.tiny Samples.tiny_batch = Ok y ∧
       length y = length Samples.tiny_batch ∧
       Forall (fun r => length r = 1%nat) y.
Proof.
  assert (Hh : Layers.shaped (Layers.hidden Samples.tiny) 2 3).
  { split; [reflexivity|]. split; [reflexivity|].
    repeat (apply Forall_cons; split; [reflexivity|]). apply Forall_nil_2. }
  assert (Ho : Layers.shaped (Layers.output Samples.tiny) 1 2).
  { split; [reflexivity|]. split; [reflexivity|].
    repeat (apply Forall_cons; split; [reflexivity|]). apply Forall_nil_2. }
  assert (Hx : Forall (fun r => length r = 3%nat) Samples.tiny_batch).
  { repeat (apply Forall_cons; split; [reflexivity|]). apply Forall_nil_2. }
  split; [exact Hh|]. split; [exact Ho|]. split; [exact Hx|].
  apply (proj1 (MLP_forward_shapes Samples.tiny Samples.tiny_batch 2 3 1 Hh Ho) Hx).
Defined.

Lemma NestMLP_forward_shapes_witness :
  let first := Layers.hidden Samples.tiny in
  ∃ rest,
    Layers.net Samples.nested = first :: rest ∧
    Layers.shaped first 2 3 ∧
    Layers.chained rest 2 2 ∧
    Layers.shaped (Layers.dense Samples.nested) 1 2 ∧
    Forall (fun r => length r = 3%nat) Samples.tiny_batch ∧
    ∃ y, Layers.NestMLP_forward Samples.nested Samples.tiny_batch = Ok y ∧
         length y = length Samples.tiny_batch ∧
         Forall (fun r => length r = 1%nat) y.
Proof.
  intros first. eexists.
  assert (Hnet : Layers.net Samples.nested = first :: _) by reflexivity.
  assert (Hfirst : Layers.shaped first 2 3).
  { split; [reflexivity|]. split; [reflexivity|].
    repeat (apply Forall_cons; split; [reflexivity|]). apply Forall_nil_2. }
  assert (Hrest : Layers.chained (tl (Layers.net Samples.nested)) 2 2).
  { exists 2%nat. split; [|reflexivity].
    split; [reflexivity|]. split; [reflexivity|].
    repeat (apply Forall_cons; split; [reflexivity|]). apply Forall_nil_2. }
  assert (Hdense : Layers.shaped (Layers.dense Samples.nested) 1 2).
  { split; [reflexivity|]. split; [reflexivity|].
    repeat (apply Forall_cons; split; [reflexivity|]). apply Forall_nil_2. }
  assert (Hx : Forall (fun r => length r = 3%nat) Samples.tiny_batch).
  { repeat (apply Forall_cons; split; [reflexivity|]). apply Forall_nil_2. }
  split; [exact Hnet|]. split; [exact Hfirst|]. split; [exact Hrest|].
  split; [exact Hdense|]. split; [exact Hx|].
  apply (proj1 (NestMLP_forward_shapes Samples.nested Samples.tiny_batch
                  first _ 2 3 2 1 Hnet Hfirst Hrest Hdense) Hx).
Defined.

Lemma forward_nan_returns_at_once_witness :
  MLP.before_loop Examples.net Samples.batch_nan = Ok Samples.hidden_nan ∧
  Exists (Exists (fun a => F32.is_nan a = true)) Samples.hidden_nan ∧
  MLP.forward 1 Examples.net Samples.batch_nan = Some (Ok S754_nan).
Proof.
  assert (Hrun : MLP.before_loop Examples.net Samples.batch_nan
                 = Ok Samples.hidden_nan) by by_computation.
  assert (Hnan : Exists (Exists (fun a => F32.is_nan a = true)) Samples.hidden_nan).
  { apply Exists_cons_hd, Exists_cons_hd. reflexivity. }
  split; [exact Hrun|]. split; [exact Hnan|].
  apply (forward_nan_returns_at_once Examples.net Samples.batch_nan
           Samples.hidden_nan Hrun Hnan 1%nat (le_n 1)).
Defined.

Lemma forward_infinity_returns_no_number_witness :
  MLP.before_loop Examples.net Examples.batch_huge = Ok Samples.hidden_huge ∧
  Forall (Forall (fun a => F32.is_nan a = false)) Samples.hidden_huge ∧
  Exists (Exists (fun a => F32.is_finite a = false)) Samples.hidden_huge ∧
  (∃ v1 a v2, concat Samples.hidden_huge = v1 ++ S754_infinity false :: a :: v2) ∧
  MLP.forward 1 Examples.net Examples.batch_huge = Some (Ok S754_nan).
Proof.
  assert (Hrun : MLP.before_loop Examples.net Examples.batch_huge
                 = Ok Samples.hidden_huge) by by_computation.
  assert (Hnan : Forall (Forall (fun a => F32.is_nan a = false))
                   Samples.hidden_huge).
  { apply Forall_cons. split; [|apply Forall_nil_2].
    repeat (apply Forall_cons; split; [reflexivity|]). apply Forall_nil_2. }
  assert (Hinf : Exists (Exists (fun a => F32.is_finite a = false))
                   Samples.hidden_huge).
  { apply Exists_cons_hd, Exists_cons_hd. reflexivity. }
  assert (Hinside : ∃ v1 a v2,
            concat Samples.hidden_huge = v1 ++ S754_infinity false :: a :: v2).
  { exists [], (S754_infinity false), (replicate 18 (S754_infinity false)).
    reflexivity. }
  split; [exact Hrun|]. split; [exact Hnan|]. split; [exact Hinf|].
  split; [exact Hinside|].
  apply (proj2 (forward_infinity_returns_no_number Examples.net
                  Examples.batch_huge Samples.hidden_huge Hrun Hnan Hinf)
           Hinside 1%nat (le_n 1)).
Defined.

Lemma forward_shapes_witness :
  MLP.before_loop Examples.net Examples.batch_small = Ok Examples.hidden_small ∧
  Examples.batch_small ≠ [] ∧
  MLP.dense_weight Examples.net ≠ [] ∧
  length (MLP.dense_bias Examples.net) = length (MLP.dense_weight Examples.net) ∧
  length (MLP.rand_weight Examples.net) = length (MLP.dense_weight Examples.net).
Proof.
  assert (Hrun : MLP.before_loop Examples.net Examples.batch_small
                 = Ok Examples.hidden_small) by by_computation.
  assert (Hx : Examples.batch_small ≠ []) by discriminate.
  assert (Hw : MLP.dense_weight Examples.net ≠ []) by discriminate.
  split; [exact Hrun|]. split; [exact Hx|]. split; [exact Hw|].
  pose proof (forward_shapes Examples.net Examples.batch_small
                Examples.hidden_small Hrun Hx Hw) as (Hb & HR & _).
  split; [exact Hb|exact HR].
Defined.

Lemma TokenEmbedding_vocabulary_witness :
  Embedding.__init__ Examples.float Examples.vec_txt = Ok Examples.embed ∧
  Embedding.__len__ Examples.embed
  = S (length (filter (fun line => (2 < length (Synonyms.fields line))%nat)
                 Examples.vec_txt)).
Proof.
  assert (Hinit : Embedding.__init__ Examples.float Examples.vec_txt
                  = Ok Examples.embed) by by_computation.
  split; [exact Hinit|].
  apply (proj1 (proj2 (TokenEmbedding_vocabulary Examples.float Examples.vec_txt
                         Examples.embed Hinit))).
Defined.

Lemma TokenEmbedding_no_word_line_witness :
  Forall (fun line =>
            (length (Synonyms.fields line) <= 2)%nat ∧
            ∃ elems, Py.comprehension Examples.float (tl (Synonyms.fields line))
                     = Ok elems)
    Samples.header_only ∧
  Embedding.__init__ Examples.float Samples.header_only = Raise IndexError.
Proof.
  assert (Hlines : Forall (fun line =>
            (length (Synonyms.fields line) <= 2)%nat ∧
            ∃ elems, Py.comprehension Examples.float (tl (Synonyms.fields line))
                     = Ok elems) Samples.header_only).
  { apply Forall_cons. split; [|apply Forall_nil_2].
    split; [vm_compute; lia|]. eexists. by_computation. }
  split; [exact Hlines|].
  apply (TokenEmbedding_no_word_line Examples.float Samples.header_only Hlines).
Defined.

Lemma TokenEmbedding_ragged_lines_witness :
  let line1 := "a 1 2" +:+ Examples.LF in
  let line2 := "b 1 2 3" +:+ Examples.LF in
  Forall (fun line =>
            ∃ elems, Py.comprehension Examples.float (tl (Synonyms.fields line))
                     = Ok elems) Samples.ragged ∧
  line1 ∈ Samples.ragged ∧ line2 ∈ Samples.ragged ∧
  (2 < length (Synonyms.fields line1))%nat ∧
  (2 < length (Synonyms.fields line2))%nat ∧
  length (Synonyms.fields line1) ≠ length (Synonyms.fields line2) ∧
  Embedding.__init__ Examples.float Samples.ragged = Raise TypeError.
Proof.
  intros line1 line2.
  assert (Hparse : Forall (fun line =>
            ∃ elems, Py.comprehension Examples.float (tl (Synonyms.fields line))
                     = Ok elems) Samples.ragged).
  { repeat (apply Forall_cons; split; [eexists; by_computation|]).
    apply Forall_nil_2. }
  assert (H1 : line1 ∈ Samples.ragged) by (apply list_elem_of_In; left; reflexivity).
  assert (H2 : line2 ∈ Samples.ragged)
    by (apply list_elem_of_In; right; left; reflexivity).
  assert (Hw1 : (2 < length (Synonyms.fields line1))%nat) by (vm_compute; lia).
  assert (Hw2 : (2 < length (Synonyms.fields line2))%nat) by (vm_compute; lia).
  assert (Hne : length (Synonyms.fields line1) ≠ length (Synonyms.fields line2))
    by (vm_compute; lia).
  split; [exact Hparse|]. split; [exact H1|]. split; [exact H2|].
  split; [exact Hw1|]. split; [exact Hw2|]. split; [exact Hne|].
  apply (TokenEmbedding_ragged_lines Examples.float Samples.ragged line1 line2
           Hparse H1 H2 Hw1 Hw2 Hne).
Defined.

Lemma knn_succeeds_iff_witness :
  (Forall (fun row => length row = length Examples.query) Examples.rows
   ∧ (2 <= length Examples.rows)%nat) ∧
  (∃ r, Similarity.knn Examples.rows Examples.query 2 = Ok r) ∧
  ¬ (Forall (fun row => length row = length Examples.query) Examples.rows
     ∧ (5 <= length Examples.rows)%nat) ∧
  Similarity.knn Examples.rows Examples.query 5 = Raise MXNetError.
Proof.
  assert (Hfit : Forall (fun row => length row = length Examples.query) Examples.rows
                 ∧ (2 <= length Examples.rows)%nat).
  { split; [|vm_compute; lia].
    repeat (apply Forall_cons; split; [reflexivity|]). apply Forall_nil_2. }
  assert (Hnot : ¬ (Forall (fun row => length row = length Examples.query) Examples.rows
                    ∧ (5 <= length Examples.rows)%nat)).
  { intros [_ Hk]. vm_compute in Hk. lia. }
  split; [exact Hfit|].
  split; [apply (proj1 (knn_succeeds_iff Examples.rows Examples.query 2) Hfit)|].
  split; [exact Hnot|].
  apply (proj2 (knn_succeeds_iff Examples.rows Examples.query 5) Hnot).
Defined.


Lemma get_analogy_answers_witness :
  Embedding.__init__ Examples.float Examples.vec_txt = Ok Examples.embed ∧
  ∃ answer,
    Similarity.get_analogy "a" "b" "zebra" Examples.embed = Ok answer ∧
    answer ∈ Embedding.idx_to_token Examples.embed.
Proof.
  assert (Hinit : Embedding.__init__ Examples.float Examples.vec_txt
                  = Ok Examples.embed) by by_computation.
  split; [exact Hinit|].
  apply (get_analogy_answers Examples.float Examples.vec_txt Examples.embed
           "a" "b" "zebra" Hinit).
Defined.


Lemma read_csv_labels_rows_witness :
  let fname := ["d"; "trainLabels.csv"] in
  let text := "id,label" +:+ Examples.LF +:+ "1,cat" +:+ Examples.LF
              +:+ "2,dog" +:+ Examples.LF +:+ "3,cat" +:+ Examples.LF in
  let tokens := map (fun l => Py.split "," (Py.rstrip l))
                  (tl (Kaggle.readlines (FS.newlines text))) in
  FS.files Examples.dataset !! fname = Some text ∧
  Forall (fun t => length t = 2%nat) tokens ∧
  Kaggle.read_csv_labels fname Examples.dataset
  = (Examples.dataset,
     Ok (list_to_map
           (reverse
              (map (fun t => (default EmptyString (t !! 0%nat),
                              default EmptyString (t !! 1%nat))) tokens)))).
Proof.
  intros fname text tokens.
  assert (Hfile : FS.files Examples.dataset !! fname = Some text) by by_computation.
  assert (Hrows : Forall (fun t => length t = 2%nat) tokens).
  { repeat (apply Forall_cons; split; [reflexivity|]). apply Forall_nil_2. }
  split; [exact Hfile|]. split; [exact Hrows|].
  apply (proj1 (read_csv_labels_rows fname Examples.dataset text Hfile) Hrows).
Defined.

Lemma read_csv_labels_round_trip_witness :
  let fname := ["d"; "trainLabels.csv"] in
  FS.files Examples.dataset !! fname
  = Some (Csv.csv_text "id,label" Samples.label_rows) ∧
  Csv.free_of (ascii_of_nat 10) "id,label" = true ∧
  Csv.free_of (ascii_of_nat 13) "id,label" = true ∧
  Forall (fun row => Csv.clean row = true) Samples.label_rows ∧
  Kaggle.read_csv_labels fname Examples.dataset
  = (Examples.dataset, Ok (list_to_map (reverse Samples.label_rows))).
Proof.
  intros fname.
  assert (Hfile : FS.files Examples.dataset !! fname
                  = Some (Csv.csv_text "id,label" Samples.label_rows))
    by by_computation.
  assert (Hheader : Csv.free_of (ascii_of_nat 10) "id,label" = true)
    by reflexivity.
  assert (Hreturn : Csv.free_of (ascii_of_nat 13) "id,label" = true)
    by reflexivity.
  assert (Hrows : Forall (fun row => Csv.clean row = true) Samples.label_rows).
  { repeat (apply Forall_cons; split; [reflexivity|]). apply Forall_nil_2. }
  split; [exact Hfile|]. split; [exact Hheader|]. split; [exact Hreturn|].
  split; [exact Hrows|].
  apply (read_csv_labels_round_trip fname Examples.dataset "id,label"
           Samples.label_rows Hfile Hheader Hreturn Hrows).
Defined.

Lemma reorg_test_copies_witness :
  (∀ l : list string, reverse l ≡ₚ l) ∧
  ["d"] ++ ["test"] ∈ FS.dirs Examples.dataset ∧
  Kaggle.tidy ["d"] Examples.dataset ∧
  (∀ f, f ∈ FS.entries Examples.dataset (["d"] ++ ["test"]) ->
        is_Some (FS.files Examples.dataset !! (["d"] ++ ["test"; f]))) ∧
  (∃ w', Kaggle.reorg_test reverse ["d"] Examples.dataset = (w', Ok ()) ∧
         FS.files w' !! (Kaggle.tree ["d"] "test" "unknown" ++ ["1.png"])
         = FS.files Examples.dataset !! (["d"] ++ ["test"; "1.png"])) ∧
  (["d"] ++ ["test"] ∉ FS.dirs Examples.dotted) ∧
  ∃ payload, Kaggle.reorg_test reverse ["d"] Examples.dotted
             = (Examples.dotted, Raise (OSError payload)).
Proof.
  assert (Hperm : ∀ l : list string, reverse l ≡ₚ l)
    by (intros l; apply reverse_Permutation).
  assert (Hdir : ["d"] ++ ["test"] ∈ FS.dirs Examples.dataset) by by_decision.
  assert (Hfiles : ∀ f, f ∈ FS.entries Examples.dataset (["d"] ++ ["test"]) ->
            is_Some (FS.files Examples.dataset !! (["d"] ++ ["test"; f]))).
  { intros f Hf.
    replace (FS.entries Examples.dataset (["d"] ++ ["test"]))
      with ["1.png"] in Hf by by_computation.
    in_list Hf; eexists; by_computation. }
  assert (Hnone : ["d"] ++ ["test"] ∉ FS.dirs Examples.dotted) by by_decision.
  split; [exact Hperm|]. split; [exact Hdir|]. split; [exact dataset_tidy|].
  split; [exact Hfiles|]. split.
  - destruct (proj1 (reorg_test_copies reverse ["d"] Examples.dataset)
                Hperm Hdir dataset_tidy Hfiles)
      as (w' & Hrun & _ & Hcont & _).
    exists w'. split; [exact Hrun|]. apply Hcont.
    replace (FS.entries Examples.dataset (["d"] ++ ["test"]))
      with ["1.png"] by by_computation.
    apply list_elem_of_In. left. reflexivity.
  - split; [exact Hnone|].
    apply (proj2 (reorg_test_copies reverse ["d"] Examples.dotted) Hnone).
Defined.

Lemma reorg_cifar10_data_stops_early_witness :
  (FS.open (["d"] ++ ["trainLabels.csv"]) Examples.dotted).2
  = Raise (OSError "FileNotFoundError") ∧
  Kaggle.reorg_cifar10_data reverse ["d"] Samples.tenth Examples.dotted
  = (Examples.dotted, Raise (OSError "FileNotFoundError")) ∧
  FS.files Samples.header_world !! (["d"] ++ ["trainLabels.csv"])
  = Some ("id,label" +:+ Examples.LF) ∧
  (length (Kaggle.readlines (FS.newlines ("id,label" +:+ Examples.LF))) <= 1)%nat ∧
  Kaggle.reorg_cifar10_data reverse ["d"] Samples.tenth Samples.header_world
  = (Samples.header_world, Raise IndexError).
Proof.
  assert (Hnone : (FS.open (["d"] ++ ["trainLabels.csv"]) Examples.dotted).2
                  = Raise (OSError "FileNotFoundError")) by by_computation.
  assert (Hfile : FS.files Samples.header_world !! (["d"] ++ ["trainLabels.csv"])
                  = Some ("id,label" +:+ Examples.LF)) by by_computation.
  assert (Hlen : (length (Kaggle.readlines
                            (FS.newlines ("id,label" +:+ Examples.LF))) <= 1)%nat)
    by (vm_compute; lia).
  split; [exact Hnone|].
  split; [apply (proj1 (reorg_cifar10_data_stops_early reverse ["d"] Samples.tenth
                          Examples.dotted) _ Hnone)|].
  split; [exact Hfile|]. split; [exact Hlen|].
  apply (proj2 (reorg_cifar10_data_stops_early reverse ["d"] Samples.tenth
                  Samples.header_world) _ Hfile Hlen).
Defined.

Lemma sorted_ids_numeric_iff_witness :
  (3 < 10)%nat ∧ Submission.sorted_ids 3 = map Z.of_nat (seq 1 3).
Proof.
  assert (Hn : (3 < 10)%nat) by lia.
  split; [exact Hn|]. apply (proj2 (sorted_ids_numeric_iff 3) Hn).
Defined.

Lemma submission_only_error_witness :
  let predict := fun _ : unit => 5%nat in
  Submission.submission predict ["cat"; "dog"] [()] 1 = Raise IndexError ∧
  ∃ img, img ∈ [()] ∧ (length ["cat"; "dog"] <= predict img)%nat.
Proof.
  intros predict.
  assert (Hrun : Submission.submission predict ["cat"; "dog"] [()] 1
                 = Raise IndexError) by by_computation.
  split; [exact Hrun|].
  apply (proj2 (submission_only_error predict ["cat"; "dog"] [()] 1
                  IndexError Hrun)).
Defined.

Lemma train_learning_rate_schedule_witness :
  (∀ lr net batch, 0 < (Samples.idle_step lr net batch).2.2) ∧
  [(); ()] ≠ [] ∧ 0 < 2 ∧
  let out := Training.train Samples.idle_step Samples.idle_accuracy ()
               [(); ()] None 5 (F64.of_Z 1) 2 Samples.tenth in
  Training.raised out = None ∧ length (Training.printed out) = 5%nat.
Proof.
  assert (Hsize : ∀ lr net batch, 0 < (Samples.idle_step lr net batch).2.2)
    by (intros lr net batch; simpl; lia).
  assert (Hne : [(); ()] ≠ []) by discriminate.
  assert (Hp : 0 < 2) by lia.
  split; [exact Hsize|]. split; [exact Hne|]. split; [exact Hp|].
  destruct (train_learning_rate_schedule Samples.idle_step Samples.idle_accuracy
              Hsize () [(); ()] None 5 (F64.of_Z 1) 2 Samples.tenth Hne Hp)
    as (Hraised & Hlen & _).
  split; [exact Hraised|exact Hlen].
Defined.

Lemma train_zero_division_witness :
  (∀ lr net batch, 0 < (Samples.idle_step lr net batch).2.2) ∧
  (1 <= 3)%nat ∧ [(); ()] ≠ [] ∧ (2 <= 5)%nat ∧
  Training.raised
    (Training.train Samples.idle_step Samples.idle_accuracy ()
       [] None 3 (F64.of_Z 1) 80 Samples.tenth)
  = Some Training.ZeroDivisionError ∧
  Training.raised
    (Training.train Samples.idle_step Samples.idle_accuracy ()
       [(); ()] None 5 (F64.of_Z 1) 0 Samples.tenth)
  = Some Training.ZeroDivisionError.
Proof.
  assert (Hsize : ∀ lr net batch, 0 < (Samples.idle_step lr net batch).2.2)
    by (intros lr net batch; simpl; lia).
  assert (Hone : (1 <= 3)%nat) by lia.
  assert (Hne : [(); ()] ≠ []) by discriminate.
  assert (Hnum : (2 <= 5)%nat) by lia.
  split; [exact Hsize|]. split; [exact Hone|]. split; [exact Hne|].
  split; [exact Hnum|]. split.
  - apply (proj1 (proj1 (train_zero_division Samples.idle_step
                           Samples.idle_accuracy Hsize () [] None 3
                           (F64.of_Z 1) 80 Samples.tenth) Hone)).
  - apply (proj1 (proj2 (train_zero_division Samples.idle_step
                           Samples.idle_accuracy Hsize () [(); ()] None 5
                           (F64.of_Z 1) 0 Samples.tenth) Hne Hnum)).
Defined.

Lemma reorg_never_deletes_witness :
  let p := ["d"; "train"; "1.png"] in
  is_Some (FS.files Examples.dataset !! p) ∧
  is_Some (FS.files
             (Kaggle.reorg_cifar10_data reverse ["d"] Samples.tenth
                Examples.dataset).1
           !! p).
Proof.
  intros p.
  assert (Hp : is_Some (FS.files Examples.dataset !! p))
    by (eexists; by_computation).
  split; [exact Hp|].
  apply (proj1 (proj2 (proj2 (reorg_never_deletes reverse ["d"] ∅ Samples.tenth
                                Examples.dataset p Hp)))).
Defined.

Lemma reorg_cifar10_data_succeeds_witness :
  (∀ l : list string, reverse l ≡ₚ l) ∧
  FS.files Examples.dataset !! (["d"] ++ ["trainLabels.csv"])
  = Some (Csv.csv_text "id,label" Samples.label_rows) ∧
  Csv.free_of (ascii_of_nat 10) "id,label" = true ∧
  Csv.free_of (ascii_of_nat 13) "id,label" = true ∧
  Forall (fun row => Csv.clean row = true) Samples.label_rows ∧
  Forall (fun row => FS.plain row.2 = true) Samples.label_rows ∧
  Samples.label_rows ≠ [] ∧
  (∀ n, Kaggle.least_count (list_to_map (reverse Samples.label_rows)) = Ok n ->
        F64.is_finite (F64.mul (F64.of_Z (Z.of_nat n)) Samples.tenth) = true) ∧
  ["d"] ++ ["train"] ∈ FS.dirs Examples.dataset ∧
  ["d"] ++ ["test"] ∈ FS.dirs Examples.dataset ∧
  Kaggle.tidy ["d"] Examples.dataset ∧
  (∀ f, f ∈ FS.entries Examples.dataset (["d"] ++ ["train"]) ->
        is_Some (FS.files Examples.dataset !! (["d"] ++ ["train"; f]))
        ∧ Kaggle.stem f = Kaggle.strip_extension f
        ∧ Kaggle.strip_extension f ∈ Samples.label_rows.*1) ∧
  (∀ f, f ∈ FS.entries Examples.dataset (["d"] ++ ["test"]) ->
        is_Some (FS.files Examples.dataset !! (["d"] ++ ["test"; f]))) ∧
  ∃ w', Kaggle.reorg_cifar10_data reverse ["d"] Samples.tenth Examples.dataset
        = (w', Ok ()).
Proof.
  assert (Hperm : ∀ l : list string, reverse l ≡ₚ l)
    by (intros l; apply reverse_Permutation).
  assert (Hfile : FS.files Examples.dataset !! (["d"] ++ ["trainLabels.csv"])
                  = Some (Csv.csv_text "id,label" Samples.label_rows))
    by by_computation.
  assert (Hheader : Csv.free_of (ascii_of_nat 10) "id,label" = true)
    by reflexivity.
  assert (Hreturn : Csv.free_of (ascii_of_nat 13) "id,label" = true)
    by reflexivity.
  assert (Hrows : Forall (fun row => Csv.clean row = true) Samples.label_rows).
  { repeat (apply Forall_cons; split; [reflexivity|]). apply Forall_nil_2. }
  assert (Hplain : Forall (fun row => FS.plain row.2 = true) Samples.label_rows).
  { repeat (apply Forall_cons; split; [by_computation|]). apply Forall_nil_2. }
  assert (Hne : Samples.label_rows ≠ []) by discriminate.
  assert (Hfin : ∀ n,
            Kaggle.least_count (list_to_map (reverse Samples.label_rows)) = Ok n ->
            F64.is_finite (F64.mul (F64.of_Z (Z.of_nat n)) Samples.tenth) = true).
  { intros n Hn.
    replace (Kaggle.least_count (list_to_map (reverse Samples.label_rows)))
      with (Ok 1%nat : result nat) in Hn by by_computation.
    injection Hn as <-. reflexivity. }
  assert (Hdir : ["d"] ++ ["train"] ∈ FS.dirs Examples.dataset) by by_decision.
  assert (Hdir2 : ["d"] ++ ["test"] ∈ FS.dirs Examples.dataset) by by_decision.
  assert (Htrain : ∀ f, f ∈ FS.entries Examples.dataset (["d"] ++ ["train"]) ->
            is_Some (FS.files Examples.dataset !! (["d"] ++ ["train"; f]))
            ∧ Kaggle.stem f = Kaggle.strip_extension f
            ∧ Kaggle.strip_extension f ∈ Samples.label_rows.*1).
  { intros f Hf.
    replace (FS.entries Examples.dataset (["d"] ++ ["train"]))
      with ["3.png"; "2.png"; "1.png"] in Hf by by_computation.
    in_list Hf;
      (split; [eexists; by_computation|split; [reflexivity|by_decision]]). }
  assert (Htest : ∀ f, f ∈ FS.entries Examples.dataset (["d"] ++ ["test"]) ->
            is_Some (FS.files Examples.dataset !! (["d"] ++ ["test"; f]))).
  { intros f Hf.
    replace (FS.entries Examples.dataset (["d"] ++ ["test"]))
      with ["1.png"] in Hf by by_computation.
    in_list Hf; eexists; by_computation. }
  split; [exact Hperm|]. split; [exact Hfile|]. split; [exact Hheader|].
  split; [exact Hreturn|]. split; [exact Hrows|]. split; [exact Hplain|].
  split; [exact Hne|]. split; [exact Hfin|]. split; [exact Hdir|].
  split; [exact Hdir2|]. split; [exact dataset_tidy|]. split; [exact Htrain|].
  split; [exact Htest|].
  destruct (reorg_cifar10_data_succeeds reverse ["d"] Samples.tenth
              Examples.dataset "id,label" Samples.label_rows Hperm Hfile Hheader
              Hreturn Hrows Hplain Hne Hfin Hdir Hdir2 dataset_tidy Htrain Htest)
    as (w' & Hrun & _).
  exists w'. exact Hrun.
Defined.

Lemma TokenEmbedding_loads_witness :
  Forall (fun line =>
            ∃ elems, Py.comprehension Examples.float (tl (Synonyms.fields line))
                     = Ok elems) Examples.vec_txt ∧
  Forall (fun line => (2 < length (Synonyms.fields line))%nat ->
                      length (Synonyms.fields line) = 3%nat) Examples.vec_txt ∧
  Exists (fun line => (2 < length (Synonyms.fields line))%nat) Examples.vec_txt ∧
  ∃ te, Embedding.__init__ Examples.float Examples.vec_txt = Ok te ∧
        Forall (fun row => length row = 2%nat) (Embedding.idx_to_vec te).
Proof.
  assert (Hparse : Forall (fun line =>
            ∃ elems, Py.comprehension Examples.float (tl (Synonyms.fields line))
                     = Ok elems) Examples.vec_txt).
  { repeat (apply Forall_cons; split; [eexists; by_computation|]).
    apply Forall_nil_2. }
  assert (Hdim : Forall (fun line => (2 < length (Synonyms.fields line))%nat ->
                      length (Synonyms.fields line) = 3%nat) Examples.vec_txt).
  { apply Forall_cons. split; [intros H; vm_compute in H; lia|].
    repeat (apply Forall_cons; split; [intros _; reflexivity|]).
    apply Forall_nil_2. }
  assert (Hword : Exists (fun line => (2 < length (Synonyms.fields line))%nat)
                    Examples.vec_txt).
  { apply Exists_cons_tl, Exists_cons_hd. vm_compute. lia. }
  split; [exact Hparse|]. split; [exact Hdim|]. split; [exact Hword|].
  apply (TokenEmbedding_loads Examples.float Examples.vec_txt 2 Hparse Hdim Hword).
Defined.
